(** * Summit Picarro processor: calibration pipeline

    A shallow embedding of [summit_picarro.py] and [picarro_main_loop.py]
    (directory [processors/summit_picarro_processor]) and the properties of
    the segmentation, quantification, matching, curve-fit and flush-filter
    steps.

    Conventions of the embedding:
    - a Python [datetime] is the number of microseconds since the epoch, a
      [timedelta] a number of microseconds, both in [Z];
    - a Python [float] measurement is a rational; the arithmetic is exact;
    - a raised exception is the [Raise] case of [result]; an ORM session is
      an explicit [Store.t] passed in and returned;
    - log messages and figures are not kept; of the calls that write them
      the embedding has the values they read and the exceptions they
      raise;
    - module [summit_core] is not among the sources: the two helpers that
      [match_cals_by_min] imports from it are modelled from the
      specification. *)

From Stdlib Require Import String ZArith QArith Bool Lia Arith Permutation List.
Import ListNotations.
Local Open Scope Z_scope.

(** ** Python values *)

Definition datetime := Z.
Definition timedelta := Z.

(** [dt.timedelta(seconds=n)] and [dt.timedelta(minutes=n)]. *)
Definition seconds (n : Z) : timedelta := n * 1000000.
Definition minutes (n : Z) : timedelta := seconds (60 * n).

Inductive exn : Set :=
| IndexError
| StatisticsError
| TypeError
| AttributeError
| ZeroDivisionError.

Inductive result (A : Type) : Type :=
| Ok (a : A)
| Raise (e : exn).
Arguments Ok {A} a.
Arguments Raise {A} e.

Definition bind {A B : Type} (c : result A) (k : A -> result B) : result B :=
  match c with
  | Ok a => k a
  | Raise e => Raise e
  end.

Notation "x <- c ;; k" := (bind c (fun x => k))
  (at level 61, c at next level, right associativity).

Definition raises {A : Type} (c : result A) : Prop :=
  exists e, c = Raise e.

(** [xs[-1]] and [xs[0]]. *)
Definition py_last {A : Type} (xs : list A) : result A :=
  match rev xs with
  | [] => Raise IndexError
  | x :: _ => Ok x
  end.

Definition py_first {A : Type} (xs : list A) : result A :=
  match xs with
  | [] => Raise IndexError
  | x :: _ => Ok x
  end.

(** [xs[ind:]]: a negative start counts from the end, and both ends are
    clamped to the list. *)
Definition slice_from {A : Type} (xs : list A) (ind : Z) : list A :=
  let n := Z.of_nat (length xs) in
  let start := if ind <? 0 then Z.max 0 (n + ind) else Z.min ind n in
  skipn (Z.to_nat start) xs.

(** [xs[lo:hi]] for non-negative bounds. *)
Definition slice {A : Type} (xs : list A) (lo hi : nat) : list A :=
  firstn (hi - lo) (skipn lo xs).

(** [x / y] on floats: a zero divisor raises. *)
Definition py_div (x y : Q) : result Q :=
  if Qeq_bool y 0 then Raise ZeroDivisionError else Ok (x / y)%Q.

(** ** The [statistics] module *)

Section Statistics.

(** The floating-point square root has no rational model: a parameter. *)
Variable sqrt : Q -> Q.

Definition Qsum (xs : list Q) : Q := fold_left Qplus xs 0%Q.

Definition Qlen (xs : list Q) : Q := inject_Z (Z.of_nat (length xs)).

Fixpoint insert_sorted (x : Q) (xs : list Q) : list Q :=
  match xs with
  | [] => [x]
  | y :: ys => if Qle_bool x y then x :: xs else y :: insert_sorted x ys
  end.

Definition sorted (xs : list Q) : list Q := fold_right insert_sorted [] xs.

Definition mean (xs : list Q) : result Q :=
  match xs with
  | [] => Raise StatisticsError
  | _ => Ok (Qsum xs / Qlen xs)%Q
  end.

Definition median (xs : list Q) : result Q :=
  let data := sorted xs in
  let n := length data in
  if (n =? 0)%nat then Raise StatisticsError
  else if (n mod 2 =? 1)%nat then Ok (nth (n / 2) data 0%Q)
  else
    let i := (n / 2)%nat in
    Ok ((nth (i - 1) data 0%Q + nth i data 0%Q) / 2)%Q.

Definition variance (xs : list Q) : result Q :=
  if (length xs <? 2)%nat then Raise StatisticsError
  else
    let xbar := (Qsum xs / Qlen xs)%Q in
    let ss := Qsum (map (fun x => (x - xbar) * (x - xbar))%Q xs) in
    Ok (ss / (Qlen xs - 1))%Q.

Definition stdev (xs : list Q) : result Q :=
  var <- variance xs ;; Ok (sqrt var).

End Statistics.

(** ** Rows of the store *)

(** The compounds ['co'], ['co2'] and ['ch4']: the names that the assertion
    of [calc_result] accepts and over which the loops run. *)
Inductive Compound : Set := CO | CO2 | CH4.

(** [{'mean': x, 'median': x, 'stdev': x}]; an unset value is [None]. *)
Record Result : Set := mkResult {
  r_mean : option Q;
  r_median : option Q;
  r_stdev : option Q }.

Definition empty_result : Result := mkResult None None None.

Module Datum.

(** The columns of table [data] that the pipeline reads or writes. The
    three measurement columns may be NULL in the table; a row is taken
    here with its three measurements set. *)
Record t : Set := mk {
  id : nat;
  date : datetime;
  instrument_status : Z;
  mpv_position : Q;
  co : Q;
  co2 : Q;
  ch4 : Q;
  file_id : option nat;
  cal_id : option nat }.

Definition set_instrument_status (v : Z) (d : t) : t :=
  mk (id d) (date d) v (mpv_position d) (co d) (co2 d) (ch4 d)
     (file_id d) (cal_id d).

Definition set_cal_id (v : option nat) (d : t) : t :=
  mk (id d) (date d) (instrument_status d) (mpv_position d) (co d) (co2 d)
     (ch4 d) (file_id d) v.

End Datum.

Module CalEvent.

Record t : Set := mk {
  id : option nat;
  date : datetime;
  data : list Datum.t;
  standard_used : string;
  co_result : option Result;
  co2_result : option Result;
  ch4_result : option Result;
  back_period : option Z;
  mastercal_id : option nat }.

Definition dates (self : t) : list datetime := map Datum.date (data self).

Definition values (self : t) (compound : Compound) : list Q :=
  match compound with
  | CO => map Datum.co (data self)
  | CO2 => map Datum.co2 (data self)
  | CH4 => map Datum.ch4 (data self)
  end.

Definition result_of (self : t) (compound : Compound) : option Result :=
  match compound with
  | CO => co_result self
  | CO2 => co2_result self
  | CH4 => ch4_result self
  end.

Definition set_result (compound : Compound) (r : Result) (self : t) : t :=
  match compound with
  | CO => mk (id self) (date self) (data self) (standard_used self)
            (Some r) (co2_result self) (ch4_result self)
            (back_period self) (mastercal_id self)
  | CO2 => mk (id self) (date self) (data self) (standard_used self)
             (co_result self) (Some r) (ch4_result self)
             (back_period self) (mastercal_id self)
  | CH4 => mk (id self) (date self) (data self) (standard_used self)
             (co_result self) (co2_result self) (Some r)
             (back_period self) (mastercal_id self)
  end.

Definition set_back_period (v : Z) (self : t) : t :=
  mk (id self) (date self) (data self) (standard_used self)
     (co_result self) (co2_result self) (ch4_result self)
     (Some v) (mastercal_id self).

Definition set_standard_used (v : string) (self : t) : t :=
  mk (id self) (date self) (data self) v
     (co_result self) (co2_result self) (ch4_result self)
     (back_period self) (mastercal_id self).

Definition set_id (v : option nat) (self : t) : t :=
  mk v (date self) (data self) (standard_used self)
     (co_result self) (co2_result self) (ch4_result self)
     (back_period self) (mastercal_id self).

Definition set_mastercal_id (v : option nat) (self : t) : t :=
  mk (id self) (date self) (data self) (standard_used self)
     (co_result self) (co2_result self) (ch4_result self)
     (back_period self) v.

(** [CalEvent(data, standard_used)]: the date of an event is the last
    timestamp of its data. *)
Definition init (data : list Datum.t) (standard_used : string) : result t :=
  d <- py_last (map Datum.date data) ;;
  Ok (mk None d data standard_used None None None None None).

(** [find_ind], local to [calc_result]: the index before the first date
    that is greater than [cutoff]. *)
Fixpoint find_ind_from (ind : Z) (dates : list datetime) (cutoff : datetime)
  : option Z :=
  match dates with
  | [] => None
  | date :: rest =>
      if cutoff <? date then Some (ind - 1)
      else find_ind_from (ind + 1) rest cutoff
  end.

Definition find_ind (dates : list datetime) (cutoff : datetime) : option Z :=
  find_ind_from 0 dates cutoff.

Section CalcResult.

Variable sqrt : Q -> Q.

(** The statistics of [data_to_use], in the order in which the dictionary
    is built. *)
Definition statistics (data_to_use : list Q) : result Result :=
  m <- mean data_to_use ;;
  md <- median data_to_use ;;
  sd <- stdev sqrt data_to_use ;;
  Ok (mkResult (Some m) (Some md) (Some sd)).

(** The slice [compound_data[ind:]] taken by [calc_result], when [find_ind]
    gives an index. *)
Definition data_to_use (self : t) (compound : Compound) (back_period : Z)
  : option (list Q) :=
  let dates := dates self in
  let compound_data := values self compound in
  let cutoff_date := date self - seconds back_period in
  match find_ind dates cutoff_date with
  | Some ind => Some (slice_from compound_data ind)
  | None => None
  end.

Definition calc_result (self : t) (compound : Compound) (back_period : Z)
  : result t :=
  res <-
    match data_to_use self compound back_period with
    | Some data_to_use => statistics data_to_use
    | None => Ok empty_result
    end ;;
  Ok (set_back_period back_period (set_result compound res self)).

End CalcResult.

(** [duration]: the date of the event minus its first timestamp. *)
Definition duration (self : t) : result timedelta :=
  d0 <- py_first (dates self) ;; Ok (date self - d0).

End CalEvent.

Module MasterCal.

Record t : Set := mk {
  id : option nat;
  subcals : list CalEvent.t;
  co_slope : option Q;
  co_intercept : option Q;
  co_middle_offset : option Q;
  co2_slope : option Q;
  co2_intercept : option Q;
  co2_middle_offset : option Q;
  ch4_slope : option Q;
  ch4_intercept : option Q;
  ch4_middle_offset : option Q }.

(** [MasterCal(standards)]: the new object. [subcals] is a relationship
    with [back_populates='mastercal'], so the assignment also takes each
    event out of the MasterCal it was in; that part is [release]. *)
Definition init (standards : list CalEvent.t) : t :=
  mk None standards None None None None None None None None None.

(** Two values stand for the same event. The events that reach a MasterCal
    come from a query, so each has its key and the session holds one
    object per key. *)
Definition same_event (a b : CalEvent.t) : bool :=
  match CalEvent.id a, CalEvent.id b with
  | Some i, Some j => (i =? j)%nat
  | _, _ => false
  end.

(** What [MasterCal(standards)] does to another MasterCal [self]: setting
    [ev.mastercal] for an event of [standards] removes it from the
    [subcals] of the MasterCal that held it. *)
Definition release (standards : list CalEvent.t) (self : t) : t :=
  mk (id self)
     (filter (fun ev => negb (existsb (same_event ev) standards))
             (subcals self))
     (co_slope self) (co_intercept self) (co_middle_offset self)
     (co2_slope self) (co2_intercept self) (co2_middle_offset self)
     (ch4_slope self) (ch4_intercept self) (ch4_middle_offset self).

Definition set_id (v : option nat) (self : t) : t :=
  mk v (subcals self) (co_slope self) (co_intercept self)
     (co_middle_offset self) (co2_slope self) (co2_intercept self)
     (co2_middle_offset self) (ch4_slope self) (ch4_intercept self)
     (ch4_middle_offset self).

(** The three [setattr] calls of one round of [create_curve]. *)
Definition set_curve (cpd : Compound) (slope icpt offset : Q) (self : t) : t :=
  match cpd with
  | CO => mk (id self) (subcals self) (Some slope) (Some icpt) (Some offset)
            (co2_slope self) (co2_intercept self) (co2_middle_offset self)
            (ch4_slope self) (ch4_intercept self) (ch4_middle_offset self)
  | CO2 => mk (id self) (subcals self)
             (co_slope self) (co_intercept self) (co_middle_offset self)
             (Some slope) (Some icpt) (Some offset)
             (ch4_slope self) (ch4_intercept self) (ch4_middle_offset self)
  | CH4 => mk (id self) (subcals self)
             (co_slope self) (co_intercept self) (co_middle_offset self)
             (co2_slope self) (co2_intercept self) (co2_middle_offset self)
             (Some slope) (Some icpt) (Some offset)
  end.

Definition slope (self : t) (cpd : Compound) : option Q :=
  match cpd with
  | CO => co_slope self
  | CO2 => co2_slope self
  | CH4 => ch4_slope self
  end.

Definition intercept (self : t) (cpd : Compound) : option Q :=
  match cpd with
  | CO => co_intercept self
  | CO2 => co2_intercept self
  | CH4 => ch4_intercept self
  end.

Definition middle_offset (self : t) (cpd : Compound) : option Q :=
  match cpd with
  | CO => co_middle_offset self
  | CO2 => co2_middle_offset self
  | CH4 => ch4_middle_offset self
  end.

End MasterCal.

(** ** Module-level data and functions of [summit_picarro.py] *)

Definition low_std : string := "low_std".
Definition mid_std : string := "mid_std".
Definition high_std : string := "high_std".
Definition dump : string := "dump".

Definition mpv_converter (mpv : Z) : option string :=
  match mpv with
  | 0 => Some "no_sequence"%string
  | 1 => Some "ambient"%string
  | 2 => Some low_std
  | 4 => Some mid_std
  | 3 => Some high_std
  | _ => None
  end.

(** The certified concentrations of one standard, per compound. *)
Definition certified := Compound -> Q.

Definition standards : list (string * certified) :=
  [ (low_std, fun cpd => match cpd with
                         | CO => 696 # 10 | CO2 => 39024 # 100
                         | CH4 => 18385 # 10 end);
    (mid_std, fun cpd => match cpd with
                         | CO => 1174 # 10 | CO2 => 40865 # 100
                         | CH4 => 19255 # 10 end);
    (high_std, fun cpd => match cpd with
                          | CO => 1746 # 10 | CO2 => 42853 # 100
                          | CH4 => 20506 # 10 end) ].

(** [Point = namedtuple('Point', 'x y')]: [x] is a certified value, [y] the
    mean read from a result, which may be unset. *)
Module Point.
Record t : Set := mk { x : Q; y : option Q }.
End Point.

(** [Curve = namedtuple('Point', 'm intercept')]. *)
Module Curve.
Record t : Set := mk { m : Q; intercept : Q }.
End Curve.

(** [a - b] where an operand may be [None]. *)
Definition py_sub (a b : option Q) : result Q :=
  match a, b with
  | Some a, Some b => Ok (a - b)%Q
  | _, _ => Raise TypeError
  end.

Definition find_cal_by_type (standards : list CalEvent.t) (std_type : string)
  : option CalEvent.t :=
  find (fun ce => String.eqb (CalEvent.standard_used ce) std_type) standards.

(** [datetimes.diff()] has no value at position 0; position [i >= 1] is kept
    when [datetimes[i] - datetimes[i-1]] is more than 60 seconds. *)
Fixpoint find_cal_indices_from (i : nat) (prev : datetime)
  (rest : list datetime) : list nat :=
  match rest with
  | [] => []
  | d :: rest' =>
      if seconds 60 <? d - prev
      then i :: find_cal_indices_from (S i) d rest'
      else find_cal_indices_from (S i) d rest'
  end.

Definition find_cal_indices (datetimes : list datetime) : list nat :=
  match datetimes with
  | [] => []
  | d0 :: rest => find_cal_indices_from 1 d0 rest
  end.

(** Modelled from the spec: [find_closest_date] of module [summit_core],
    which is not among the sources. Section 4.4: the candidate "with minimum
    absolute time difference"; among equally close candidates the first of
    the list is taken, and the difference is the candidate minus the date.
    An empty list gives the pair [(None, None)]. *)
Fixpoint closest (date : datetime) (best : datetime) (rest : list datetime)
  : datetime :=
  match rest with
  | [] => best
  | d :: rest' =>
      if Z.abs (d - date) <? Z.abs (best - date)
      then closest date d rest'
      else closest date best rest'
  end.

Definition find_closest_date (date : datetime) (list_of_dates : list datetime)
  : option datetime * option timedelta :=
  match list_of_dates with
  | [] => (None, None)
  | d :: rest =>
      let match_ := closest date d rest in
      (Some match_, Some (match_ - date))
  end.

(** Modelled from the spec: [search_for_attr_value] of module [summit_core],
    which is not among the sources, at attribute ['date']: the first event
    of the list whose date is the given one ("the matching cal"). *)
Definition search_for_attr_value (cals : list CalEvent.t) (value : datetime)
  : option CalEvent.t :=
  find (fun c => CalEvent.date c =? value) cals.

(** Truth value of an optional [timedelta]: [None] and the zero difference
    are false. *)
Definition truthy_timedelta (d : option timedelta) : bool :=
  match d with
  | None => false
  | Some v => negb (v =? 0)
  end.

Definition match_cals_by_min (cal : CalEvent.t) (cals : list CalEvent.t)
  (minutes_ : Z) : option CalEvent.t :=
  let cal_dates := map CalEvent.date cals in
  match cal_dates with
  | [] => None
  | _ =>
      match find_closest_date (CalEvent.date cal) cal_dates with
      | (Some match_, Some diff) =>
          if negb (truthy_timedelta (Some diff)) then None
          else if Z.abs diff <? minutes minutes_
               then search_for_attr_value cals match_
               else None
      | _ => None
      end
  end.

Definition calc_two_pt_curve (low high : Point.t) : result Curve.t :=
  dy <- py_sub (Point.y high) (Point.y low) ;;
  m <- py_div dy (Point.x high - Point.x low)%Q ;;
  intercept <- py_sub (Point.y low) (Some (m * Point.x low)%Q) ;;
  Ok (Curve.mk m intercept).

(** [mastercal_plot(cpd, low_coord, mid_coord, high_coord, curve,
    middle_y_offset, date)]. The frames, the drawing and [savefig] return
    for the floats that [create_curve] passes. The last statement is
    [f.close()] on the Figure that [plt.subplots] returned; a Figure has no
    attribute [close], so the call raises and the function never
    returns. *)
Definition mastercal_plot (cpd : Compound)
  (low_coord mid_coord high_coord : Point.t) (curve : Curve.t)
  (middle_y_offset : Q) (date : datetime) : result unit :=
  Raise AttributeError.

(** The arguments of the call of [mastercal_plot] that ends a round of
    [create_curve]. *)
Record PlotArgs : Set := mkPlotArgs {
  plot_low : Point.t;
  plot_mid : Point.t;
  plot_high : Point.t;
  plot_curve : Curve.t;
  plot_offset : Q;
  plot_date : datetime }.

Section CurveFit.

(** The registry of certified values read by [create_curve]; the module's
    own is [standards]. *)
Variable registry : list (string * certified).

Definition certified_of (name : string) : result certified :=
  match find (fun p => String.eqb (fst p) name) registry with
  | Some p => Ok (snd p)
  | None => Raise AttributeError
  end.

(** [getattr(ce, cpd + '_result').get('mean')], where [ce] or the result may
    be [None]. *)
Definition mean_of (ce : option CalEvent.t) (cpd : Compound)
  : result (option Q) :=
  match ce with
  | None => Raise AttributeError
  | Some ce =>
      match CalEvent.result_of ce cpd with
      | None => Raise AttributeError
      | Some r => Ok (r_mean r)
      end
  end.

(** One round of the loop of [create_curve] up to the call of
    [mastercal_plot]: the MasterCal as the three [setattr] calls leave it,
    and the arguments of the call. *)
Definition fit_curve_for (cpd : Compound) (self : MasterCal.t)
  : result (MasterCal.t * PlotArgs) :=
  let subcals := MasterCal.subcals self in
  low_val <- mean_of (find_cal_by_type subcals low_std) cpd ;;
  high_val <- mean_of (find_cal_by_type subcals high_std) cpd ;;
  mid_val <- mean_of (find_cal_by_type subcals mid_std) cpd ;;
  low_x <- certified_of low_std ;;
  let low_coord := Point.mk (low_x cpd) low_val in
  mid_x <- certified_of mid_std ;;
  let mid_coord := Point.mk (mid_x cpd) mid_val in
  high_x <- certified_of high_std ;;
  let high_coord := Point.mk (high_x cpd) high_val in
  curve <- calc_two_pt_curve low_coord high_coord ;;
  middle_y_offset <-
    py_sub (Point.y mid_coord)
           (Some (Curve.m curve * Point.x mid_coord + Curve.intercept curve)%Q) ;;
  first <- py_first subcals ;;
  Ok (MasterCal.set_curve cpd (Curve.m curve) (Curve.intercept curve)
        middle_y_offset self,
      mkPlotArgs low_coord mid_coord high_coord curve middle_y_offset
        (CalEvent.date first)).

(** One round of the loop of [create_curve]. *)
Definition create_curve_for (cpd : Compound) (self : MasterCal.t)
  : result MasterCal.t :=
  fit <- fit_curve_for cpd self ;;
  _ <- mastercal_plot cpd (plot_low (snd fit)) (plot_mid (snd fit))
         (plot_high (snd fit)) (plot_curve (snd fit)) (plot_offset (snd fit))
         (plot_date (snd fit)) ;;
  Ok (fst fit).

Definition create_curve (self : MasterCal.t) : result MasterCal.t :=
  self <- create_curve_for CO self ;;
  self <- create_curve_for CO2 self ;;
  create_curve_for CH4 self.

End CurveFit.

(** ** The persisted store *)

Module Store.

(** Tables [data], [cals] and [mastercals], rows in insertion order. *)
Record t : Set := mk {
  data : list Datum.t;
  cals : list CalEvent.t;
  mastercals : list MasterCal.t }.

Definition empty : t := mk [] [] [].

End Store.

Definition is_none {A : Type} (o : option A) : bool :=
  match o with
  | None => true
  | Some _ => false
  end.

(** [id IN (ids)]. *)
Definition id_in (ids : list nat) (i : nat) : bool := existsb (Nat.eqb i) ids.

(** The next value of an integer primary key. *)
Definition next_id (used : list nat) : nat := S (fold_right Nat.max 0%nat used).

Definition some_ids (ids : list (option nat)) : list nat :=
  flat_map (fun o => match o with Some i => [i] | None => [] end) ids.

(** [filter_postcal_data(cal, session)]. *)
Definition filter_postcal_data (cal : CalEvent.t) (session : Store.t)
  : result Store.t :=
  last_cal_date <- py_last (map Datum.date (CalEvent.data cal)) ;;
  let end_flush_date := last_cal_date + minutes 1 in
  let flush (d : Datum.t) : bool :=
    (last_cal_date <? Datum.date d) && (Datum.date d <=? end_flush_date) in
  Ok (Store.mk
        (map (fun d => if flush d then Datum.set_instrument_status 999 d else d)
             (Store.data session))
        (Store.cals session) (Store.mastercals session)).

(** ** [picarro_main_loop.py]: one round of each task *)

(** A row of a data file as [read_csv] gives it; [EPOCH_TIME] is kept as the
    [datetime] that [utcfromtimestamp] makes of it. *)
Record Line : Set := mkLine {
  EPOCH_TIME : datetime;
  INST_STATUS : Z;
  MPVPosition : Q;
  CO_sync : Q;
  CO2_dry_sync : Q;
  CH4_dry_sync : Q }.

(** The unit changes applied to the frame before the rows are read: CO and
    CH4 go from ppm to ppb. *)
Definition convert_units (line : Line) : Line :=
  mkLine (EPOCH_TIME line) (INST_STATUS line) (MPVPosition line)
         (CO_sync line * 1000)%Q (CO2_dry_sync line)
         (CH4_dry_sync line * 1000)%Q.

(** [Datum(line_dict)] followed, for an accepted row, by
    [d.file_id = file.id] and [session.add(d)], which gives the row its key. *)
Definition add_datum (file_id : nat) (line : Line) (session : Store.t)
  : Store.t :=
  let d := Datum.mk (next_id (map Datum.id (Store.data session)))
             (EPOCH_TIME line) (INST_STATUS line) (MPVPosition line)
             (CO_sync line) (CO2_dry_sync line) (CH4_dry_sync line)
             (Some file_id) None in
  Store.mk (Store.data session ++ [d]) (Store.cals session)
           (Store.mastercals session).

(** The loop over [data_list] for one file: [if d.date not in db_dates]. *)
Definition load_file (db_dates : list datetime) (session : Store.t)
  (file : nat * list Line) : Store.t :=
  fold_left
    (fun session line =>
       if existsb (Z.eqb (EPOCH_TIME line)) db_dates then session
       else add_datum (fst file) line session)
    (map convert_units (snd file)) session.

(** What the body of [check_load_new_data] does to table [data] once
    [files_to_process] is known: [db_dates] is read once, before any file
    is loaded. The round as a whole, with table [files] and the write
    [file.processed = True], is [check_load_round]. *)
Definition check_load_new_data (files_to_process : list (nat * list Line))
  (session : Store.t) : Store.t :=
  let db_dates := map Datum.date (Store.data session) in
  fold_left (load_file db_dates) files_to_process session.

(** [sort_values(by=['date'])] on the frame of [(id, date)] rows. *)
Fixpoint insert_by_date (r : nat * datetime) (rows : list (nat * datetime))
  : list (nat * datetime) :=
  match rows with
  | [] => [r]
  | r' :: rest =>
      if snd r <=? snd r' then r :: rows else r' :: insert_by_date r rest
  end.

Definition sort_values (rows : list (nat * datetime)) : list (nat * datetime) :=
  fold_right insert_by_date [] rows.

(** The frame for one valve position: rows of that position that are in no
    calibration event yet. *)
Definition mpv_data (session : Store.t) (MPV : Z) : list (nat * datetime) :=
  map (fun d => (Datum.id d, Datum.date d))
      (filter (fun d => Qeq_bool (Datum.mpv_position d) (inject_Z MPV)
                        && is_none (Datum.cal_id d))
              (Store.data session)).

Definition standard_data (session : Store.t)
  : list (string * list (nat * datetime)) :=
  flat_map
    (fun MPV =>
       let mpv_data := mpv_data session MPV in
       if (length mpv_data =? 0)%nat then []
       else match mpv_converter MPV with
            | Some standard => [(standard, sort_values mpv_data)]
            | None => []
            end)
    [2; 3; 4].

(** [session.query(Datum).filter(Datum.id.in_(ids)).all()]. *)
Definition query_ids (session : Store.t) (ids : list nat) : list Datum.t :=
  filter (fun d => id_in ids (Datum.id d)) (Store.data session).

Definition enumerate {A : Type} (xs : list A) : list (nat * A) :=
  combine (seq 0 (length xs)) xs.

(** The loop [for num, ind in enumerate(indices)] of [find_cal_events];
    [n_indices] is [len(indices)]. *)
Fixpoint cal_events_loop (session : Store.t) (ids : list nat)
  (standard : string) (n_indices : nat) (todo : list (nat * nat))
  (prev_ind : nat) (cal_events : list CalEvent.t)
  : result (list CalEvent.t) :=
  match todo with
  | [] => Ok cal_events
  | (num, ind) :: todo' =>
      let event_data := query_ids session (slice ids prev_ind ind) in
      ev <- CalEvent.init event_data standard ;;
      let cal_events := cal_events ++ [ev] in
      cal_events <-
        (if (num =? n_indices)%nat then
           let event_data := query_ids session (skipn ind ids) in
           ev <- CalEvent.init event_data standard ;;
           Ok (cal_events ++ [ev])
         else Ok cal_events) ;;
      cal_events_loop session ids standard n_indices todo' ind cal_events
  end.

(** The candidate events of one standard, or [None] when the round is
    skipped because no index was found. *)
Definition candidate_events (session : Store.t) (standard : string)
  (data : list (nat * datetime)) : result (option (list CalEvent.t)) :=
  let indices := find_cal_indices (map snd data) in
  if (length indices =? 0)%nat then Ok None
  else
    cal_events <-
      cal_events_loop session (map fst data) standard (length indices)
        (enumerate indices) 0 [] ;;
    Ok (Some cal_events).

(** [session.merge(ev)] for a new event: the event gets its key and its
    data rows point to it. *)
Definition merge_event (ev : CalEvent.t) (session : Store.t) : Store.t :=
  let key := next_id (some_ids (map CalEvent.id (Store.cals session))) in
  let members := map Datum.id (CalEvent.data ev) in
  Store.mk
    (map (fun d => if id_in members (Datum.id d)
                   then Datum.set_cal_id (Some key) d else d)
         (Store.data session))
    (Store.cals session ++ [CalEvent.set_id (Some key) ev])
    (Store.mastercals session).

Section Quantify.

Variable sqrt : Q -> Q.

(** The body of [for ev in cal_events] up to the merge. *)
Definition quantify (ev : CalEvent.t) : result CalEvent.t :=
  d0 <- py_first (CalEvent.dates ev) ;;
  if CalEvent.date ev - d0 <? seconds 90
  then Ok (CalEvent.set_standard_used dump ev)
  else
    ev <- CalEvent.calc_result sqrt ev CO 21 ;;
    ev <- CalEvent.calc_result sqrt ev CO2 21 ;;
    CalEvent.calc_result sqrt ev CH4 21.

Fixpoint merge_events (cal_events : list CalEvent.t) (session : Store.t)
  : result Store.t :=
  match cal_events with
  | [] => Ok session
  | ev :: rest =>
      ev' <- quantify ev ;;
      merge_events rest (merge_event ev' session)
  end.

(** One round of [for standard, data in standard_data.items()]. *)
Definition process_standard (session : Store.t)
  (item : string * list (nat * datetime)) : result Store.t :=
  found <- candidate_events session (fst item) (snd item) ;;
  match found with
  | None => Ok session
  | Some cal_events => merge_events cal_events session
  end.

Fixpoint process_standards (items : list (string * list (nat * datetime)))
  (session : Store.t) : result Store.t :=
  match items with
  | [] => Ok session
  | item :: rest =>
      session <- process_standard session item ;;
      process_standards rest session
  end.

(** One round of the loop of [find_cal_events]. *)
Definition find_cal_events (session : Store.t) : result Store.t :=
  process_standards (standard_data session) session.

End Quantify.

(** The three queries of [create_mastercals]: events of one standard that
    are in no MasterCal yet. *)
Definition unlinked (session : Store.t) (standard : string)
  : list CalEvent.t :=
  filter (fun ce => is_none (CalEvent.mastercal_id ce)
                    && String.eqb (CalEvent.standard_used ce) standard)
         (Store.cals session).

(** The calls [MasterCal([lowcal, matching_high, matching_mid])] made by
    the loop [for lowcal in lowcals], in order, each MasterCal as its call
    builds it. The list that the loop holds when it ends is
    [loop_mastercals]. *)
Definition match_step (highcals midcals : list CalEvent.t)
  (mastercals : list MasterCal.t) (lowcal : CalEvent.t) : list MasterCal.t :=
  match match_cals_by_min lowcal highcals 5 with
  | Some matching_high =>
      match match_cals_by_min matching_high midcals 5 with
      | Some matching_mid =>
          mastercals ++ [MasterCal.init [lowcal; matching_high; matching_mid]]
      | None => mastercals
      end
  | None => mastercals
  end.

Definition match_mastercals (lowcals highcals midcals : list CalEvent.t)
  : list MasterCal.t :=
  fold_left (match_step highcals midcals) lowcals [].

(** One round of the loop [for lowcal in lowcals] on the list [mastercals]:
    building the new MasterCal takes its three events out of the
    MasterCals built before. The pools are not changed. *)
Definition loop_step (highcals midcals : list CalEvent.t)
  (mastercals : list MasterCal.t) (lowcal : CalEvent.t) : list MasterCal.t :=
  match match_cals_by_min lowcal highcals 5 with
  | Some matching_high =>
      match match_cals_by_min matching_high midcals 5 with
      | Some matching_mid =>
          let standards := [lowcal; matching_high; matching_mid] in
          map (MasterCal.release standards) mastercals
              ++ [MasterCal.init standards]
      | None => mastercals
      end
  | None => mastercals
  end.

(** The list [mastercals] when the loop [for lowcal in lowcals] ends. *)
Definition loop_mastercals (lowcals highcals midcals : list CalEvent.t)
  : list MasterCal.t :=
  fold_left (loop_step highcals midcals) lowcals [].

(** [session.add(mc)]: the MasterCal gets its key and its subcals point to
    it. *)
Definition add_mastercal (mc : MasterCal.t) (session : Store.t) : Store.t :=
  let key := next_id (some_ids (map MasterCal.id (Store.mastercals session))) in
  let members := some_ids (map CalEvent.id (MasterCal.subcals mc)) in
  Store.mk
    (Store.data session)
    (map (fun ce =>
            match CalEvent.id ce with
            | Some i => if id_in members i
                        then CalEvent.set_mastercal_id (Some key) ce else ce
            | None => ce
            end)
         (Store.cals session))
    (Store.mastercals session ++ [MasterCal.set_id (Some key) mc]).

(** The loop [for mc in mastercals]: the curve, [session.add(mc)] and the
    log message, which reads [mc.subcals[0].date]. *)
Fixpoint add_mastercals (mastercals : list MasterCal.t) (session : Store.t)
  : result Store.t :=
  match mastercals with
  | [] => Ok session
  | mc :: rest =>
      mc <- create_curve standards mc ;;
      let session := add_mastercal mc session in
      _ <- py_first (MasterCal.subcals mc) ;;
      add_mastercals rest session
  end.

(** One round of the loop of [create_mastercals]. *)
Definition create_mastercals (session : Store.t) : result Store.t :=
  let lowcals := unlinked session low_std in
  let highcals := unlinked session high_std in
  let midcals := unlinked session mid_std in
  let mastercals := loop_mastercals lowcals highcals midcals in
  if (0 <? length mastercals)%nat then add_mastercals mastercals session
  else Ok session.

(** ** Sample rows used by the concrete runs below *)

(** A row with key [i], measured [t] seconds after the epoch at valve
    position [mpv], reading [v] on every channel, status 963. *)
Definition sample (i : nat) (t : Z) (mpv : Z) (v : Q) : Datum.t :=
  Datum.mk i (seconds t) 963 (inject_Z mpv) v v v (Some 1%nat) None.

(** The identity stands in for the square root where a run needs one. *)
Definition sample_sqrt (q : Q) : Q := q.

(** The status written by the instrument for good data (docstring of
    [Datum]). *)
Definition good_data_status : Z := 963.

(** ** Vocabulary of the statements and sample data *)

(** An event holding a single Datum. *)
Definition single_datum_event : CalEvent.t :=
  CalEvent.mk None (seconds 100) [sample 1 100 2 (5 # 1)] low_std
    None None None None None.

(** An event of 100 seconds: rows at 0, 70, 90, 95 and 100 seconds reading
    10, 20, 30, 40 and 50. With a window of 21 seconds the cutoff is at 79
    seconds. *)
Definition window_rows : list Datum.t :=
  [ sample 1 0 2 (10 # 1); sample 2 70 2 (20 # 1); sample 3 90 2 (30 # 1);
    sample 4 95 2 (40 # 1); sample 5 100 2 (50 # 1) ].

Definition window_event : CalEvent.t :=
  CalEvent.mk None (seconds 100) window_rows low_std None None None None None.

(** The mean of a stored result, in lowest terms. *)
Definition mean_of_result (r : option Result) : option Q :=
  match r with
  | Some r => option_map Qred (r_mean r)
  | None => None
  end.

(** A registry whose low and high standards carry the same CO value. *)
Definition degenerate_registry : list (string * certified) :=
  [ (low_std, fun _ => 100 # 1); (mid_std, fun _ => 150 # 1);
    (high_std, fun cpd => match cpd with CO => 100 # 1 | _ => 200 # 1 end) ].

(** The results of [ce] are set and their means are the values [v]. *)
Definition has_mean (ce : CalEvent.t) (v : Compound -> Q) : Prop :=
  forall cpd, exists r,
    CalEvent.result_of ce cpd = Some r /\ r_mean r = Some (v cpd).

(** The example of the specification for CO (low mean 69.8, high mean
    174.4), completed with means for the other compounds and the mid
    standard. *)
Definition fit_result (v : Q) : option Result :=
  Some (mkResult (Some v) (Some v) (Some 0%Q)).

Definition fit_event (i : nat) (t : Z) (standard : string)
  (v : Compound -> Q) : CalEvent.t :=
  CalEvent.mk (Some i) (seconds t) [] standard
    (fit_result (v CO)) (fit_result (v CO2)) (fit_result (v CH4))
    (Some 21) None.

Definition fit_low (cpd : Compound) : Q :=
  match cpd with CO => 698 # 10 | CO2 => 390 # 1 | CH4 => 1840 # 1 end.

Definition fit_mid (cpd : Compound) : Q :=
  match cpd with CO => 1175 # 10 | CO2 => 409 # 1 | CH4 => 1926 # 1 end.

Definition fit_high (cpd : Compound) : Q :=
  match cpd with CO => 1744 # 10 | CO2 => 428 # 1 | CH4 => 2050 # 1 end.

Definition fit_mastercal : MasterCal.t :=
  MasterCal.init [ fit_event 1 0 low_std fit_low;
                   fit_event 2 180 high_std fit_high;
                   fit_event 3 360 mid_std fit_mid ].

(** A low-standard event ending at 100 seconds, followed by ambient rows at
    130, 160 (one minute after the end, to the microsecond) and 161
    seconds. *)
Definition flush_event : CalEvent.t :=
  CalEvent.mk (Some 1%nat) (seconds 100)
    [sample 1 0 2 (1 # 1); sample 2 100 2 (1 # 1)] low_std
    None None None None None.

Definition flush_store : Store.t :=
  Store.mk
    [ sample 1 0 2 (1 # 1); sample 2 100 2 (1 # 1); sample 3 130 1 (1 # 1);
      sample 4 160 1 (1 # 1); sample 5 161 1 (1 # 1) ]
    [flush_event] [].

(** A row of a data file stamped [t] seconds after the epoch. *)
Definition sample_line (t : Z) : Line :=
  mkLine (seconds t) 963 1 (1 # 10) (400 # 1) (19 # 10).

(** The distance in time between the ends of two events. *)
Definition time_diff (a b : CalEvent.t) : Z :=
  Z.abs (CalEvent.date b - CalEvent.date a).

(** [c] is an event of [cals] that no other event of [cals] beats in
    distance to [cal]. *)
Definition nearest (cal : CalEvent.t) (cals : list CalEvent.t)
  (c : CalEvent.t) : Prop :=
  In c cals /\ forall c', In c' cals -> time_diff cal c <= time_diff cal c'.

(** Four events that ran one after the other, each ending 100 seconds after
    the one before: low, high, mid, low. *)
Definition shared_low_1 : CalEvent.t := fit_event 1 0 low_std fit_low.
Definition shared_high : CalEvent.t := fit_event 2 100 high_std fit_high.
Definition shared_mid : CalEvent.t := fit_event 3 200 mid_std fit_mid.
Definition shared_low_2 : CalEvent.t := fit_event 4 300 low_std fit_low.

Definition shared_store : Store.t :=
  Store.mk [] [shared_low_1; shared_high; shared_mid; shared_low_2] [].

(** A run of 40 seconds. *)
Definition short_rows : list Datum.t :=
  [ sample 1 0 2 (10 # 1); sample 2 20 2 (20 # 1); sample 3 40 2 (30 # 1) ].

Definition short_event : CalEvent.t :=
  CalEvent.mk None (seconds 40) short_rows low_std None None None None None.

(** The earliest and the latest of a list of dates. *)
Definition earliest (dates : list datetime) : datetime :=
  fold_right Z.min (hd 0 dates) dates.

Definition latest (dates : list datetime) : datetime :=
  fold_right Z.max (hd 0 dates) dates.

(** Low-standard rows at 0, 50 and 100 seconds and, after a break, at 200
    seconds, stored with keys that follow the dates. *)
Definition ordered_store : Store.t :=
  Store.mk
    [ sample 1 0 2 (1 # 1); sample 2 50 2 (1 # 1); sample 3 100 2 (1 # 1);
      sample 4 200 2 (1 # 1) ]
    [] [].

(** The same rows stored in another order: the row of 100 seconds was
    loaded first and has key 1. *)
Definition unordered_store : Store.t :=
  Store.mk
    [ sample 1 100 2 (1 # 1); sample 2 0 2 (1 # 1); sample 3 50 2 (1 # 1);
      sample 4 200 2 (1 # 1) ]
    [] [].

(** The time between row [i] of a frame and the row before it. *)
Definition gap (dates : list datetime) (i : nat) : Z :=
  nth i dates 0 - nth (i - 1) dates 0.

(** Row [i] starts a new run: it is more than 60 seconds after row [i-1]. *)
Definition is_break (dates : list datetime) (i : nat) : Prop :=
  (1 <= i < length dates)%nat /\ seconds 60 < gap dates i.

(** A strictly increasing list of positions, all above [lo]. *)
Fixpoint increasing (lo : nat) (l : list nat) : Prop :=
  match l with
  | [] => True
  | i :: l' => (lo < i)%nat /\ increasing i l'
  end.

(** The pairs [(prev_ind, ind)] met by the loop of [find_cal_events]. *)
Fixpoint bounds (prev : nat) (indices : list nat) : list (nat * nat) :=
  match indices with
  | [] => []
  | i :: rest => (prev, i) :: bounds i rest
  end.

(** Row [i] of the frame is one of the Datums of event [ev]. *)
Definition holds_row (ev : CalEvent.t) (rows : list (nat * datetime))
  (i : nat) : Prop :=
  exists r, nth_error rows i = Some r /\
            In (fst r) (map Datum.id (CalEvent.data ev)).

(** Rows [a] to [b - 1] are a maximal run that is followed by a break: a
    run starts at [a], row [b] starts the next one, and no row in between
    starts one. *)
Definition run_to_break (dates : list datetime) (a b : nat) : Prop :=
  (a = 0%nat \/ is_break dates a) /\ is_break dates b /\ (a < b)%nat /\
  forall j, (a < j < b)%nat -> ~ is_break dates j.

(** Low-standard rows at 0, 45, 100, 300, 350, 400 and 600 seconds: breaks
    before the rows at 300 and at 600 seconds. *)
Definition segment_store : Store.t :=
  Store.mk
    [ sample 1 0 2 (1 # 1); sample 2 45 2 (1 # 1); sample 3 100 2 (1 # 1);
      sample 4 300 2 (1 # 1); sample 5 350 2 (1 # 1); sample 6 400 2 (1 # 1);
      sample 7 600 2 (1 # 1) ]
    [] [].

(** Low-standard rows at 0, 45 and 100 seconds: no break. *)
Definition unbroken_store : Store.t :=
  Store.mk
    [ sample 1 0 2 (1 # 1); sample 2 45 2 (1 # 1); sample 3 100 2 (1 # 1) ]
    [] [].

(** [ev] is what [CalEvent(data, standard)] builds for some data. *)
Definition built_for (standard : string) (ev : CalEvent.t) : Prop :=
  exists data, CalEvent.init data standard = Ok ev.

(** The date of [ev] is the date of its last Datum, and [ev] carries the
    tag ['dump'] exactly when its first Datum is less than 90 seconds
    before. *)
Definition tagged_by_span (ev : CalEvent.t) : Prop :=
  exists first,
    py_first (CalEvent.dates ev) = Ok first /\
    py_last (CalEvent.dates ev) = Ok (CalEvent.date ev) /\
    (CalEvent.standard_used ev = dump <->
     CalEvent.date ev - first < seconds 90).

(** No event that is linked to a MasterCal carries the tag ['dump']. *)
Definition no_dump_linked (session : Store.t) : Prop :=
  forall ce, In ce (Store.cals session) ->
             CalEvent.mastercal_id ce <> None ->
             CalEvent.standard_used ce <> dump.

(** ** Further functions of [summit_picarro.py] *)

(** [f'{v:.03f}']: formatting [None] with a float format raises. *)
Definition format_03f (v : option Q) : result unit :=
  match v with
  | Some _ => Ok tt
  | None => Raise TypeError
  end.

(** [f'{result["mean"]:.03f}'] and the like: a result that is [None] cannot
    be subscripted. *)
Definition format_field (r : option Result) (field : Result -> option Q)
  : result unit :=
  match r with
  | Some r => format_03f (field r)
  | None => Raise TypeError
  end.

(** [log_event_quantification(logger, event)]: the values that the four
    messages read and format, in the order of the f-strings; the text goes
    to the log and is dropped. *)
Definition log_event_quantification (event : CalEvent.t) : result unit :=
  _ <- CalEvent.duration event ;;
  _ <- format_field (CalEvent.co_result event) r_mean ;;
  _ <- format_field (CalEvent.co2_result event) r_mean ;;
  _ <- format_field (CalEvent.ch4_result event) r_mean ;;
  _ <- format_field (CalEvent.co_result event) r_median ;;
  _ <- format_field (CalEvent.co2_result event) r_median ;;
  _ <- format_field (CalEvent.ch4_result event) r_median ;;
  _ <- format_field (CalEvent.co_result event) r_stdev ;;
  _ <- format_field (CalEvent.co2_result event) r_stdev ;;
  format_field (CalEvent.ch4_result event) r_stdev.

(** ** Vocabulary of the further properties *)

(** The three results of [ev] are set, with a mean, a median and a standard
    deviation each. *)
Definition fully_set (ev : CalEvent.t) : Prop :=
  forall cpd, exists m md sd,
    CalEvent.result_of ev cpd = Some (mkResult (Some m) (Some md) (Some sd)).

(** Row [d'] is row [d] with, at most, another [cal_id]; it is [d] itself
    unless the key of [d] is one of [ids]. *)
Definition relinked (ids : list nat) (d d' : Datum.t) : Prop :=
  d' = Datum.set_cal_id (Datum.cal_id d') d /\
  (~ In (Datum.id d) ids -> d' = d).

(** An event as [find_cal_events] stores it for [standard]: it has a key
    and is in no MasterCal; either it is tagged ['dump'] and has no result,
    or it keeps its standard and its three results are set. *)
Definition stored_event (standard : string) (ev : CalEvent.t) : Prop :=
  (exists key, CalEvent.id ev = Some key) /\
  CalEvent.mastercal_id ev = None /\
  ((CalEvent.standard_used ev = dump /\
    forall cpd, CalEvent.result_of ev cpd = None)
   \/
   (CalEvent.standard_used ev = standard /\ fully_set ev)).

(** Every event of the store that is not tagged ['dump'] has its three
    results set. *)
Definition results_set (session : Store.t) : Prop :=
  forall ce, In ce (Store.cals session) ->
             CalEvent.standard_used ce <> dump -> fully_set ce.

(** The valve positions of the three standards. *)
Definition standard_valve (d : Datum.t) : Prop :=
  (Datum.mpv_position d == 2)%Q \/ (Datum.mpv_position d == 3)%Q \/
  (Datum.mpv_position d == 4)%Q.

(** A store with low-standard rows at 0, 50 and 100 seconds, an ambient row
    at 150 seconds, a low-standard row at 300 seconds, and a low-standard
    row at 20 seconds that is already in event 9. *)
Definition mixed_store : Store.t :=
  Store.mk
    [ sample 1 0 2 (1 # 1); sample 2 50 2 (2 # 1); sample 3 100 2 (3 # 1);
      sample 4 150 1 (4 # 1); sample 5 300 2 (5 # 1);
      Datum.set_cal_id (Some 9%nat) (sample 6 20 2 (6 # 1)) ]
    [] [].

(** Datum [d] is what [Datum(line_dict)] makes of row [line] of file
    [file_id] once the units are changed: CO and CH4 times 1000, CO2 as it
    is; the Datum is in no event. *)
Definition ingested_from (file_id : nat) (line : Line) (d : Datum.t) : Prop :=
  Datum.file_id d = Some file_id /\
  Datum.cal_id d = None /\
  Datum.date d = EPOCH_TIME line /\
  Datum.instrument_status d = INST_STATUS line /\
  Datum.mpv_position d = MPVPosition line /\
  Datum.co d = (CO_sync line * 1000)%Q /\
  Datum.co2 d = CO2_dry_sync line /\
  Datum.ch4 d = (CH4_dry_sync line * 1000)%Q.

(** What [filter_postcal_data] does to one row, for an event whose last
    Datum is dated [last_cal_date]. *)
Definition flushed (last_cal_date : datetime) (d : Datum.t) : Datum.t :=
  if (last_cal_date <? Datum.date d)
     && (Datum.date d <=? last_cal_date + minutes 1)
  then Datum.set_instrument_status 999 d else d.

(** ** The file name built by [summit_picarro_plot] *)

From Stdlib Require Import Ascii.

(** Names are read as ASCII text, one [ascii] per character. *)
Fixpoint map_chars (f : Ascii.ascii -> Ascii.ascii) (s : string) : string :=
  match s with
  | EmptyString => EmptyString
  | String c rest => String (f c) (map_chars f rest)
  end.

(** [s.replace(old, new)] for one-character [old] and [new]. *)
Definition replace_char (old new : Ascii.ascii) (s : string) : string :=
  map_chars (fun c => if Ascii.eqb c old then new else c) s.

Definition is_upper (c : Ascii.ascii) : bool :=
  (65 <=? Ascii.nat_of_ascii c)%nat && (Ascii.nat_of_ascii c <=? 90)%nat.

Definition lower_char (c : Ascii.ascii) : Ascii.ascii :=
  if is_upper c then Ascii.ascii_of_nat (Ascii.nat_of_ascii c + 32) else c.

(** [s.lower()]. *)
Definition lower (s : string) : string := map_chars lower_char s.

(** [k.replace('-', '_').replace('/', '_').lower()]: one entry of
    [compounds_safe]. *)
Definition compound_safe (k : string) : string :=
  lower (replace_char "/"%char "_"%char (replace_char "-"%char "_"%char k)).

(** [plot_name] for the keys of [compound_dict], in their order:
    [fn_list = '_'.join(compounds_safe).replace(' ', '_')] and
    [f'{fn_list}_last_week.png']. *)
Definition plot_name (keys : list string) : string :=
  let compounds_safe := map compound_safe keys in
  let fn_list :=
    replace_char " "%char "_"%char (String.concat "_" compounds_safe) in
  (fn_list ++ "_last_week.png")%string.

(** A character that is neither a dash, a slash, a space nor an upper-case
    letter. *)
Definition plain_char (c : Ascii.ascii) : bool :=
  negb (Ascii.eqb c "-"%char) && negb (Ascii.eqb c "/"%char)
  && negb (Ascii.eqb c " "%char) && negb (is_upper c).

(** ** File tracking in [check_load_new_data] *)

Module DataFile.

(** The columns of table [files]. *)
Record t : Set := mk {
  id : option nat;
  _name : string;
  _path : string;
  size : Z;
  processed : bool }.

Definition set_id (v : option nat) (f : t) : t :=
  mk v (_name f) (_path f) (size f) (processed f).

Definition set_processed (v : bool) (f : t) : t :=
  mk (id f) (_name f) (_path f) (size f) v.

End DataFile.

(** [Path(p).name] for a path as a scan yields it: the text after its last
    slash. *)
Fixpoint path_name_from (acc : string) (p : string) : string :=
  match p with
  | EmptyString => acc
  | String c rest =>
      if Ascii.eqb c "/"%char then path_name_from EmptyString rest
      else path_name_from (acc ++ String c EmptyString) rest
  end.

Definition path_name (p : string) : string := path_name_from EmptyString p.

(** A file that the scan of the data directory finds: its path, the size
    that [Path.stat] reports for it and the rows that [read_csv] reads
    from it, [None] when the file cannot be parsed and the read raises. *)
Record Found : Set := mkFound {
  found_path : string;
  st_size : Z;
  found_rows : option (list Line) }.

(** [DataFile(path)]. *)
Definition new_datafile (file : Found) : DataFile.t :=
  DataFile.mk None (path_name (found_path file)) (found_path file)
              (st_size file) false.

(** Modelled from the spec: [check_filesize] is not among the sources.
    Section 4.1: the "current byte size" of the file. *)
Definition check_filesize (file : Found) : Z := st_size file.

(** One round of [for file in all_available_files]: [db_match] is the
    first row of table [files] with the name of the file. *)
Definition queue_file (db_files : list DataFile.t)
  (db_filenames : list string) (files_to_process : list DataFile.t)
  (file : Found) : result (list DataFile.t) :=
  let name := path_name (found_path file) in
  let db_match :=
    find (fun f => String.eqb (DataFile._name f) name) db_files in
  if negb (existsb (String.eqb name) db_filenames)
  then Ok (files_to_process ++ [new_datafile file])
  else
    match db_match with
    | None => Raise AttributeError
    | Some db_match =>
        if DataFile.size db_match <? check_filesize file
        then Ok (files_to_process ++ [db_match])
        else Ok files_to_process
    end.

Fixpoint queue_files (db_files : list DataFile.t)
  (db_filenames : list string) (all_available_files : list Found)
  (files_to_process : list DataFile.t) : result (list DataFile.t) :=
  match all_available_files with
  | [] => Ok files_to_process
  | file :: rest =>
      files_to_process <-
        queue_file db_files db_filenames files_to_process file ;;
      queue_files db_files db_filenames rest files_to_process
  end.

(** [files_to_process] as it stands before the merge: the unprocessed rows
    of table [files], then what the scan adds. *)
Definition files_to_process (db_files : list DataFile.t)
  (all_available_files : list Found) : result (list DataFile.t) :=
  queue_files db_files (map DataFile._name db_files) all_available_files
    (filter (fun f => negb (DataFile.processed f)) db_files).

(** [session.merge(file)] and the commit that follows: a row of the table
    is returned as it is; a file without a key is inserted and gets one,
    unless its path is in the table already: column [_path] is unique and
    the commit raises ([None]). *)
Definition merge_file (file : DataFile.t) (db_files : list DataFile.t)
  : option (DataFile.t * list DataFile.t) :=
  match DataFile.id file with
  | Some _ => Some (file, db_files)
  | None =>
      if existsb (String.eqb (DataFile._path file))
                 (map DataFile._path db_files)
      then None
      else
        let key := next_id (some_ids (map DataFile.id db_files)) in
        let merged := DataFile.set_id (Some key) file in
        Some (merged, db_files ++ [merged])
  end.

Fixpoint merge_files (todo : list DataFile.t) (db_files : list DataFile.t)
  : option (list DataFile.t * list DataFile.t) :=
  match todo with
  | [] => Some ([], db_files)
  | file :: rest =>
      match merge_file file db_files with
      | None => None
      | Some (merged, db_files) =>
          match merge_files rest db_files with
          | None => None
          | Some (rest', db_files) => Some (merged :: rest', db_files)
          end
      end
  end.

(** [pd.read_csv(file.path)]: the rows of the file at that path; [None]
    when the read raises, for want of the file or of rows to parse. *)
Definition read_csv (disk : list Found) (path : string)
  : option (list Line) :=
  match find (fun f => String.eqb (found_path f) path) disk with
  | Some f => found_rows f
  | None => None
  end.

(** [file.processed = True] followed by the commit. *)
Definition mark_processed (key : nat) (db_files : list DataFile.t)
  : list DataFile.t :=
  map (fun f => match DataFile.id f with
                | Some k => if (k =? key)%nat
                            then DataFile.set_processed true f else f
                | None => f
                end)
      db_files.

(** The loop [for file in files_to_process] after the merge; [None] when a
    read raises. A merged file always has a key. *)
Fixpoint load_queue (disk : list Found) (db_dates : list datetime)
  (todo : list DataFile.t) (db_files : list DataFile.t) (session : Store.t)
  : option (list DataFile.t * Store.t) :=
  match todo with
  | [] => Some (db_files, session)
  | file :: rest =>
      match read_csv disk (DataFile._path file), DataFile.id file with
      | Some rows, Some key =>
          load_queue disk db_dates rest (mark_processed key db_files)
            (load_file db_dates session (key, rows))
      | _, _ => None
      end
  end.

(** One round of the loop of [check_load_new_data], from the scan [disk]
    of the data directory on; [None] when the round raises. *)
Definition check_load_round (disk : list Found) (db_files : list DataFile.t)
  (session : Store.t) : option (list DataFile.t * Store.t) :=
  let db_dates := map Datum.date (Store.data session) in
  match files_to_process db_files disk with
  | Raise _ => None
  | Ok [] => Some (db_files, session)
  | Ok todo =>
      match merge_files todo db_files with
      | None => None
      | Some (todo, db_files) =>
          load_queue disk db_dates todo db_files session
      end
  end.

(** What a round may do to a row of table [files]: nothing, or set
    [processed]. *)
Definition same_columns (f f' : DataFile.t) : Prop :=
  f' = f \/ f' = DataFile.set_processed true f.

(** The Datums of the store dated [t] that came from the file with key
    [key]. *)
Definition rows_from (key : nat) (t : datetime) (session : Store.t)
  : list Datum.t :=
  filter (fun d => (Datum.date d =? t) &&
                   match Datum.file_id d with
                   | Some k => (k =? key)%nat
                   | None => false
                   end)
         (Store.data session).

(** Sample scans: a file first seen, then the same file grown. *)
Definition scan_first : list Found :=
  [mkFound "data/2019/a.dat" 100 (Some [sample_line 5])].

Definition scan_grown : list Found :=
  [mkFound "data/2019/a.dat" 200 (Some [sample_line 5; sample_line 10])].

(** Rows of table [files] for that file, as a cycle that saw it at 100
    bytes leaves it, and as it stands when that cycle stopped before the
    file was read. *)
Definition registered_a : DataFile.t :=
  DataFile.mk (Some 1%nat) "a.dat" "data/2019/a.dat" 100 true.

Definition pending_a : DataFile.t :=
  DataFile.mk (Some 1%nat) "a.dat" "data/2019/a.dat" 100 false.

(** * Properties *)

(** ** The error monad *)

Lemma bind_Ok {A B : Type} (c : result A) (k : A -> result B) (b : B) :
  bind c k = Ok b -> exists a, c = Ok a /\ k a = Ok b.
Proof.
  destruct c as [a|e]; simpl; intros H; [eauto | discriminate].
Qed.

Lemma bind_Raise_l {A B : Type} (c : result A) (k : A -> result B) :
  raises c -> raises (bind c k).
Proof.
  intros [e ->]. exists e. reflexivity.
Qed.

Lemma py_last_app {A : Type} (xs : list A) (a : A) :
  py_last (xs ++ [a]) = Ok a.
Proof.
  unfold py_last. rewrite rev_app_distr. reflexivity.
Qed.

Lemma py_last_nonempty {A : Type} (xs : list A) :
  xs <> [] -> exists a, py_last xs = Ok a.
Proof.
  intros H. destruct (exists_last H) as (xs' & a & ->).
  exists a. apply py_last_app.
Qed.

Lemma py_last_in {A : Type} (xs : list A) (a : A) :
  py_last xs = Ok a -> In a xs.
Proof.
  unfold py_last. intros H. apply in_rev.
  destruct (rev xs) as [|x l]; [discriminate|].
  inversion H; subst. left. reflexivity.
Qed.

(** ** Quantification: [calc_result] *)

Lemma find_ind_from_before (dates : list datetime) (cutoff : datetime) :
  forall start ind,
    CalEvent.find_ind_from start dates cutoff = Some ind ->
    start - 1 <= ind < start - 1 + Z.of_nat (length dates) /\
    (exists d, nth_error dates (Z.to_nat (ind + 1 - start)) = Some d
               /\ cutoff < d) /\
    (forall j d, (j < Z.to_nat (ind + 1 - start))%nat ->
                 nth_error dates j = Some d -> d <= cutoff).
Proof.
  induction dates as [|d0 rest IH]; intros start ind H; simpl in H.
  - discriminate.
  - destruct (cutoff <? d0) eqn:E.
    + inversion H; subst ind; clear H.
      replace (start - 1 + 1 - start) with 0 by lia. simpl.
      split; [lia|]. split.
      * exists d0. split; [reflexivity | lia].
      * intros j d Hj. lia.
    + apply IH in H. destruct H as (Hr & (d & Hd & Hlt) & Hbefore).
      assert (Hs : Z.to_nat (ind + 1 - start)
                   = S (Z.to_nat (ind + 1 - (start + 1)))) by lia.
      rewrite Hs. simpl length. split; [lia|]. split.
      * exists d. split; [exact Hd | exact Hlt].
      * intros j d' Hj Hnth. destruct j as [|j]; simpl in Hnth.
        -- inversion Hnth; subst. lia.
        -- apply (Hbefore j d'); [lia | exact Hnth].
Qed.

(** When [find_ind] gives a non-negative index, the date at that index is
    not after the cutoff: the slice starts one row too early. *)
Lemma find_ind_at_or_before_cutoff (dates : list datetime)
  (cutoff : datetime) (ind : Z) :
  CalEvent.find_ind dates cutoff = Some ind -> 0 <= ind ->
  exists d, nth_error dates (Z.to_nat ind) = Some d /\ d <= cutoff.
Proof.
  unfold CalEvent.find_ind. intros H Hpos.
  destruct (find_ind_from_before _ _ _ _ H) as (Hr & _ & Hbefore).
  destruct (nth_error dates (Z.to_nat ind)) as [d|] eqn:E.
  - exists d. split; [reflexivity|]. apply (Hbefore (Z.to_nat ind)); [lia | exact E].
  - apply nth_error_None in E. lia.
Qed.

(** When the first date is already after the cutoff, [find_ind] gives -1
    and the slice is the last measurement alone. *)
Lemma slice_from_minus_one {A : Type} (xs : list A) (a : A) :
  slice_from (xs ++ [a]) (-1) = [a].
Proof.
  unfold slice_from. rewrite length_app. simpl length.
  replace (-1 <? 0) with true by reflexivity.
  replace (Z.to_nat (Z.max 0 (Z.of_nat (length xs + 1) + -1)))
    with (length xs + 0)%nat by lia.
  rewrite skipn_app, Nat.add_0_r, skipn_all.
  replace (length xs - length xs)%nat with 0%nat by lia. reflexivity.
Qed.

Lemma first_after_cutoff_uses_last (self : CalEvent.t) (cpd : Compound)
  (back_period : Z) (d0 : Datum.t) (rest : list Datum.t) :
  CalEvent.data self = d0 :: rest ->
  CalEvent.date self - seconds back_period < Datum.date d0 ->
  exists v, CalEvent.data_to_use self cpd back_period = Some [v].
Proof.
  intros Hdata Hlt.
  unfold CalEvent.data_to_use, CalEvent.dates, CalEvent.find_ind.
  rewrite Hdata. simpl.
  assert (E : (CalEvent.date self - seconds back_period <? Datum.date d0) = true)
    by (apply Z.ltb_lt; exact Hlt).
  rewrite E. simpl.
  assert (Hne : CalEvent.values self cpd <> []).
  { unfold CalEvent.values. rewrite Hdata. destruct cpd; simpl; discriminate. }
  destruct (exists_last Hne) as (xs & v & Hv).
  exists v. rewrite Hv. f_equal. apply slice_from_minus_one.
Qed.

(** C10. Whenever the slice that [calc_result] selects for a compound holds
    exactly one measurement, [calc_result] raises [StatisticsError] (from
    the sample standard deviation): no result, set or unset, is stored. *)
Theorem calc_result_single_measurement_raises (sqrt : Q -> Q)
  (self : CalEvent.t) (compound : Compound) (back_period : Z) (xs : list Q) :
  CalEvent.data_to_use self compound back_period = Some xs ->
  length xs = 1%nat ->
  CalEvent.calc_result sqrt self compound back_period = Raise StatisticsError.
Proof.
  intros Hsel Hlen. unfold CalEvent.calc_result. rewrite Hsel.
  destruct xs as [|v [|w xs]]; try discriminate.
  reflexivity.
Qed.

Lemma calc_result_single_measurement_raises_witness :
  CalEvent.init [sample 1 100 2 (5 # 1)] low_std = Ok single_datum_event /\
  CalEvent.calc_result sample_sqrt single_datum_event CO 21
  = Raise StatisticsError.
Proof.
  split; [reflexivity|].
  apply (calc_result_single_measurement_raises sample_sqrt
           single_datum_event CO 21 [5 # 1]); reflexivity.
Defined.

(** The two cases named by C10: the first member's timestamp is already
    after the cutoff, in particular for an event with a single Datum and a
    positive window. *)
Lemma calc_result_first_after_cutoff_raises (sqrt : Q -> Q)
  (self : CalEvent.t) (cpd : Compound) (back_period : Z)
  (d0 : Datum.t) (rest : list Datum.t) :
  CalEvent.data self = d0 :: rest ->
  CalEvent.date self - seconds back_period < Datum.date d0 ->
  CalEvent.calc_result sqrt self cpd back_period = Raise StatisticsError.
Proof.
  intros Hdata Hlt.
  destruct (first_after_cutoff_uses_last self cpd back_period d0 rest Hdata Hlt)
    as (v & Hv).
  unfold CalEvent.calc_result. rewrite Hv. reflexivity.
Qed.

Lemma calc_result_single_datum_raises (sqrt : Q -> Q) (d : Datum.t)
  (standard : string) (cpd : Compound) (back_period : Z) (ev : CalEvent.t) :
  0 < back_period ->
  CalEvent.init [d] standard = Ok ev ->
  CalEvent.calc_result sqrt ev cpd back_period = Raise StatisticsError.
Proof.
  intros Hpos Hinit. inversion Hinit; subst ev; clear Hinit.
  apply (calc_result_first_after_cutoff_raises sqrt _ cpd back_period d []).
  - reflexivity.
  - simpl. unfold seconds. lia.
Qed.

(** When no date is after the cutoff the result is left unset and the call
    succeeds. *)
Lemma find_ind_from_none (dates : list datetime) (cutoff : datetime) :
  Forall (fun d => d <= cutoff) dates ->
  forall start, CalEvent.find_ind_from start dates cutoff = None.
Proof.
  induction 1 as [|d rest Hd _ IH]; intros start; simpl.
  - reflexivity.
  - replace (cutoff <? d) with false by (symmetry; apply Z.ltb_ge; exact Hd).
    apply IH.
Qed.

Lemma calc_result_unset_when_none_after_cutoff (sqrt : Q -> Q)
  (self : CalEvent.t) (cpd : Compound) (back_period : Z) :
  Forall (fun d => d <= CalEvent.date self - seconds back_period)
         (CalEvent.dates self) ->
  CalEvent.calc_result sqrt self cpd back_period
  = Ok (CalEvent.set_back_period back_period
          (CalEvent.set_result cpd empty_result self)).
Proof.
  intros H. unfold CalEvent.calc_result, CalEvent.data_to_use, CalEvent.find_ind.
  rewrite (find_ind_from_none _ _ H). reflexivity.
Qed.

(** C2, at a concrete event. The row measured at 70 seconds is not after
    the cutoff of 79 seconds, yet [calc_result] averages it: the mean over
    the slice is 35, where the rows after the cutoff alone (30, 40, 50)
    average 40. *)
Theorem calc_result_averages_row_before_cutoff :
  CalEvent.init window_rows low_std = Ok window_event /\
  CalEvent.date window_event - seconds 21 = seconds 79 /\
  CalEvent.data_to_use window_event CO 21
  = Some [20 # 1; 30 # 1; 40 # 1; 50 # 1]%Q /\
  (exists ev, CalEvent.calc_result sample_sqrt window_event CO 21 = Ok ev /\
              mean_of_result (CalEvent.co_result ev) = Some (35 # 1)%Q) /\
  option_map Qred
    (match mean [30 # 1; 40 # 1; 50 # 1]%Q with
     | Ok v => Some v
     | Raise _ => None
     end) = Some (40 # 1)%Q.
Proof.
  split; [reflexivity|]. split; [reflexivity|]. split; [reflexivity|].
  split; [|reflexivity].
  eexists. split; [vm_compute; reflexivity | reflexivity].
Qed.

(** ** Curve fit *)

Lemma py_div_zero (a b : Q) :
  (b == 0)%Q -> py_div a b = Raise ZeroDivisionError.
Proof.
  intros H. unfold py_div.
  replace (Qeq_bool b 0) with true; [reflexivity|].
  symmetry. apply Qeq_bool_iff. exact H.
Qed.

Lemma py_div_nonzero (a b : Q) :
  ~ (b == 0)%Q -> py_div a b = Ok (a / b)%Q.
Proof.
  intros H. unfold py_div.
  destruct (Qeq_bool b 0) eqn:E; [|reflexivity].
  apply Qeq_bool_iff in E. contradiction.
Qed.

Lemma calc_two_pt_curve_degenerate (low high : Point.t) :
  (Point.x low == Point.x high)%Q ->
  raises (calc_two_pt_curve low high) /\
  (forall yl yh, Point.y low = Some yl -> Point.y high = Some yh ->
                 calc_two_pt_curve low high = Raise ZeroDivisionError).
Proof.
  intros Hx.
  assert (Hz : (Point.x high - Point.x low == 0)%Q) by (rewrite Hx; ring).
  unfold calc_two_pt_curve. split.
  - destruct (Point.y high) as [yh|], (Point.y low) as [yl|]; simpl;
      try (exists TypeError; reflexivity).
    rewrite (py_div_zero _ _ Hz). exists ZeroDivisionError. reflexivity.
  - intros yl yh -> ->. simpl. rewrite (py_div_zero _ _ Hz). reflexivity.
Qed.

Lemma subcals_set_curve (cpd : Compound) (s i o : Q) (self : MasterCal.t) :
  MasterCal.subcals (MasterCal.set_curve cpd s i o self)
  = MasterCal.subcals self.
Proof. destruct cpd; reflexivity. Qed.

(** A round of [create_curve] raises what its computation raises, and
    [AttributeError] from the plot call when the computation succeeds. *)
Lemma create_curve_for_plot (registry : list (string * certified))
  (cpd : Compound) (self : MasterCal.t) :
  create_curve_for registry cpd self
  = match fit_curve_for registry cpd self with
    | Ok _ => Raise AttributeError
    | Raise e => Raise e
    end.
Proof.
  unfold create_curve_for.
  destruct (fit_curve_for registry cpd self); reflexivity.
Qed.

Lemma create_curve_for_raises (registry : list (string * certified))
  (cpd : Compound) (self : MasterCal.t) :
  raises (create_curve_for registry cpd self).
Proof.
  rewrite create_curve_for_plot.
  destruct (fit_curve_for registry cpd self) as [fit|e];
    eexists; reflexivity.
Qed.

Lemma create_curve_raises (registry : list (string * certified))
  (self : MasterCal.t) :
  raises (create_curve registry self).
Proof.
  unfold create_curve. apply bind_Raise_l. apply create_curve_for_raises.
Qed.

Lemma fit_curve_for_degenerate (registry : list (string * certified))
  (cpd : Compound) (lo hi : certified) :
  certified_of registry low_std = Ok lo ->
  certified_of registry high_std = Ok hi ->
  (lo cpd == hi cpd)%Q ->
  forall self, raises (fit_curve_for registry cpd self).
Proof.
  intros Hlo Hhi Heq self. unfold fit_curve_for.
  destruct (mean_of _ cpd) as [low_val|e]; [|exists e; reflexivity].
  destruct (mean_of _ cpd) as [high_val|e]; [|exists e; reflexivity].
  destruct (mean_of _ cpd) as [mid_val|e]; [|exists e; reflexivity].
  simpl. rewrite Hlo. simpl.
  destruct (certified_of registry mid_std) as [mi|e]; [|exists e; reflexivity].
  simpl. rewrite Hhi. simpl.
  apply bind_Raise_l.
  apply (calc_two_pt_curve_degenerate
           (Point.mk (lo cpd) low_val) (Point.mk (hi cpd) high_val)).
  exact Heq.
Qed.

(** C8. If the registry gives a compound the same certified concentration
    for the low and the high standard, the two-point fit of that compound
    raises ([ZeroDivisionError] when both measured means are present), and
    so does [create_curve] as a whole: no curve is produced. *)
Theorem create_curve_degenerate_raises (registry : list (string * certified))
  (cpd : Compound) (lo hi : certified) (self : MasterCal.t) :
  certified_of registry low_std = Ok lo ->
  certified_of registry high_std = Ok hi ->
  (lo cpd == hi cpd)%Q ->
  (forall yl yh,
      calc_two_pt_curve (Point.mk (lo cpd) (Some yl))
                        (Point.mk (hi cpd) (Some yh))
      = Raise ZeroDivisionError) /\
  raises (create_curve_for registry cpd self) /\
  raises (create_curve registry self).
Proof.
  intros Hlo Hhi Heq.
  assert (Hr : forall self, raises (create_curve_for registry cpd self)).
  { intros self'. rewrite create_curve_for_plot.
    destruct (fit_curve_for_degenerate registry cpd lo hi Hlo Hhi Heq self')
      as (e & ->).
    exists e. reflexivity. }
  split; [|split].
  - intros yl yh.
    destruct (calc_two_pt_curve_degenerate
                (Point.mk (lo cpd) (Some yl)) (Point.mk (hi cpd) (Some yh)) Heq)
      as [_ Hz].
    apply (Hz yl yh); reflexivity.
  - apply Hr.
  - unfold create_curve.
    destruct cpd.
    + apply bind_Raise_l, Hr.
    + destruct (create_curve_for registry CO self) as [s1|e];
        [|exists e; reflexivity].
      simpl. apply bind_Raise_l, Hr.
    + destruct (create_curve_for registry CO self) as [s1|e];
        [|exists e; reflexivity].
      simpl.
      destruct (create_curve_for registry CO2 s1) as [s2|e];
        [|exists e; reflexivity].
      simpl. apply Hr.
Qed.

Lemma create_curve_degenerate_raises_witness :
  (forall yl yh,
      calc_two_pt_curve (Point.mk (100 # 1) (Some yl))
                        (Point.mk (100 # 1) (Some yh))
      = Raise ZeroDivisionError) /\
  raises (create_curve_for degenerate_registry CO (MasterCal.init [])) /\
  raises (create_curve degenerate_registry (MasterCal.init [])).
Proof.
  apply (create_curve_degenerate_raises degenerate_registry CO
           (fun _ => 100 # 1)
           (fun cpd => match cpd with CO => 100 # 1 | _ => 200 # 1 end)
           (MasterCal.init [])); reflexivity.
Defined.

Section TwoPointFit.

Variable registry : list (string * certified).
Variables lo mi hi : certified.
Hypothesis registry_low : certified_of registry low_std = Ok lo.
Hypothesis registry_mid : certified_of registry mid_std = Ok mi.
Hypothesis registry_high : certified_of registry high_std = Ok hi.

(** The measured means of the three subcals, per compound. *)
Variables yl ym yh : Compound -> Q.

Lemma mean_of_has_mean (subcals : list CalEvent.t) (std : string)
  (ce : CalEvent.t) (v : Compound -> Q) (cpd : Compound) :
  find_cal_by_type subcals std = Some ce -> has_mean ce v ->
  mean_of (find_cal_by_type subcals std) cpd = Ok (Some (v cpd)).
Proof.
  intros -> H. destruct (H cpd) as (r & Hr & Hm).
  simpl. rewrite Hr, Hm. reflexivity.
Qed.

Lemma fit_curve_for_fit (cpd : Compound) (self : MasterCal.t)
  (el em eh : CalEvent.t) :
  find_cal_by_type (MasterCal.subcals self) low_std = Some el ->
  find_cal_by_type (MasterCal.subcals self) mid_std = Some em ->
  find_cal_by_type (MasterCal.subcals self) high_std = Some eh ->
  has_mean el yl -> has_mean em ym -> has_mean eh yh ->
  ~ (lo cpd == hi cpd)%Q ->
  let s := ((yh cpd - yl cpd) / (hi cpd - lo cpd))%Q in
  let i := (yl cpd - s * lo cpd)%Q in
  exists date,
    fit_curve_for registry cpd self
    = Ok (MasterCal.set_curve cpd s i (ym cpd - (s * mi cpd + i))%Q self,
          mkPlotArgs (Point.mk (lo cpd) (Some (yl cpd)))
                     (Point.mk (mi cpd) (Some (ym cpd)))
                     (Point.mk (hi cpd) (Some (yh cpd)))
                     (Curve.mk s i) (ym cpd - (s * mi cpd + i))%Q date).
Proof.
  intros Hl Hm Hh Ml Mm Mh Hne s i. unfold fit_curve_for.
  rewrite (mean_of_has_mean _ _ _ _ cpd Hl Ml),
          (mean_of_has_mean _ _ _ _ cpd Hh Mh),
          (mean_of_has_mean _ _ _ _ cpd Hm Mm).
  simpl. rewrite registry_low, registry_mid, registry_high. simpl.
  unfold calc_two_pt_curve. simpl.
  rewrite py_div_nonzero.
  - simpl. destruct (MasterCal.subcals self) as [|c cs]; [discriminate Hl|].
    eexists. reflexivity.
  - intros Hz. apply Hne.
    assert (E : (hi cpd == (hi cpd - lo cpd) + lo cpd)%Q) by ring.
    rewrite E, Hz. ring.
Qed.

Lemma fit_endpoints (cpd : Compound) :
  ~ (lo cpd == hi cpd)%Q ->
  let s := ((yh cpd - yl cpd) / (hi cpd - lo cpd))%Q in
  let i := (yl cpd - s * lo cpd)%Q in
  (s * lo cpd + i == yl cpd)%Q /\ (s * hi cpd + i == yh cpd)%Q.
Proof.
  intros Hne s i. subst s i. split.
  - ring.
  - field. intros Hz. apply Hne.
    assert (E : (hi cpd == (hi cpd - lo cpd) + lo cpd)%Q) by ring.
    rewrite E, Hz. ring.
Qed.

(** C6. With the three subcals present, their means set, and distinct low
    and high certified values, a round of [create_curve] computes and sets,
    for its compound, slope = (high mean - low mean) / (certified high -
    certified low), intercept = low mean - slope x certified low and
    offset = mid mean - (slope x certified mid + intercept), and the line
    passes through both end points; the round then calls [mastercal_plot]
    with that curve, and the call raises [AttributeError]. So
    [create_curve] raises in its first round: the values of the two other
    compounds are never set and the MasterCal is never stored. *)
Theorem create_curve_fits_then_raises (self : MasterCal.t)
  (el em eh : CalEvent.t) :
  find_cal_by_type (MasterCal.subcals self) low_std = Some el ->
  find_cal_by_type (MasterCal.subcals self) mid_std = Some em ->
  find_cal_by_type (MasterCal.subcals self) high_std = Some eh ->
  has_mean el yl -> has_mean em ym -> has_mean eh yh ->
  (forall cpd, ~ (lo cpd == hi cpd)%Q) ->
  (forall cpd,
      let s := ((yh cpd - yl cpd) / (hi cpd - lo cpd))%Q in
      let i := (yl cpd - s * lo cpd)%Q in
      exists fit,
        fit_curve_for registry cpd self = Ok fit /\
        MasterCal.slope (fst fit) cpd = Some s /\
        MasterCal.intercept (fst fit) cpd = Some i /\
        MasterCal.middle_offset (fst fit) cpd
        = Some (ym cpd - (s * mi cpd + i))%Q /\
        plot_curve (snd fit) = Curve.mk s i /\
        (s * lo cpd + i == yl cpd)%Q /\
        (s * hi cpd + i == yh cpd)%Q) /\
  (forall cpd, create_curve_for registry cpd self = Raise AttributeError) /\
  create_curve registry self = Raise AttributeError.
Proof.
  intros Hl Hm Hh Ml Mm Mh Hne.
  assert (Hfit : forall cpd, exists fit,
             fit_curve_for registry cpd self = Ok fit /\
             fst fit
             = MasterCal.set_curve cpd
                 ((yh cpd - yl cpd) / (hi cpd - lo cpd))%Q
                 (yl cpd - (yh cpd - yl cpd) / (hi cpd - lo cpd) * lo cpd)%Q
                 (ym cpd
                  - ((yh cpd - yl cpd) / (hi cpd - lo cpd) * mi cpd
                     + (yl cpd
                        - (yh cpd - yl cpd) / (hi cpd - lo cpd) * lo cpd)))%Q
                 self /\
             plot_curve (snd fit)
             = Curve.mk ((yh cpd - yl cpd) / (hi cpd - lo cpd))%Q
                 (yl cpd - (yh cpd - yl cpd) / (hi cpd - lo cpd) * lo cpd)%Q).
  { intros cpd.
    destruct (fit_curve_for_fit cpd self el em eh Hl Hm Hh Ml Mm Mh (Hne cpd))
      as (date & E).
    cbv zeta in E. eexists. split; [exact E|]. split; reflexivity. }
  split; [|split].
  - intros cpd s i. destruct (Hfit cpd) as (fit & E & Efit & Ecurve).
    destruct (fit_endpoints cpd (Hne cpd)) as [E1 E2]. cbv zeta in E1, E2.
    exists fit. split; [exact E|]. rewrite Efit.
    subst s i. destruct cpd;
      (split; [reflexivity|]); (split; [reflexivity|]);
      (split; [reflexivity|]); (split; [exact Ecurve|]); (split; assumption).
  - intros cpd. rewrite create_curve_for_plot.
    destruct (Hfit cpd) as (fit & -> & _). reflexivity.
  - unfold create_curve. rewrite create_curve_for_plot.
    destruct (Hfit CO) as (fit & -> & _). reflexivity.
Qed.

End TwoPointFit.

Lemma fit_event_has_mean (i : nat) (t : Z) (standard : string)
  (v : Compound -> Q) :
  has_mean (fit_event i t standard v) v.
Proof.
  intros cpd. destruct cpd; eexists; split; reflexivity.
Qed.

Lemma create_curve_fits_then_raises_witness :
  (exists fit,
      fit_curve_for standards CO fit_mastercal = Ok fit /\
      option_map Qred (MasterCal.slope (fst fit) CO) = Some (523 # 525)%Q) /\
  create_curve standards fit_mastercal = Raise AttributeError.
Proof.
  destruct (create_curve_fits_then_raises standards _ _ _
              eq_refl eq_refl eq_refl fit_low fit_mid fit_high fit_mastercal
              _ _ _ eq_refl eq_refl eq_refl
              (fit_event_has_mean _ _ _ _) (fit_event_has_mean _ _ _ _)
              (fit_event_has_mean _ _ _ _))
    as (Hvals & _ & Hrun).
  - intros cpd; destruct cpd; discriminate.
  - split; [|exact Hrun].
    destruct (Hvals CO) as (fit & Hfit & Hs & _).
    exists fit. split; [exact Hfit|]. rewrite Hs. reflexivity.
Defined.

(** ** Post-calibration flush filter *)

Lemma Forall2_map_same {A : Type} (R : A -> A -> Prop) (f : A -> A)
  (xs : list A) :
  (forall a, R a (f a)) -> Forall2 R xs (map f xs).
Proof.
  intros H. induction xs as [|a xs IH]; simpl; constructor; auto.
Qed.

(** C3, as the code has it. For an event whose end time is the time of its
    last Datum, the filter succeeds and touches only table [data]: every
    ambient row (valve position 1) dated after the end of the event and at
    most one minute after it gets status 999, which is not the good-data
    code 963; every row dated at or before the end, or more than one minute
    after it, is left as it was. *)
Theorem filter_postcal_data_marks_minute_after (cal : CalEvent.t)
  (session : Store.t) :
  py_last (map Datum.date (CalEvent.data cal)) = Ok (CalEvent.date cal) ->
  exists session',
    filter_postcal_data cal session = Ok session' /\
    Store.cals session' = Store.cals session /\
    Store.mastercals session' = Store.mastercals session /\
    Forall2
      (fun d d' =>
         ((Datum.mpv_position d == 1)%Q ->
          CalEvent.date cal < Datum.date d <= CalEvent.date cal + minutes 1 ->
          d' = Datum.set_instrument_status 999 d /\
          Datum.instrument_status d' <> good_data_status) /\
         (Datum.date d <= CalEvent.date cal \/
          CalEvent.date cal + minutes 1 < Datum.date d ->
          d' = d))
      (Store.data session) (Store.data session').
Proof.
  intros Hlast. unfold filter_postcal_data. rewrite Hlast. simpl.
  eexists. split; [reflexivity|]. simpl.
  split; [reflexivity|]. split; [reflexivity|].
  apply Forall2_map_same. intros d. split.
  - intros _ [H1 H2].
    replace (CalEvent.date cal <? Datum.date d) with true
      by (symmetry; apply Z.ltb_lt; exact H1).
    replace (Datum.date d <=? CalEvent.date cal + minutes 1) with true
      by (symmetry; apply Z.leb_le; exact H2).
    simpl. split; [reflexivity | discriminate].
  - intros [H|H].
    + replace (CalEvent.date cal <? Datum.date d) with false
        by (symmetry; apply Z.ltb_ge; exact H).
      reflexivity.
    + replace (Datum.date d <=? CalEvent.date cal + minutes 1) with false
        by (symmetry; apply Z.leb_gt; exact H).
      rewrite andb_false_r. reflexivity.
Qed.

Lemma filter_postcal_data_marks_minute_after_witness :
  exists session',
    filter_postcal_data flush_event flush_store = Ok session' /\
    map Datum.instrument_status (Store.data session')
    = [963; 963; 999; 999; 963].
Proof.
  destruct (filter_postcal_data_marks_minute_after flush_event flush_store
              eq_refl) as (session' & Hrun & _ & _ & _).
  exists session'. split; [exact Hrun|].
  vm_compute in Hrun. inversion Hrun. reflexivity.
Defined.

(** C3 as stated fails at the upper end of the window: the ambient row
    dated exactly one minute after the end of the event is not strictly
    inside the window, and is marked all the same. *)
Lemma filter_postcal_data_marks_row_at_one_minute :
  exists session',
    filter_postcal_data flush_event flush_store = Ok session' /\
    nth_error (Store.data flush_store) 3 = Some (sample 4 160 1 (1 # 1)) /\
    nth_error (Store.data session') 3
    = Some (Datum.set_instrument_status 999 (sample 4 160 1 (1 # 1))) /\
    (Datum.mpv_position (sample 4 160 1 (1 # 1)) == 1)%Q /\
    ~ (Datum.date (sample 4 160 1 (1 # 1))
       < CalEvent.date flush_event + minutes 1).
Proof.
  eexists. split; [reflexivity|].
  split; [reflexivity|]. split; [reflexivity|]. split; [reflexivity|].
  vm_compute. intros H; discriminate H.
Qed.

(** The filter has no condition on the valve position: a row of another
    standard inside the window is marked too. *)
Lemma filter_postcal_data_marks_other_valves :
  filter_postcal_data flush_event
    (Store.mk [sample 1 0 2 (1 # 1); sample 2 100 2 (1 # 1);
               sample 3 130 3 (1 # 1)] [flush_event] [])
  = Ok (Store.mk [sample 1 0 2 (1 # 1); sample 2 100 2 (1 # 1);
                  Datum.set_instrument_status 999 (sample 3 130 3 (1 # 1))]
                 [flush_event] []).
Proof. reflexivity. Qed.

(** ** Ingestion *)

(** C9, at a concrete file. A file holding two rows with the same timestamp,
    loaded into an empty store, or the same row met in two files of one
    round: both rows are accepted, since [db_dates] is read once before the
    files are loaded. *)
Theorem check_load_new_data_accepts_equal_timestamps :
  map Datum.date
    (Store.data
       (check_load_new_data [(1%nat, [sample_line 5; sample_line 5])]
          Store.empty))
  = [seconds 5; seconds 5] /\
  map (fun d => (Datum.date d, Datum.file_id d))
    (Store.data
       (check_load_new_data
          [(1%nat, [sample_line 5]); (2%nat, [sample_line 5])] Store.empty))
  = [(seconds 5, Some 1%nat); (seconds 5, Some 2%nat)].
Proof. split; reflexivity. Qed.

(** What the check does give: an accepted row never carries a timestamp
    that was in the store when the round began. *)
Lemma load_file_new_dates (db_dates : list datetime) (file_id : nat)
  (lines : list Line) :
  forall session d,
    In d (Store.data
            (fold_left
               (fun session line =>
                  if existsb (Z.eqb (EPOCH_TIME line)) db_dates then session
                  else add_datum file_id line session)
               lines session)) ->
    In d (Store.data session) \/ ~ In (Datum.date d) db_dates.
Proof.
  induction lines as [|line rest IH]; intros session d H; simpl in H.
  - left. exact H.
  - destruct (existsb (Z.eqb (EPOCH_TIME line)) db_dates) eqn:E.
    + apply IH. exact H.
    + apply IH in H. destruct H as [H|H]; [|right; exact H].
      unfold add_datum in H. simpl in H. apply in_app_or in H.
      destruct H as [H|[H|[]]]; [left; exact H|].
      right. subst d. simpl. intros Hin.
      assert (Hex : existsb (Z.eqb (EPOCH_TIME line)) db_dates = true).
      { apply existsb_exists. exists (EPOCH_TIME line).
        split; [exact Hin | apply Z.eqb_refl]. }
      congruence.
Qed.

Lemma check_load_new_data_skips_stored_dates
  (files : list (nat * list Line)) (session : Store.t) (d : Datum.t) :
  In d (Store.data (check_load_new_data files session)) ->
  In d (Store.data session) \/
  ~ In (Datum.date d) (map Datum.date (Store.data session)).
Proof.
  unfold check_load_new_data.
  generalize (map Datum.date (Store.data session)) as db_dates.
  intros db_dates. revert session.
  induction files as [|file rest IH]; intros session H; simpl in H.
  - left. exact H.
  - apply IH in H. destruct H as [H|H]; [|right; exact H].
    unfold load_file in H. apply load_file_new_dates in H. exact H.
Qed.

(** ** Matching *)

Lemma closest_spec (date : datetime) (rest : list datetime) :
  forall best,
    In (closest date best rest) (best :: rest) /\
    forall d, In d (best :: rest) ->
              Z.abs (closest date best rest - date) <= Z.abs (d - date).
Proof.
  induction rest as [|d0 rest IH]; intros best; simpl.
  - split; [left; reflexivity|]. intros d [<-|[]]. lia.
  - destruct (Z.abs (d0 - date) <? Z.abs (best - date)) eqn:E.
    + apply Z.ltb_lt in E. destruct (IH d0) as [Hin Hmin]. split.
      * right. exact Hin.
      * intros d [<-|Hd].
        -- specialize (Hmin d0 (or_introl eq_refl)). lia.
        -- apply Hmin. exact Hd.
    + apply Z.ltb_ge in E. destruct (IH best) as [Hin Hmin]. split.
      * destruct Hin as [Hin|Hin]; [left; exact Hin | right; right; exact Hin].
      * intros d [<-|[<-|Hd]].
        -- apply Hmin. left. reflexivity.
        -- specialize (Hmin best (or_introl eq_refl)). lia.
        -- apply Hmin. right. exact Hd.
Qed.

Lemma search_for_attr_value_found (cals : list CalEvent.t) (value : datetime) :
  In value (map CalEvent.date cals) ->
  exists c, search_for_attr_value cals value = Some c.
Proof.
  intros H. apply in_map_iff in H. destruct H as (c & Hc & Hin).
  unfold search_for_attr_value.
  destruct (find (fun c0 => CalEvent.date c0 =? value) cals) as [c'|] eqn:E.
  - exists c'. reflexivity.
  - apply (find_none _ _ E) in Hin. rewrite Hc, Z.eqb_refl in Hin.
    discriminate.
Qed.

Lemma search_for_attr_value_some (cals : list CalEvent.t) (value : datetime)
  (c : CalEvent.t) :
  search_for_attr_value cals value = Some c ->
  In c cals /\ CalEvent.date c = value.
Proof.
  unfold search_for_attr_value. intros H. apply find_some in H.
  destruct H as [Hin Hd]. split; [exact Hin | apply Z.eqb_eq; exact Hd].
Qed.

(** What [match_cals_by_min] computes: the distance of the closest date,
    and the outcome it decides. *)
Lemma match_cals_by_min_cases (cal : CalEvent.t) (cals : list CalEvent.t)
  (tol : Z) :
  cals <> [] ->
  exists dmin,
    (exists c0, In c0 cals /\ time_diff cal c0 = dmin) /\
    (forall c', In c' cals -> dmin <= time_diff cal c') /\
    ((dmin = 0 \/ minutes tol <= dmin) /\ match_cals_by_min cal cals tol = None
     \/
     (0 < dmin < minutes tol /\
      exists c, match_cals_by_min cal cals tol = Some c /\ In c cals /\
                time_diff cal c = dmin)).
Proof.
  intros Hne. destruct cals as [|c0 cs]; [contradiction|]. clear Hne.
  destruct (closest_spec (CalEvent.date cal) (map CalEvent.date cs)
              (CalEvent.date c0)) as [Hin Hmin].
  set (m := closest (CalEvent.date cal) (CalEvent.date c0)
              (map CalEvent.date cs)) in *.
  change (CalEvent.date c0 :: map CalEvent.date cs)
    with (map CalEvent.date (c0 :: cs)) in Hin, Hmin.
  exists (Z.abs (m - CalEvent.date cal)).
  destruct (search_for_attr_value_found _ _ Hin) as (c & Hc).
  destruct (search_for_attr_value_some _ _ _ Hc) as [Hcin Hcd].
  split; [|split].
  - exists c. split; [exact Hcin|]. unfold time_diff. rewrite Hcd. reflexivity.
  - intros c' Hc'. unfold time_diff. apply Hmin. apply in_map. exact Hc'.
  - unfold match_cals_by_min. simpl map. cbv iota beta.
    unfold find_closest_date. fold m. cbv iota beta.
    unfold truthy_timedelta.
    destruct (m - CalEvent.date cal =? 0) eqn:Ez; simpl negb; cbv iota.
    + apply Z.eqb_eq in Ez. left. split; [left; lia | reflexivity].
    + apply Z.eqb_neq in Ez.
      destruct (Z.abs (m - CalEvent.date cal) <? minutes tol) eqn:Et.
      * apply Z.ltb_lt in Et. right. split; [lia|].
        exists c. split; [exact Hc|]. split; [exact Hcin|].
        unfold time_diff. rewrite Hcd. reflexivity.
      * apply Z.ltb_ge in Et. left. split; [right; exact Et | reflexivity].
Qed.

Lemma match_cals_by_min_empty (cal : CalEvent.t) (tol : Z) :
  match_cals_by_min cal [] tol = None.
Proof. reflexivity. Qed.

Lemma match_cals_by_min_some (cal : CalEvent.t) (cals : list CalEvent.t)
  (tol : Z) (c : CalEvent.t) :
  match_cals_by_min cal cals tol = Some c ->
  nearest cal cals c /\ 0 < time_diff cal c < minutes tol.
Proof.
  intros H. destruct cals as [|c0 cs]; [discriminate H|].
  destruct (match_cals_by_min_cases cal (c0 :: cs) tol) as
    (dmin & _ & Hmin & [[_ Hnone]|[Hrange (c' & Hsome & Hin & Hd)]]);
    [discriminate | congruence |].
  rewrite H in Hsome. inversion Hsome; subst c'. unfold nearest.
  rewrite Hd. auto.
Qed.

Lemma match_cals_by_min_found (cal : CalEvent.t) (cals : list CalEvent.t)
  (tol : Z) (c : CalEvent.t) :
  nearest cal cals c -> 0 < time_diff cal c < minutes tol ->
  exists c', match_cals_by_min cal cals tol = Some c' /\
             time_diff cal c' = time_diff cal c.
Proof.
  intros [Hin Hmin] Hrange.
  destruct cals as [|c0 cs]; [contradiction|].
  destruct (match_cals_by_min_cases cal (c0 :: cs) tol) as
    (dmin & (c1 & Hc1 & Hd1) & Hlow & [[Hbad _]|[_ (c' & Hsome & _ & Hd)]]);
    [discriminate | |].
  - specialize (Hlow c Hin). specialize (Hmin c1 Hc1). lia.
  - exists c'. split; [exact Hsome|].
    specialize (Hlow c Hin). specialize (Hmin c1 Hc1). lia.
Qed.

Lemma match_cals_by_min_far (cal : CalEvent.t) (cals : list CalEvent.t)
  (tol : Z) (c : CalEvent.t) :
  nearest cal cals c -> minutes tol <= time_diff cal c ->
  match_cals_by_min cal cals tol = None.
Proof.
  intros [Hin Hmin] Hfar.
  destruct cals as [|c0 cs]; [contradiction|].
  destruct (match_cals_by_min_cases cal (c0 :: cs) tol) as
    (dmin & (c1 & Hc1 & Hd1) & Hlow & [[_ Hnone]|[Hrange _]]);
    [discriminate | exact Hnone |].
  specialize (Hmin c1 Hc1). lia.
Qed.

(** The MasterCals built by the loop over the low events. *)
Lemma match_step_fold (highcals midcals : list CalEvent.t)
  (lowcals : list CalEvent.t) :
  forall acc mc,
    In mc (fold_left (match_step highcals midcals) lowcals acc) <->
    In mc acc \/
    exists l h m,
      In l lowcals /\
      match_cals_by_min l highcals 5 = Some h /\
      match_cals_by_min h midcals 5 = Some m /\
      mc = MasterCal.init [l; h; m].
Proof.
  induction lowcals as [|l0 rest IH]; intros acc mc; simpl.
  - split; [auto|]. intros [H|(l & h & m & [] & _)]. exact H.
  - rewrite IH. unfold match_step.
    destruct (match_cals_by_min l0 highcals 5) as [h0|] eqn:Eh.
    + destruct (match_cals_by_min h0 midcals 5) as [m0|] eqn:Em.
      * split.
        -- intros [H|(l & h & m & Hl & Hh & Hm & ->)].
           ++ apply in_app_or in H. destruct H as [H|[<-|[]]]; [auto|].
              right. exists l0, h0, m0. auto.
           ++ right. exists l, h, m. auto.
        -- intros [H|(l & h & m & [<-|Hl] & Hh & Hm & ->)].
           ++ left. apply in_or_app. auto.
           ++ left. apply in_or_app. right. left.
              rewrite Eh in Hh. inversion Hh; subst h.
              rewrite Em in Hm. inversion Hm; subst m. reflexivity.
           ++ right. exists l, h, m. auto.
      * split.
        -- intros [H|(l & h & m & Hl & Hh & Hm & ->)]; [auto|].
           right. exists l, h, m. auto.
        -- intros [H|(l & h & m & [<-|Hl] & Hh & Hm & ->)]; [auto| |].
           ++ rewrite Eh in Hh. inversion Hh; subst h. congruence.
           ++ right. exists l, h, m. auto.
    + split.
      * intros [H|(l & h & m & Hl & Hh & Hm & ->)]; [auto|].
        right. exists l, h, m. auto.
      * intros [H|(l & h & m & [<-|Hl] & Hh & Hm & ->)]; [auto| |].
        -- congruence.
        -- right. exists l, h, m. auto.
Qed.

Lemma match_mastercals_spec (lowcals highcals midcals : list CalEvent.t)
  (mc : MasterCal.t) :
  In mc (match_mastercals lowcals highcals midcals) <->
  exists l h m,
    In l lowcals /\
    match_cals_by_min l highcals 5 = Some h /\
    match_cals_by_min h midcals 5 = Some m /\
    mc = MasterCal.init [l; h; m].
Proof.
  unfold match_mastercals. rewrite match_step_fold. simpl. tauto.
Qed.

Lemma unlinked_spec (session : Store.t) (standard : string) (ce : CalEvent.t) :
  In ce (unlinked session standard) <->
  In ce (Store.cals session) /\ CalEvent.mastercal_id ce = None /\
  CalEvent.standard_used ce = standard.
Proof.
  unfold unlinked. rewrite filter_In, andb_true_iff, String.eqb_eq.
  destruct (CalEvent.mastercal_id ce); simpl; intuition congruence.
Qed.

(** C4, as the code has it. For a low event of the pool, the search in the
    high pool returns an event only if it is a nearest one and its distance
    is non-zero and less than 5 minutes; it does return one, equally near,
    whenever the nearest distance is non-zero and less than 5 minutes; it
    returns none when the pool is empty or the nearest distance is 5
    minutes or more. The same holds for the search from the found high
    event in the mid pool, and a MasterCal is built for the low event
    exactly when both searches return an event. *)
Theorem matcher_nearest_within_tolerance (session : Store.t)
  (lowcal : CalEvent.t) :
  let lowcals := unlinked session low_std in
  let highcals := unlinked session high_std in
  let midcals := unlinked session mid_std in
  In lowcal lowcals ->
  (forall h, match_cals_by_min lowcal highcals 5 = Some h ->
             nearest lowcal highcals h /\
             0 < time_diff lowcal h < minutes 5) /\
  (forall h, nearest lowcal highcals h ->
             0 < time_diff lowcal h < minutes 5 ->
             exists h', match_cals_by_min lowcal highcals 5 = Some h' /\
                        time_diff lowcal h' = time_diff lowcal h) /\
  (highcals = [] -> match_cals_by_min lowcal highcals 5 = None) /\
  (forall h, nearest lowcal highcals h -> minutes 5 <= time_diff lowcal h ->
             match_cals_by_min lowcal highcals 5 = None) /\
  (forall h,
      match_cals_by_min lowcal highcals 5 = Some h ->
      (forall m, match_cals_by_min h midcals 5 = Some m ->
                 nearest h midcals m /\ 0 < time_diff h m < minutes 5) /\
      (forall m, nearest h midcals m -> 0 < time_diff h m < minutes 5 ->
                 exists m', match_cals_by_min h midcals 5 = Some m' /\
                            time_diff h m' = time_diff h m) /\
      (midcals = [] -> match_cals_by_min h midcals 5 = None) /\
      (forall m, nearest h midcals m -> minutes 5 <= time_diff h m ->
                 match_cals_by_min h midcals 5 = None)) /\
  (forall h m,
      In (MasterCal.init [lowcal; h; m])
         (match_mastercals lowcals highcals midcals) <->
      match_cals_by_min lowcal highcals 5 = Some h /\
      match_cals_by_min h midcals 5 = Some m).
Proof.
  intros lowcals highcals midcals Hlow.
  split; [intros h; apply match_cals_by_min_some|].
  split; [intros h; apply match_cals_by_min_found|].
  split; [intros ->; reflexivity|].
  split; [intros h; apply match_cals_by_min_far|].
  split.
  - intros h _.
    split; [intros m; apply match_cals_by_min_some|].
    split; [intros m; apply match_cals_by_min_found|].
    split; [intros ->; reflexivity|].
    intros m; apply match_cals_by_min_far.
  - intros h m. rewrite match_mastercals_spec. split.
    + intros (l & h' & m' & _ & Hh & Hm & E).
      inversion E; subst. auto.
    + intros [Hh Hm]. exists lowcal, h, m. auto.
Qed.

Lemma matcher_nearest_within_tolerance_witness :
  match_cals_by_min shared_low_1 (unlinked shared_store high_std) 5
  = Some shared_high /\
  nearest shared_low_1 (unlinked shared_store high_std) shared_high /\
  In (MasterCal.init [shared_low_1; shared_high; shared_mid])
     (match_mastercals (unlinked shared_store low_std)
        (unlinked shared_store high_std) (unlinked shared_store mid_std)).
Proof.
  assert (Hin : In shared_low_1 (unlinked shared_store low_std))
    by (left; reflexivity).
  destruct (matcher_nearest_within_tolerance shared_store shared_low_1 Hin)
    as (Hsome & _ & _ & _ & _ & Hiff).
  split; [reflexivity|]. split.
  - apply (Hsome shared_high). reflexivity.
  - apply Hiff. split; reflexivity.
Defined.

(** C4 as stated fails at the tolerance itself: a high event ending exactly
    5 minutes after the low event is the nearest candidate and its distance
    does not exceed the tolerance, yet the low event is skipped. *)
Lemma match_cals_by_min_skips_at_five_minutes :
  let low := fit_event 1 0 low_std fit_low in
  let high := fit_event 2 300 high_std fit_high in
  nearest low [high] high /\
  time_diff low high = minutes 5 /\
  ~ (minutes 5 < time_diff low high) /\
  match_cals_by_min low [high] 5 = None /\
  match_mastercals [low] [high] [fit_event 3 400 mid_std fit_mid] = [].
Proof.
  cbv zeta. split; [|split; [|split; [|split]]].
  - split; [left; reflexivity|]. intros c' [<-|[]]. lia.
  - reflexivity.
  - vm_compute. intros H; discriminate H.
  - reflexivity.
  - reflexivity.
Qed.

(** An event of the pool that ends at the very instant of the given event
    is never returned: the zero difference is a false value. *)
Lemma match_cals_by_min_skips_equal_dates :
  match_cals_by_min (fit_event 1 50 low_std fit_low)
    [fit_event 2 50 high_std fit_high] 5 = None.
Proof. reflexivity. Qed.

(** C5, at a concrete store. Both low events have the same nearest high
    event, 100 and 200 seconds away, and that high event has the mid event
    100 seconds away. The pools are not updated inside the loop, so the
    search for the second low event returns the high event that the first
    MasterCal already holds, and from it the same mid event: the second
    MasterCal takes both out of the first, which is left with its low
    event alone. The computation of its curve then raises
    [AttributeError] for want of a high event, before any plot, and the
    round of [create_mastercals] raises and stores nothing. *)
Theorem create_mastercals_takes_high_and_mid_again :
  unlinked shared_store low_std = [shared_low_1; shared_low_2] /\
  unlinked shared_store high_std = [shared_high] /\
  unlinked shared_store mid_std = [shared_mid] /\
  match_cals_by_min shared_low_1 (unlinked shared_store high_std) 5
  = Some shared_high /\
  match_cals_by_min shared_low_2 (unlinked shared_store high_std) 5
  = Some shared_high /\
  match_cals_by_min shared_high (unlinked shared_store mid_std) 5
  = Some shared_mid /\
  loop_mastercals [shared_low_1] (unlinked shared_store high_std)
    (unlinked shared_store mid_std)
  = [MasterCal.init [shared_low_1; shared_high; shared_mid]] /\
  loop_mastercals (unlinked shared_store low_std)
    (unlinked shared_store high_std) (unlinked shared_store mid_std)
  = [ MasterCal.init [shared_low_1];
      MasterCal.init [shared_low_2; shared_high; shared_mid] ] /\
  fit_curve_for standards CO (MasterCal.init [shared_low_1])
  = Raise AttributeError /\
  create_mastercals shared_store = Raise AttributeError.
Proof. repeat split. Qed.

(** Across rounds an event is not taken again: once its [mastercal_id] is
    set it is in none of the three pools. *)
Lemma linked_event_not_in_pool (session : Store.t) (standard : string)
  (ce : CalEvent.t) (key : nat) :
  CalEvent.mastercal_id ce = Some key -> ~ In ce (unlinked session standard).
Proof.
  intros Hk Hin. apply unlinked_spec in Hin. destruct Hin as (_ & Hn & _).
  congruence.
Qed.

(** ** Quantified events *)

Lemma calc_result_keeps (sqrt : Q -> Q) (self ev : CalEvent.t)
  (cpd : Compound) (back_period : Z) :
  CalEvent.calc_result sqrt self cpd back_period = Ok ev ->
  CalEvent.standard_used ev = CalEvent.standard_used self /\
  CalEvent.data ev = CalEvent.data self /\
  CalEvent.date ev = CalEvent.date self /\
  CalEvent.mastercal_id ev = CalEvent.mastercal_id self.
Proof.
  unfold CalEvent.calc_result. intros H.
  apply bind_Ok in H. destruct H as (res & _ & H). inversion H.
  destruct cpd; simpl; auto.
Qed.

Lemma quantify_cases (sqrt : Q -> Q) (ev : CalEvent.t) (first : datetime) :
  py_first (CalEvent.dates ev) = Ok first ->
  (CalEvent.date ev - first < seconds 90 /\
   quantify sqrt ev = Ok (CalEvent.set_standard_used dump ev))
  \/
  (seconds 90 <= CalEvent.date ev - first /\
   forall ev', quantify sqrt ev = Ok ev' ->
               CalEvent.standard_used ev' = CalEvent.standard_used ev /\
               CalEvent.data ev' = CalEvent.data ev /\
               CalEvent.date ev' = CalEvent.date ev).
Proof.
  intros Hfirst. unfold quantify. rewrite Hfirst. cbn [bind].
  destruct (CalEvent.date ev - first <? seconds 90) eqn:E.
  - left. apply Z.ltb_lt in E. split; [exact E | reflexivity].
  - right. apply Z.ltb_ge in E. split; [exact E|].
    intros ev' H.
    apply bind_Ok in H. destruct H as (e1 & H1 & H).
    apply bind_Ok in H. destruct H as (e2 & H2 & H3).
    apply calc_result_keeps in H1, H2, H3.
    destruct H1 as (A1 & B1 & C1 & _), H2 as (A2 & B2 & C2 & _),
             H3 as (A3 & B3 & C3 & _).
    repeat split; congruence.
Qed.

Lemma init_fields (data : list Datum.t) (standard : string) (ev : CalEvent.t) :
  CalEvent.init data standard = Ok ev ->
  CalEvent.data ev = data /\ CalEvent.standard_used ev = standard /\
  py_last (map Datum.date data) = Ok (CalEvent.date ev) /\
  CalEvent.mastercal_id ev = None.
Proof.
  unfold CalEvent.init. intros H.
  apply bind_Ok in H. destruct H as (d & Hd & H). inversion H. simpl. auto.
Qed.

Lemma matched_subcals_from_pools (lowcals highcals midcals : list CalEvent.t)
  (mc : MasterCal.t) (ce : CalEvent.t) :
  In mc (match_mastercals lowcals highcals midcals) ->
  In ce (MasterCal.subcals mc) ->
  In ce lowcals \/ In ce highcals \/ In ce midcals.
Proof.
  intros Hmc Hce. apply match_mastercals_spec in Hmc.
  destruct Hmc as (l & h & m & Hl & Hh & Hm & ->).
  apply match_cals_by_min_some in Hh, Hm.
  destruct Hh as [[Hh _] _], Hm as [[Hm _] _].
  simpl in Hce. destruct Hce as [<-|[<-|[<-|[]]]]; auto.
Qed.

(** ** Segmentation *)

Lemma increasing_weaken (lo lo' : nat) (l : list nat) :
  (lo' <= lo)%nat -> increasing lo l -> increasing lo' l.
Proof.
  destruct l as [|i l]; simpl; [auto|]. intros H [H1 H2]. split; [lia|auto].
Qed.

Lemma increasing_above (l : list nat) :
  forall lo i, increasing lo l -> In i l -> (lo < i)%nat.
Proof.
  induction l as [|j l IH]; intros lo i Hinc Hin; [contradiction|].
  destruct Hinc as [H1 H2]. destruct Hin as [<-|Hin]; [exact H1|].
  specialize (IH j i H2 Hin). lia.
Qed.

Lemma find_cal_indices_from_spec (rest : list datetime) :
  forall pre prev,
    let dates := pre ++ prev :: rest in
    let k := S (length pre) in
    (forall i, In i (find_cal_indices_from k prev rest) <->
               (k <= i < length dates)%nat /\ seconds 60 < gap dates i) /\
    increasing (length pre) (find_cal_indices_from k prev rest).
Proof.
  induction rest as [|d rest IH]; intros pre prev dates k; subst dates k.
  - simpl. split; [|exact I]. intros i. rewrite length_app. simpl.
    split; [contradiction | lia].
  - specialize (IH (pre ++ [prev]) d). cbv zeta in IH.
    rewrite <- app_assoc in IH. simpl app in IH.
    rewrite length_app in IH. simpl length in IH.
    rewrite Nat.add_1_r in IH. destruct IH as [IHin IHinc].
    assert (Hgap : gap (pre ++ prev :: d :: rest) (S (length pre)) = d - prev).
    { unfold gap. replace (S (length pre) - 1)%nat with (length pre) by lia.
      rewrite nth_middle.
      replace (pre ++ prev :: d :: rest) with ((pre ++ [prev]) ++ d :: rest)
        by (rewrite <- app_assoc; reflexivity).
      replace (S (length pre)) with (length (pre ++ [prev]))
        by (rewrite length_app; simpl; lia).
      rewrite nth_middle. reflexivity. }
    assert (Hlen : (S (length pre) < length (pre ++ prev :: d :: rest))%nat)
      by (rewrite length_app; simpl; lia).
    cbn [find_cal_indices_from].
    destruct (seconds 60 <? d - prev) eqn:E.
    + apply Z.ltb_lt in E. split.
      * intros i. simpl. rewrite IHin. split.
        -- intros [<-|[H1 H2]]; [rewrite Hgap; split; [lia | exact E]|].
           split; [lia | exact H2].
        -- intros [H1 H2].
           destruct (Nat.eq_dec i (S (length pre))) as [->|Hne]; [auto|].
           right. split; [lia | exact H2].
      * simpl. split; [lia | exact IHinc].
    + apply Z.ltb_ge in E. split.
      * intros i. rewrite IHin. split.
        -- intros [H1 H2]. split; [lia | exact H2].
        -- intros [H1 H2].
           destruct (Nat.eq_dec i (S (length pre))) as [->|Hne].
           ++ rewrite Hgap in H2. lia.
           ++ split; [lia | exact H2].
      * apply (increasing_weaken (S (length pre))); [lia | exact IHinc].
Qed.

Lemma find_cal_indices_spec (dates : list datetime) :
  (forall i, In i (find_cal_indices dates) <-> is_break dates i) /\
  increasing 0 (find_cal_indices dates).
Proof.
  destruct dates as [|d0 rest]; simpl.
  - split; [|exact I]. intros i. unfold is_break. simpl.
    split; [contradiction | lia].
  - apply (find_cal_indices_from_spec rest [] d0).
Qed.

Lemma bounds_spec (indices : list nat) :
  forall prev a b,
    increasing prev indices ->
    (In (a, b) (bounds prev indices) <->
     (a = prev \/ In a indices) /\ In b indices /\ (a < b)%nat /\
     forall j, In j indices -> ~ (a < j < b)%nat).
Proof.
  induction indices as [|i rest IH]; intros prev a b Hinc; simpl.
  - tauto.
  - destruct Hinc as [Hlo Hinc]. rewrite (IH i a b Hinc). split.
    + intros [E|(Ha & Hb & Hab & Hno)].
      * inversion E; subst a b. repeat split; auto.
        intros j [<-|Hj]; [lia|].
        pose proof (increasing_above _ _ _ Hinc Hj). lia.
      * split; [destruct Ha as [->|Ha]; auto|].
        split; [auto|]. split; [exact Hab|].
        intros j [<-|Hj]; [|auto].
        destruct Ha as [->|Ha]; [lia|].
        pose proof (increasing_above _ _ _ Hinc Ha). lia.
    + intros (Ha & Hb & Hab & Hno).
      destruct Ha as [->|[<-|Ha]].
      * left. destruct Hb as [<-|Hb]; [reflexivity|].
        pose proof (increasing_above _ _ _ Hinc Hb).
        exfalso. apply (Hno i); [left; reflexivity | lia].
      * right. destruct Hb as [<-|Hb]; [lia|].
        repeat split; auto.
      * right. pose proof (increasing_above _ _ _ Hinc Ha).
        destruct Hb as [<-|Hb]; [lia|].
        repeat split; auto.
Qed.

Lemma bounds_cover (indices : list nat) :
  forall prev i,
    increasing prev indices ->
    (prev <= i < last indices 0)%nat ->
    exists a b, In (a, b) (bounds prev indices) /\ (a <= i < b)%nat.
Proof.
  induction indices as [|j rest IH]; intros prev i Hinc Hi.
  - simpl in Hi. lia.
  - destruct Hinc as [Hlo Hinc].
    destruct (Nat.lt_ge_cases i j) as [Hlt|Hge].
    + exists prev, j. split; [left; reflexivity | lia].
    + destruct rest as [|j' rest'].
      * simpl in Hi. lia.
      * destruct (IH j i Hinc) as (a & b & Hin & Hab).
        -- split; [exact Hge|]. exact (proj2 Hi).
        -- exists a, b. split; [right; exact Hin | exact Hab].
Qed.

Lemma slice_nth_error {A : Type} (xs : list A) (a b j : nat) :
  nth_error (slice xs a b) j
  = if (j <? b - a)%nat then nth_error xs (a + j) else None.
Proof.
  unfold slice. rewrite nth_error_firstn, nth_error_skipn. reflexivity.
Qed.

Lemma in_slice {A : Type} (xs : list A) (a b : nat) (x : A) :
  In x (slice xs a b) <->
  exists j, (a <= j < b)%nat /\ nth_error xs j = Some x.
Proof.
  rewrite In_iff_nth_error. split.
  - intros (n & Hn). rewrite slice_nth_error in Hn.
    destruct (n <? b - a)%nat eqn:E; [|discriminate].
    apply Nat.ltb_lt in E. exists (a + n)%nat. split; [lia | exact Hn].
  - intros (j & Hj & Hn). exists (j - a)%nat. rewrite slice_nth_error.
    replace (j - a <? b - a)%nat with true
      by (symmetry; apply Nat.ltb_lt; lia).
    replace (a + (j - a))%nat with j by lia. exact Hn.
Qed.

Lemma id_in_spec (ids : list nat) (i : nat) :
  id_in ids i = true <-> In i ids.
Proof.
  unfold id_in. rewrite existsb_exists. split.
  - intros (x & Hx & E). apply Nat.eqb_eq in E. subst. exact Hx.
  - intros H. exists i. split; [exact H | apply Nat.eqb_refl].
Qed.

Lemma query_ids_keys (session : Store.t) (ids : list nat) (x : nat) :
  In x (map Datum.id (query_ids session ids)) <->
  In x ids /\ In x (map Datum.id (Store.data session)).
Proof.
  unfold query_ids. rewrite !in_map_iff. split.
  - intros (d & Hd & Hin). apply filter_In in Hin. destruct Hin as [Hin Hf].
    apply id_in_spec in Hf. subst x. split; [exact Hf | exists d; auto].
  - intros (Hx & d & Hd & Hin). exists d. split; [exact Hd|].
    apply filter_In. split; [exact Hin|]. apply id_in_spec.
    rewrite Hd. exact Hx.
Qed.

Lemma init_ok (data : list Datum.t) (standard : string) :
  data <> [] -> exists ev, CalEvent.init data standard = Ok ev.
Proof.
  intros Hne. unfold CalEvent.init.
  destruct (py_last_nonempty (map Datum.date data)) as (d & Hd).
  - destruct data; [contradiction | discriminate].
  - rewrite Hd. simpl. eexists. reflexivity.
Qed.

Lemma query_slice_nonempty (session : Store.t) (ids : list nat) (a b : nat) :
  incl ids (map Datum.id (Store.data session)) ->
  (a < b <= length ids)%nat ->
  query_ids session (slice ids a b) <> [].
Proof.
  intros Hincl Hab Hnil.
  destruct (nth_error ids a) as [x|] eqn:E.
  - assert (Hin : In x (map Datum.id (query_ids session (slice ids a b)))).
    { apply query_ids_keys. split.
      - apply in_slice. exists a. split; [lia | exact E].
      - apply Hincl. apply (nth_error_In _ _ E). }
    rewrite Hnil in Hin. contradiction.
  - apply nth_error_None in E. lia.
Qed.

(** The loop builds one event per pair of [bounds], in order; the branch
    guarded by [num == len(indices)] is never taken, since [num] stays below
    [len(indices)]. *)
Lemma cal_events_loop_spec (session : Store.t) (ids : list nat)
  (standard : string) (n : nat) :
  incl ids (map Datum.id (Store.data session)) ->
  forall indices k prev acc,
    (k + length indices <= n)%nat ->
    increasing prev indices ->
    (forall i, In i indices -> (i <= length ids)%nat) ->
    exists evs,
      cal_events_loop session ids standard n
        (combine (seq k (length indices)) indices) prev acc
      = Ok (acc ++ evs) /\
      Forall2
        (fun ev b =>
           CalEvent.init (query_ids session (slice ids (fst b) (snd b)))
             standard = Ok ev)
        evs (bounds prev indices).
Proof.
  intros Hincl. induction indices as [|i rest IH]; intros k prev acc Hk Hinc Hlen.
  - exists []. simpl. rewrite app_nil_r. split; [reflexivity | constructor].
  - destruct Hinc as [Hlo Hinc]. simpl length in *. simpl seq. simpl combine.
    cbn [cal_events_loop].
    destruct (init_ok (query_ids session (slice ids prev i)) standard)
      as (ev & Hev).
    { apply query_slice_nonempty; [exact Hincl|].
      split; [exact Hlo | apply Hlen; left; reflexivity]. }
    rewrite Hev. cbn [bind].
    replace (k =? n)%nat with false by (symmetry; apply Nat.eqb_neq; lia).
    cbn [bind].
    destruct (IH (S k) i (acc ++ [ev])) as (evs & Hrun & Hall).
    + lia.
    + exact Hinc.
    + intros j Hj. apply Hlen. right. exact Hj.
    + exists (ev :: evs). split.
      * rewrite Hrun. rewrite <- app_assoc. reflexivity.
      * simpl. constructor; [exact Hev | exact Hall].
Qed.

Lemma insert_by_date_perm (r : nat * datetime) (rows : list (nat * datetime)) :
  Permutation (insert_by_date r rows) (r :: rows).
Proof.
  induction rows as [|r' rest IH]; simpl.
  - apply Permutation_refl.
  - destruct (snd r <=? snd r'); [apply Permutation_refl|].
    apply perm_trans with (r' :: r :: rest).
    + apply perm_skip. exact IH.
    + apply perm_swap.
Qed.

Lemma sort_values_perm (rows : list (nat * datetime)) :
  Permutation (sort_values rows) rows.
Proof.
  induction rows as [|r rest IH]; simpl.
  - apply Permutation_refl.
  - apply perm_trans with (r :: sort_values rest).
    + apply insert_by_date_perm.
    + apply perm_skip. exact IH.
Qed.

(** Selecting rows of a table keeps its keys distinct. *)
Lemma filter_keys_unique (keep : Datum.t -> bool) (table : list Datum.t) :
  NoDup (map Datum.id table) -> NoDup (map Datum.id (filter keep table)).
Proof.
  intros Hunique. induction table as [|row table IH]; simpl in *.
  - constructor.
  - apply NoDup_cons_iff in Hunique. destruct Hunique as [Hfresh Hrest].
    destruct (keep row); simpl; [|apply IH; exact Hrest].
    constructor; [|apply IH; exact Hrest].
    intros Hin. apply Hfresh. apply in_map_iff in Hin.
    destruct Hin as (other & Hkey & Hin). apply filter_In in Hin.
    rewrite <- Hkey. apply in_map. tauto.
Qed.

Lemma mpv_data_keys (session : Store.t) (MPV : Z) :
  NoDup (map Datum.id (Store.data session)) ->
  NoDup (map fst (sort_values (mpv_data session MPV))) /\
  incl (map fst (sort_values (mpv_data session MPV)))
       (map Datum.id (Store.data session)).
Proof.
  intros Hnd.
  pose proof (Permutation_map fst (sort_values_perm (mpv_data session MPV)))
    as Hperm.
  assert (Hkeys : map fst (mpv_data session MPV)
                  = map Datum.id
                      (filter (fun d => Qeq_bool (Datum.mpv_position d)
                                                 (inject_Z MPV)
                                        && is_none (Datum.cal_id d))
                              (Store.data session))).
  { unfold mpv_data. rewrite map_map. reflexivity. }
  split.
  - apply (Permutation_NoDup (Permutation_sym Hperm)).
    rewrite Hkeys. apply filter_keys_unique. exact Hnd.
  - intros x Hx. apply (Permutation_in _ Hperm) in Hx.
    rewrite Hkeys in Hx. apply in_map_iff in Hx.
    destruct Hx as (d & Hd & Hin). apply filter_In in Hin.
    rewrite <- Hd. apply in_map. tauto.
Qed.

Lemma Forall2_In_r {A B : Type} (R : A -> B -> Prop) (l1 : list A)
  (l2 : list B) (y : B) :
  Forall2 R l1 l2 -> In y l2 -> exists x, In x l1 /\ R x y.
Proof.
  induction 1 as [|x y' l1 l2 Hr _ IH]; intros Hin; [contradiction|].
  destruct Hin as [<-|Hin].
  - exists x. split; [left; reflexivity | exact Hr].
  - destruct (IH Hin) as (x' & Hx' & Hr'). exists x'. split; [right|]; auto.
Qed.

Lemma Forall2_In_l {A B : Type} (R : A -> B -> Prop) (l1 : list A)
  (l2 : list B) (x : A) :
  Forall2 R l1 l2 -> In x l1 -> exists y, In y l2 /\ R x y.
Proof.
  induction 1 as [|x' y l1 l2 Hr _ IH]; intros Hin; [contradiction|].
  destruct Hin as [<-|Hin].
  - exists y. split; [left; reflexivity | exact Hr].
  - destruct (IH Hin) as (y' & Hy' & Hr'). exists y'. split; [right|]; auto.
Qed.

Lemma event_rows (session : Store.t) (rows : list (nat * datetime))
  (standard : string) (a b : nat) (ev : CalEvent.t) :
  NoDup (map fst rows) ->
  incl (map fst rows) (map Datum.id (Store.data session)) ->
  (b <= length rows)%nat ->
  CalEvent.init (query_ids session (slice (map fst rows) a b)) standard
  = Ok ev ->
  forall i, holds_row ev rows i <-> (a <= i < b)%nat.
Proof.
  intros Hnd Hincl Hb Hinit i.
  destruct (init_fields _ _ _ Hinit) as (Hdata & _).
  unfold holds_row. rewrite Hdata. split.
  - intros (r & Hr & Hin). apply query_ids_keys in Hin.
    destruct Hin as [Hin _]. apply in_slice in Hin.
    destruct Hin as (j & Hj & Hnth).
    assert (Hi : nth_error (map fst rows) i = Some (fst r))
      by (apply map_nth_error; exact Hr).
    assert (E : i = j).
    { apply (proj1 (NoDup_nth_error _) Hnd).
      - apply nth_error_Some. rewrite Hi. discriminate.
      - rewrite Hi, Hnth. reflexivity. }
    subst j. exact Hj.
  - intros Hi. destruct (nth_error rows i) as [r|] eqn:E.
    + exists r. split; [reflexivity|].
      assert (Hn : nth_error (map fst rows) i = Some (fst r))
        by (apply map_nth_error; exact E).
      apply query_ids_keys. split.
      * apply in_slice. exists i. split; [exact Hi | exact Hn].
      * apply Hincl. apply (nth_error_In _ _ Hn).
    + apply nth_error_None in E. lia.
Qed.

Lemma last_in (l : list nat) (d : nat) : l <> [] -> In (last l d) l.
Proof.
  intros Hne. destruct (exists_last Hne) as (l' & a & ->).
  rewrite last_last. apply in_or_app. right. left. reflexivity.
Qed.

(** C1, as the code has it. Take the frame of one valve position: the rows
    of that position that are in no event yet, ordered by date; the keys of
    table [data] are distinct. The indices found are exactly the rows that
    come more than 60 seconds after the row before them. When there is
    none, the round builds no event for that standard. When there are some,
    the candidate events are built, every maximal run that is followed by
    such a break is the set of rows of one candidate event of that
    standard, and two consecutive rows before the last break are in one
    candidate event exactly when they are at most 60 seconds apart. *)
Theorem candidate_events_runs (session : Store.t) (MPV : Z)
  (standard : string) :
  NoDup (map Datum.id (Store.data session)) ->
  let rows := sort_values (mpv_data session MPV) in
  let dates := map snd rows in
  let breaks := find_cal_indices dates in
  (forall i, In i breaks <-> is_break dates i) /\
  (breaks = [] -> candidate_events session standard rows = Ok None) /\
  (breaks <> [] ->
   exists cal_events,
     candidate_events session standard rows = Ok (Some cal_events) /\
     (forall a b,
         run_to_break dates a b ->
         exists ev,
           In ev cal_events /\ CalEvent.standard_used ev = standard /\
           forall i, holds_row ev rows i <-> (a <= i < b)%nat) /\
     (forall i,
         (S i < last breaks 0)%nat ->
         ((exists ev, In ev cal_events /\ holds_row ev rows i /\
                      holds_row ev rows (S i)) <->
          gap dates (S i) <= seconds 60))).
Proof.
  intros Hkeys rows dates breaks.
  destruct (mpv_data_keys session MPV Hkeys) as [Hnd Hincl].
  fold rows in Hnd, Hincl.
  destruct (find_cal_indices_spec dates) as [Hbreak Hinc].
  fold breaks in Hbreak, Hinc.
  assert (Hlen : length dates = length rows) by (apply length_map).
  assert (Hidlen : length (map fst rows) = length rows) by (apply length_map).
  split; [exact Hbreak|]. split.
  - intros Hnone. unfold candidate_events. fold dates. fold breaks.
    rewrite Hnone. reflexivity.
  - intros Hsome.
    destruct (cal_events_loop_spec session (map fst rows) standard
                (length breaks) Hincl breaks 0%nat 0%nat [])
      as (evs & Hrun & Hall).
    + lia.
    + exact Hinc.
    + intros i Hi. apply Hbreak in Hi. destruct Hi as [Hi _]. lia.
    + assert (Hbound : forall a b, In (a, b) (bounds 0 breaks) ->
                                   (b <= length rows)%nat).
      { intros a b Hab. apply (bounds_spec _ _ _ _ Hinc) in Hab.
        destruct Hab as (_ & Hb & _). apply Hbreak in Hb.
        destruct Hb as [Hb _]. lia. }
      exists evs. split; [|split].
      * unfold candidate_events. fold dates. fold breaks.
        destruct breaks as [|b0 bs]; [contradiction|].
        simpl length at 1. cbn [Nat.eqb]. unfold enumerate.
        rewrite Hrun. reflexivity.
      * intros a b (Ha & Hb & Hab & Hno).
        assert (Hin : In (a, b) (bounds 0 breaks)).
        { apply (bounds_spec _ _ _ _ Hinc). split; [|split; [|split]].
          - destruct Ha as [->|Ha]; [left; reflexivity|].
            right. apply Hbreak. exact Ha.
          - apply Hbreak. exact Hb.
          - exact Hab.
          - intros j Hj Hjab. apply (Hno j Hjab). apply Hbreak. exact Hj. }
        destruct (Forall2_In_r _ _ _ _ Hall Hin) as (ev & Hev & Hinit).
        simpl in Hinit. exists ev. split; [exact Hev|]. split.
        -- destruct (init_fields _ _ _ Hinit) as (_ & Hs & _). exact Hs.
        -- apply (event_rows session rows standard a b ev Hnd Hincl);
             [apply (Hbound a b Hin) | exact Hinit].
      * intros i Hi.
        assert (Hlast : is_break dates (last breaks 0%nat))
          by (apply Hbreak, last_in, Hsome).
        split.
        -- intros (ev & Hev & Hi0 & Hi1).
           destruct (Forall2_In_l _ _ _ _ Hall Hev) as ([a b] & Hab & Hinit).
           simpl in Hinit.
           pose proof (event_rows session rows standard a b ev Hnd Hincl
                         (Hbound a b Hab) Hinit) as Hrows.
           apply Hrows in Hi0, Hi1.
           apply (bounds_spec _ _ _ _ Hinc) in Hab.
           destruct Hab as (_ & _ & _ & Hno).
           destruct (Z_le_gt_dec (gap dates (S i)) (seconds 60)) as [Hle|Hgt];
             [exact Hle|].
           exfalso. apply (Hno (S i)); [|lia].
           apply Hbreak. split; [|lia].
           destruct Hlast as [Hlast _]. lia.
        -- intros Hgap.
           destruct (bounds_cover breaks 0%nat i Hinc) as (a & b & Hab & Hi0);
             [lia|].
           assert (Hb : In b breaks).
           { apply (bounds_spec _ _ _ _ Hinc) in Hab. tauto. }
           assert (Hne : S i <> b).
           { intros <-. apply Hbreak in Hb. destruct Hb as [_ Hb]. lia. }
           destruct (Forall2_In_r _ _ _ _ Hall Hab) as (ev & Hev & Hinit).
           simpl in Hinit.
           pose proof (event_rows session rows standard a b ev Hnd Hincl
                         (Hbound a b Hab) Hinit) as Hrows.
           exists ev. split; [exact Hev|]. split; apply Hrows; lia.
Qed.

Lemma candidate_events_runs_witness :
  exists cal_events ev,
    candidate_events segment_store low_std
      (sort_values (mpv_data segment_store 2)) = Ok (Some cal_events) /\
    In ev cal_events /\
    forall i, holds_row ev (sort_values (mpv_data segment_store 2)) i <->
              (0 <= i < 3)%nat.
Proof.
  assert (Hkeys : NoDup (map Datum.id (Store.data segment_store))).
  { vm_compute. repeat (constructor; [simpl; intuition discriminate|]).
    constructor. }
  destruct (candidate_events_runs segment_store 2 low_std Hkeys)
    as (_ & _ & Hsome).
  destruct Hsome as (cal_events & Hrun & Hruns & _).
  { vm_compute. discriminate. }
  destruct (Hruns 0%nat 3%nat) as (ev & Hev & _ & Hrows).
  { split; [left; reflexivity|]. split; [|split; [lia|]].
    - split; [vm_compute; lia | vm_compute; reflexivity].
    - intros j Hj [_ Hgap].
      assert (Hc : j = 1%nat \/ j = 2%nat) by lia.
      destruct Hc as [-> | ->]; vm_compute in Hgap; discriminate Hgap. }
  exists cal_events, ev. split; [exact Hrun|]. split; [exact Hev | exact Hrows].
Defined.

(** C1 as stated fails when no gap exceeds 60 seconds: the three rows at 0,
    45 and 100 seconds are one maximal run, the only one, and the round
    builds no event for it and leaves the store as it was. *)
Lemma candidate_events_none_without_break :
  sort_values (mpv_data unbroken_store 2)
  = [(1%nat, seconds 0); (2%nat, seconds 45); (3%nat, seconds 100)] /\
  find_cal_indices [seconds 0; seconds 45; seconds 100] = [] /\
  candidate_events unbroken_store low_std
    (sort_values (mpv_data unbroken_store 2)) = Ok None /\
  find_cal_events sample_sqrt unbroken_store = Ok unbroken_store.
Proof. repeat split. Qed.

(** The example of the specification: rows at 0, 45 and 200 seconds. The
    first two are one candidate event; the loop ends without building an
    event for the row at 200 seconds. *)
Lemma candidate_events_rows_after_last_break :
  let session :=
    Store.mk [ sample 1 0 2 (1 # 1); sample 2 45 2 (1 # 1);
               sample 3 200 2 (1 # 1) ] [] [] in
  match candidate_events session low_std (sort_values (mpv_data session 2)) with
  | Ok (Some cal_events) =>
      map (fun ev => map Datum.id (CalEvent.data ev)) cal_events
  | _ => []
  end = [[1%nat; 2%nat]].
Proof. reflexivity. Qed.

(** ** Discard rule *)

Lemma cal_events_loop_built (session : Store.t) (ids : list nat)
  (standard : string) (n : nat) (todo : list (nat * nat)) :
  forall prev acc evs,
    cal_events_loop session ids standard n todo prev acc = Ok evs ->
    Forall (built_for standard) acc ->
    Forall (built_for standard) evs.
Proof.
  induction todo as [|[num ind] todo IH]; intros prev acc evs Hrun Hacc.
  - inversion Hrun; subst. exact Hacc.
  - cbn [cal_events_loop] in Hrun.
    apply bind_Ok in Hrun. destruct Hrun as (ev & Hev & Hrun).
    apply bind_Ok in Hrun. destruct Hrun as (acc' & Hacc' & Hrun).
    apply (IH _ _ _ Hrun).
    assert (H1 : Forall (built_for standard) (acc ++ [ev])).
    { apply Forall_app. split; [exact Hacc|].
      constructor; [|constructor]. eexists. exact Hev. }
    destruct (num =? n)%nat.
    + apply bind_Ok in Hacc'. destruct Hacc' as (ev2 & Hev2 & Hacc').
      inversion Hacc'; subst acc'. apply Forall_app. split; [exact H1|].
      constructor; [|constructor]. eexists. exact Hev2.
    + inversion Hacc'; subst acc'. exact H1.
Qed.

Lemma candidate_events_built (session : Store.t) (standard : string)
  (data : list (nat * datetime)) (evs : list CalEvent.t) :
  candidate_events session standard data = Ok (Some evs) ->
  Forall (built_for standard) evs.
Proof.
  unfold candidate_events.
  destruct (length (find_cal_indices (map snd data)) =? 0)%nat;
    [discriminate|].
  intros H. apply bind_Ok in H. destruct H as (evs' & Hrun & H).
  inversion H; subst evs'.
  apply (cal_events_loop_built _ _ _ _ _ _ _ _ Hrun). constructor.
Qed.

Lemma quantify_tagged (sqrt : Q -> Q) (standard : string)
  (ev q : CalEvent.t) :
  standard <> dump -> built_for standard ev ->
  quantify sqrt ev = Ok q -> tagged_by_span q.
Proof.
  intros Hstd (data & Hinit) Hq.
  destruct (init_fields _ _ _ Hinit) as (Hdata & Hsu & Hlast & _).
  assert (Hf : exists first, py_first (CalEvent.dates ev) = Ok first).
  { unfold quantify in Hq. apply bind_Ok in Hq.
    destruct Hq as (first & Hfirst & _). exists first. exact Hfirst. }
  destruct Hf as (first & Hfirst).
  assert (Hl : py_last (CalEvent.dates ev) = Ok (CalEvent.date ev))
    by (unfold CalEvent.dates; rewrite Hdata; exact Hlast).
  exists first.
  destruct (quantify_cases sqrt ev first Hfirst) as [[Hshort Hrun]|[Hlong Hrun]].
  - rewrite Hrun in Hq. inversion Hq; subst q.
    split; [exact Hfirst|]. split; [exact Hl|].
    split; [intros _; exact Hshort | intros _; reflexivity].
  - destruct (Hrun q Hq) as (Hs & Hd & Ht).
    unfold CalEvent.dates in *. rewrite Hd, Ht, Hs, Hsu.
    split; [exact Hfirst|]. split; [exact Hl|].
    split; [intros E; contradiction | intros Hshort; lia].
Qed.

Lemma tagged_by_span_set_id (key : option nat) (ev : CalEvent.t) :
  tagged_by_span ev -> tagged_by_span (CalEvent.set_id key ev).
Proof. intros H. exact H. Qed.

Lemma merge_events_tagged (sqrt : Q -> Q) (standard : string)
  (evs : list CalEvent.t) :
  standard <> dump ->
  forall session session',
    Forall (built_for standard) evs ->
    merge_events sqrt evs session = Ok session' ->
    exists new,
      Store.cals session' = Store.cals session ++ new /\
      Forall tagged_by_span new.
Proof.
  intros Hstd. induction evs as [|ev evs IH]; intros session session' Hb Hrun.
  - inversion Hrun; subst. exists []. rewrite app_nil_r.
    split; [reflexivity | constructor].
  - cbn [merge_events] in Hrun.
    apply bind_Ok in Hrun. destruct Hrun as (q & Hq & Hrun).
    inversion Hb as [|? ? Hev Hrest]; subst.
    destruct (IH _ _ Hrest Hrun) as (new & Hcals & Hnew).
    eexists. split.
    + rewrite Hcals. unfold merge_event. simpl. rewrite <- app_assoc.
      reflexivity.
    + constructor; [|exact Hnew].
      apply tagged_by_span_set_id.
      apply (quantify_tagged sqrt standard ev q Hstd Hev Hq).
Qed.

Lemma standard_data_standards (session : Store.t)
  (item : string * list (nat * datetime)) :
  In item (standard_data session) -> fst item <> dump.
Proof.
  unfold standard_data. intros H. apply in_flat_map in H.
  destruct H as (MPV & HMPV & H).
  destruct (length (mpv_data session MPV) =? 0)%nat; [contradiction|].
  destruct HMPV as [<-|[<-|[<-|[]]]]; simpl in H;
    destruct H as [<-|[]]; discriminate.
Qed.

Lemma process_standards_tagged (sqrt : Q -> Q)
  (items : list (string * list (nat * datetime))) :
  (forall item, In item items -> fst item <> dump) ->
  forall session session',
    process_standards sqrt items session = Ok session' ->
    exists new,
      Store.cals session' = Store.cals session ++ new /\
      Forall tagged_by_span new.
Proof.
  induction items as [|item items IH]; intros Hstd session session' Hrun.
  - inversion Hrun; subst. exists []. rewrite app_nil_r.
    split; [reflexivity | constructor].
  - cbn [process_standards] in Hrun.
    apply bind_Ok in Hrun. destruct Hrun as (mid & Hmid & Hrun).
    destruct (IH (fun it Hit => Hstd it (or_intror Hit)) _ _ Hrun)
      as (new2 & Hcals2 & Hnew2).
    unfold process_standard in Hmid.
    apply bind_Ok in Hmid. destruct Hmid as (found & Hfound & Hmid).
    destruct found as [evs|].
    + destruct (merge_events_tagged sqrt (fst item) evs
                  (Hstd item (or_introl eq_refl)) _ _
                  (candidate_events_built _ _ _ _ Hfound) Hmid)
        as (new1 & Hcals1 & Hnew1).
      exists (new1 ++ new2). split.
      * rewrite Hcals2, Hcals1, app_assoc. reflexivity.
      * apply Forall_app. split; assumption.
    + inversion Hmid; subst mid. exists new2. split; assumption.
Qed.

(** Every event that a round of [find_cal_events] adds to the store is
    tagged by its span. *)
Lemma find_cal_events_tagged (sqrt : Q -> Q) (session session' : Store.t) :
  find_cal_events sqrt session = Ok session' ->
  exists new,
    Store.cals session' = Store.cals session ++ new /\
    Forall tagged_by_span new.
Proof.
  apply process_standards_tagged. apply standard_data_standards.
Qed.

(** [create_curve] never returns: its first round ends in the plot call. *)
Lemma create_curve_never_returns (registry : list (string * certified))
  (self fitted : MasterCal.t) :
  create_curve registry self <> Ok fitted.
Proof.
  intros H. destruct (create_curve_raises registry self) as (e & E).
  congruence.
Qed.

Lemma add_mastercals_returns (mastercals : list MasterCal.t)
  (session session' : Store.t) :
  add_mastercals mastercals session = Ok session' ->
  mastercals = [] /\ session' = session.
Proof.
  destruct mastercals as [|mc rest]; simpl; intros H.
  - inversion H. split; reflexivity.
  - apply bind_Ok in H. destruct H as (fitted & Hfit & _).
    exfalso. exact (create_curve_never_returns _ _ _ Hfit).
Qed.

Lemma some_ids_spec (ids : list (option nat)) (i : nat) :
  In i (some_ids ids) <-> In (Some i) ids.
Proof.
  unfold some_ids. rewrite in_flat_map. split.
  - intros ([j|] & Hin & Hi); [|contradiction].
    destruct Hi as [<-|[]]. exact Hin.
  - intros H. exists (Some i). split; [exact H | left; reflexivity].
Qed.

Lemma same_key_same_row (cals : list CalEvent.t) (a b : CalEvent.t) :
  NoDup (map CalEvent.id cals) -> In a cals -> In b cals ->
  CalEvent.id a = CalEvent.id b -> a = b.
Proof.
  induction cals as [|c cals IH]; intros Hnd Ha Hb E; [contradiction|].
  simpl in Hnd. apply NoDup_cons_iff in Hnd. destruct Hnd as [Hfresh Hnd].
  destruct Ha as [<-|Ha], Hb as [<-|Hb].
  - reflexivity.
  - exfalso. apply Hfresh. rewrite E. apply in_map. exact Hb.
  - exfalso. apply Hfresh. rewrite <- E. apply in_map. exact Ha.
  - apply IH; assumption.
Qed.

Lemma release_subcals (standards : list CalEvent.t) (mc : MasterCal.t)
  (ce : CalEvent.t) :
  In ce (MasterCal.subcals (MasterCal.release standards mc)) ->
  In ce (MasterCal.subcals mc).
Proof.
  unfold MasterCal.release. simpl. intros H. apply filter_In in H.
  exact (proj1 H).
Qed.

(** The list that the loop holds runs along the list of the MasterCals as
    built: same length, and each MasterCal holds some of the events it was
    built from. *)
Lemma loop_step_built (highcals midcals lowcals : list CalEvent.t) :
  forall held built,
    Forall2 (fun mc mc0 => incl (MasterCal.subcals mc) (MasterCal.subcals mc0))
            held built ->
    Forall2 (fun mc mc0 => incl (MasterCal.subcals mc) (MasterCal.subcals mc0))
            (fold_left (loop_step highcals midcals) lowcals held)
            (fold_left (match_step highcals midcals) lowcals built).
Proof.
  induction lowcals as [|l rest IH]; intros held built H; simpl; [exact H|].
  apply IH. unfold loop_step, match_step.
  destruct (match_cals_by_min l highcals 5) as [h|]; [|exact H].
  destruct (match_cals_by_min h midcals 5) as [m|]; [|exact H].
  apply Forall2_app.
  - clear IH. induction H as [|mc mc0 held built Hin _ IHh]; simpl;
      constructor; [|exact IHh].
    intros ce Hce. apply Hin. apply (release_subcals _ _ _ Hce).
  - constructor; [|constructor]. intros ce Hce. exact Hce.
Qed.

Lemma loop_mastercals_built (lowcals highcals midcals : list CalEvent.t) :
  Forall2 (fun mc mc0 => incl (MasterCal.subcals mc) (MasterCal.subcals mc0))
          (loop_mastercals lowcals highcals midcals)
          (match_mastercals lowcals highcals midcals).
Proof. apply loop_step_built. constructor. Qed.

Lemma loop_subcals_from_pools (lowcals highcals midcals : list CalEvent.t)
  (mc : MasterCal.t) (ce : CalEvent.t) :
  In mc (loop_mastercals lowcals highcals midcals) ->
  In ce (MasterCal.subcals mc) ->
  In ce lowcals \/ In ce highcals \/ In ce midcals.
Proof.
  intros Hmc Hce.
  destruct (Forall2_In_l _ _ _ _
              (loop_mastercals_built lowcals highcals midcals) Hmc)
    as (mc0 & Hmc0 & Hincl).
  apply (matched_subcals_from_pools _ _ _ mc0 ce Hmc0). apply Hincl. exact Hce.
Qed.

(** An event tagged ['dump'] is in none of the pools, so no MasterCal of
    the loop of [create_mastercals] holds one. *)
Lemma dump_event_in_no_mastercal (session : Store.t) (mc : MasterCal.t)
  (ce : CalEvent.t) :
  In mc (loop_mastercals (unlinked session low_std)
           (unlinked session high_std) (unlinked session mid_std)) ->
  In ce (MasterCal.subcals mc) ->
  In ce (Store.cals session) /\ CalEvent.standard_used ce <> dump.
Proof.
  intros Hmc Hce.
  destruct (loop_subcals_from_pools _ _ _ _ _ Hmc Hce) as [H|[H|H]];
    apply unlinked_spec in H; destruct H as (Hin & _ & Hs);
    (split; [exact Hin | rewrite Hs; discriminate]).
Qed.

(** A round of [create_mastercals] that returns has matched no triple and
    leaves the store as it was. *)
Lemma create_mastercals_returns (session session' : Store.t) :
  create_mastercals session = Ok session' ->
  session' = session /\
  loop_mastercals (unlinked session low_std) (unlinked session high_std)
    (unlinked session mid_std) = [].
Proof.
  unfold create_mastercals.
  destruct (loop_mastercals _ _ _) as [|mc rest] eqn:E.
  - simpl. intros H. inversion H. split; reflexivity.
  - intros H. change (add_mastercals (mc :: rest) session = Ok session') in H.
    apply add_mastercals_returns in H. destruct H as [H _].
    discriminate H.
Qed.

Lemma between_earliest_latest (dates : list datetime) (d : datetime) :
  In d dates -> earliest dates <= d <= latest dates.
Proof.
  unfold earliest, latest. generalize (hd 0 dates) as d0.
  induction dates as [|d1 dates IH]; intros d0 Hin; [contradiction|].
  simpl. destruct Hin as [<-|Hin]; [lia|].
  specialize (IH d0 Hin). lia.
Qed.

(** The half of the discard rule that the code keeps whatever the order of
    the rows: an event whose Datums all lie within less than 90 seconds is
    tagged ['dump']. *)
Lemma quantify_dumps_short_span (sqrt : Q -> Q) (data : list Datum.t)
  (standard : string) (ev : CalEvent.t) :
  CalEvent.init data standard = Ok ev ->
  latest (map Datum.date data) - earliest (map Datum.date data) < seconds 90 ->
  quantify sqrt ev = Ok (CalEvent.set_standard_used dump ev).
Proof.
  intros Hinit Hspan.
  destruct (init_fields _ _ _ Hinit) as (Hdata & _ & Hlast & _).
  assert (Hl : In (CalEvent.date ev) (map Datum.date data))
    by (apply py_last_in; exact Hlast).
  destruct (map Datum.date data) as [|first ds] eqn:E; [contradiction|].
  assert (Hf : py_first (CalEvent.dates ev) = Ok first)
    by (unfold CalEvent.dates; rewrite Hdata, E; reflexivity).
  pose proof (between_earliest_latest (first :: ds) first
                (or_introl eq_refl)) as B1.
  pose proof (between_earliest_latest (first :: ds) _ Hl) as B2.
  destruct (quantify_cases sqrt ev first Hf) as [[_ Hq]|[Hlong _]];
    [exact Hq | lia].
Qed.

(** C7, at a concrete store. The rows at 0, 50 and 100 seconds are one run
    of 100 seconds, closed by the break before the row at 200 seconds. The
    event takes its rows from a query that does not order them: they come
    in the order of the table, here 100, 0, 50 seconds. [CalEvent] takes
    the last of them, 50 seconds, as its date, the loop finds it 50
    seconds before the first one, and the event is tagged ['dump'] without
    any result, although its span is 100 seconds. With the same rows stored
    in the order of their dates the event keeps its standard. *)
Theorem find_cal_events_dumps_run_stored_out_of_order :
  (exists session' ev,
      find_cal_events sample_sqrt unordered_store = Ok session' /\
      Store.cals session' = [ev] /\
      map Datum.id (CalEvent.data ev) = [1; 2; 3]%nat /\
      CalEvent.dates ev = [seconds 100; seconds 0; seconds 50] /\
      latest (CalEvent.dates ev) - earliest (CalEvent.dates ev)
      = seconds 100 /\
      CalEvent.date ev = seconds 50 /\
      CalEvent.standard_used ev = dump /\
      forall cpd, CalEvent.result_of ev cpd = None) /\
  (exists session' ev,
      find_cal_events sample_sqrt ordered_store = Ok session' /\
      Store.cals session' = [ev] /\
      CalEvent.dates ev = [seconds 0; seconds 50; seconds 100] /\
      CalEvent.standard_used ev = low_std).
Proof.
  split.
  - eexists. eexists. split; [vm_compute; reflexivity|].
    split; [reflexivity|]. repeat (split; [reflexivity|]).
    intros cpd. destruct cpd; reflexivity.
  - eexists. eexists. split; [vm_compute; reflexivity|].
    split; [reflexivity|]. split; reflexivity.
Qed.

(** * Further properties *)

(** ** Quantification inside [find_cal_events] *)

Lemma length_insert_sorted (x : Q) (xs : list Q) :
  length (insert_sorted x xs) = S (length xs).
Proof.
  induction xs as [|y ys IH]; simpl; [reflexivity|].
  destruct (Qle_bool x y); simpl; [reflexivity | rewrite IH; reflexivity].
Qed.

Lemma length_sorted (xs : list Q) : length (sorted xs) = length xs.
Proof.
  induction xs as [|x xs IH]; simpl; [reflexivity|].
  rewrite length_insert_sorted, IH. reflexivity.
Qed.

Lemma statistics_two (sqrt : Q -> Q) (xs : list Q) :
  (2 <= length xs)%nat ->
  exists m md sd,
    CalEvent.statistics sqrt xs = Ok (mkResult (Some m) (Some md) (Some sd)).
Proof.
  intros Hlen. unfold CalEvent.statistics.
  assert (Hmean : exists m, mean xs = Ok m).
  { destruct xs; [simpl in Hlen; lia | eexists; reflexivity]. }
  destruct Hmean as (m & ->). cbn [bind].
  assert (Hmedian : exists md, median xs = Ok md).
  { unfold median. rewrite length_sorted.
    destruct (length xs =? 0)%nat eqn:E; [apply Nat.eqb_eq in E; lia|].
    destruct (length xs mod 2 =? 1)%nat; eexists; reflexivity. }
  destruct Hmedian as (md & ->). cbn [bind].
  unfold stdev, variance.
  replace (length xs <? 2)%nat with false
    by (symmetry; apply Nat.ltb_ge; exact Hlen).
  cbn [bind]. eexists _, _, _. reflexivity.
Qed.

Lemma find_ind_from_some (dates : list datetime) (cutoff : datetime) :
  (exists d, In d dates /\ cutoff < d) ->
  forall start, exists ind,
    CalEvent.find_ind_from start dates cutoff = Some ind.
Proof.
  induction dates as [|d0 rest IH]; intros (d & Hin & Hlt) start.
  - contradiction.
  - simpl. destruct (cutoff <? d0) eqn:E; [eexists; reflexivity|].
    apply IH. destruct Hin as [<-|Hin].
    + apply Z.ltb_ge in E. lia.
    + exists d. split; assumption.
Qed.

Lemma py_first_of_last {A : Type} (xs : list A) (a : A) :
  py_last xs = Ok a -> exists b, py_first xs = Ok b.
Proof.
  intros H. apply py_last_in in H.
  destruct xs as [|b xs]; [contradiction|]. exists b. reflexivity.
Qed.

(** An event whose first Datum is not after the cutoff and whose date is
    that of its last Datum: the slice holds at least two measurements. *)
Lemma data_to_use_two (self : CalEvent.t) (cpd : Compound)
  (back_period : Z) (first : datetime) :
  py_first (CalEvent.dates self) = Ok first ->
  py_last (CalEvent.dates self) = Ok (CalEvent.date self) ->
  first <= CalEvent.date self - seconds back_period ->
  0 < back_period ->
  exists xs, CalEvent.data_to_use self cpd back_period = Some xs /\
             (2 <= length xs)%nat.
Proof.
  intros Hfirst Hlast Hle Hpos.
  set (cutoff := CalEvent.date self - seconds back_period) in *.
  destruct (find_ind_from_some (CalEvent.dates self) cutoff) with (start := 0)
    as (ind & Hind).
  { exists (CalEvent.date self). split; [apply py_last_in; exact Hlast|].
    subst cutoff. unfold seconds. lia. }
  destruct (find_ind_from_before _ _ _ _ Hind) as (Hrange & (d & Hd & Hlt) & _).
  assert (Hnonneg : 0 <= ind).
  { destruct (Z_lt_le_dec ind 0) as [Hneg|]; [|assumption].
    replace (Z.to_nat (ind + 1 - 0)) with 0%nat in Hd by lia.
    unfold py_first in Hfirst.
    destruct (CalEvent.dates self) as [|d0 ds]; [discriminate|].
    simpl in Hd. inversion Hd; subst. inversion Hfirst; subst. lia. }
  assert (Hvals : length (CalEvent.values self cpd)
                  = length (CalEvent.dates self)).
  { unfold CalEvent.values, CalEvent.dates.
    destruct cpd; rewrite !length_map; reflexivity. }
  exists (slice_from (CalEvent.values self cpd) ind). split.
  - unfold CalEvent.data_to_use. fold cutoff. unfold CalEvent.find_ind.
    rewrite Hind. reflexivity.
  - unfold slice_from.
    replace (ind <? 0) with false by (symmetry; apply Z.ltb_ge; lia).
    rewrite length_skipn, Hvals. lia.
Qed.

Lemma calc_result_two (sqrt : Q -> Q) (self : CalEvent.t) (cpd : Compound)
  (back_period : Z) (first : datetime) :
  py_first (CalEvent.dates self) = Ok first ->
  py_last (CalEvent.dates self) = Ok (CalEvent.date self) ->
  first <= CalEvent.date self - seconds back_period ->
  0 < back_period ->
  exists m md sd,
    CalEvent.calc_result sqrt self cpd back_period
    = Ok (CalEvent.set_back_period back_period
            (CalEvent.set_result cpd (mkResult (Some m) (Some md) (Some sd))
               self)).
Proof.
  intros Hfirst Hlast Hle Hpos.
  destruct (data_to_use_two self cpd back_period first Hfirst Hlast Hle Hpos)
    as (xs & Hxs & Hlen).
  destruct (statistics_two sqrt xs Hlen) as (m & md & sd & Hstat).
  exists m, md, sd. unfold CalEvent.calc_result. rewrite Hxs, Hstat.
  reflexivity.
Qed.

Lemma dates_set_result (cpd : Compound) (r : Result) (bp : Z)
  (self : CalEvent.t) :
  CalEvent.dates (CalEvent.set_back_period bp (CalEvent.set_result cpd r self))
  = CalEvent.dates self /\
  CalEvent.date (CalEvent.set_back_period bp (CalEvent.set_result cpd r self))
  = CalEvent.date self.
Proof. destruct cpd; split; reflexivity. Qed.

(** On Datums that carry their three measurements, the body of the loop
    over the candidate events returns. *)
Lemma quantify_ok (sqrt : Q -> Q) (ev : CalEvent.t) (first : datetime) :
  py_first (CalEvent.dates ev) = Ok first ->
  py_last (CalEvent.dates ev) = Ok (CalEvent.date ev) ->
  exists q,
    quantify sqrt ev = Ok q /\
    CalEvent.data q = CalEvent.data ev /\
    CalEvent.date q = CalEvent.date ev /\
    CalEvent.id q = CalEvent.id ev /\
    CalEvent.mastercal_id q = CalEvent.mastercal_id ev /\
    ((CalEvent.date ev - first < seconds 90 /\
      q = CalEvent.set_standard_used dump ev)
     \/
     (seconds 90 <= CalEvent.date ev - first /\
      CalEvent.standard_used q = CalEvent.standard_used ev /\
      fully_set q /\ CalEvent.back_period q = Some 21)).
Proof.
  intros Hfirst Hlast. unfold quantify. rewrite Hfirst. cbn [bind].
  destruct (CalEvent.date ev - first <? seconds 90) eqn:E.
  - apply Z.ltb_lt in E. eexists. split; [reflexivity|].
    repeat (split; [reflexivity|]). left. split; [exact E | reflexivity].
  - apply Z.ltb_ge in E.
    assert (Hcut : first <= CalEvent.date ev - seconds 21)
      by (unfold seconds in *; lia).
    destruct (calc_result_two sqrt ev CO 21 first Hfirst Hlast Hcut)
      as (m1 & md1 & sd1 & H1); [lia|].
    rewrite H1. cbn [bind].
    set (ev1 := CalEvent.set_back_period 21
                  (CalEvent.set_result CO _ ev)) in *.
    destruct (calc_result_two sqrt ev1 CO2 21 first) as (m2 & md2 & sd2 & H2);
      try assumption; [lia|].
    rewrite H2. cbn [bind].
    set (ev2 := CalEvent.set_back_period 21
                  (CalEvent.set_result CO2 _ ev1)) in *.
    destruct (calc_result_two sqrt ev2 CH4 21 first) as (m3 & md3 & sd3 & H3);
      try assumption; [lia|].
    rewrite H3. eexists. split; [reflexivity|].
    repeat (split; [reflexivity|]). right.
    split; [exact E|]. split; [reflexivity|]. split; [|reflexivity].
    intros cpd. destruct cpd; eexists _, _, _; reflexivity.
Qed.

(** X1. Whenever the quantification step of [find_cal_events] returns on
    an event built by [CalEvent(data, standard)], it has done one of two
    things. If the date of the event, the date of the last Datum of its
    list, is less than 90 seconds after the date of the first, the event
    is tagged ['dump'] and has no result. Otherwise the event keeps its
    standard, the three calls of [calc_result] have left a mean, a median
    and a standard deviation for each compound, and [back_period] is 21.
    The Datums of the event are the ones it was built from. *)
Theorem quantify_tags_or_sets_results (sqrt : Q -> Q) (data : list Datum.t)
  (standard : string) (ev : CalEvent.t) (first : datetime) (q : CalEvent.t) :
  CalEvent.init data standard = Ok ev ->
  py_first (map Datum.date data) = Ok first ->
  quantify sqrt ev = Ok q ->
  CalEvent.data q = data /\
  ((CalEvent.date ev - first < seconds 90 /\
    CalEvent.standard_used q = dump /\
    forall cpd, CalEvent.result_of q cpd = None)
   \/
   (seconds 90 <= CalEvent.date ev - first /\
    CalEvent.standard_used q = standard /\ fully_set q /\
    CalEvent.back_period q = Some 21)).
Proof.
  intros Hinit Hfirst Hq.
  destruct (init_fields _ _ _ Hinit) as (Hdata & Hsu & Hlast & _).
  assert (Hl : py_last (CalEvent.dates ev) = Ok (CalEvent.date ev))
    by (unfold CalEvent.dates; rewrite Hdata; exact Hlast).
  assert (Hf : py_first (CalEvent.dates ev) = Ok first)
    by (unfold CalEvent.dates; rewrite Hdata; exact Hfirst).
  destruct (quantify_ok sqrt ev first Hf Hl)
    as (q' & Hq' & Hd & _ & _ & _ & Hcases).
  assert (q' = q) by congruence. subst q'.
  split; [congruence|].
  destruct Hcases as [[Hshort ->]|(Hlong & Hs & Hset & Hbp)].
  - left. split; [exact Hshort|]. split; [reflexivity|].
    unfold CalEvent.init in Hinit. apply bind_Ok in Hinit.
    destruct Hinit as (d & _ & Hev). inversion Hev.
    intros cpd. destruct cpd; reflexivity.
  - right. split; [exact Hlong|]. split; [congruence|]. split; assumption.
Qed.

Lemma quantify_tags_or_sets_results_witness :
  exists q,
    quantify sample_sqrt window_event = Ok q /\
    CalEvent.standard_used q = low_std /\ fully_set q.
Proof.
  eexists. split; [vm_compute; reflexivity|].
  destruct (quantify_tags_or_sets_results sample_sqrt window_rows low_std
              window_event (seconds 0) _ eq_refl eq_refl eq_refl)
    as (_ & [(Hshort & _)|(_ & Hs & Hset & _)]).
  - exfalso. vm_compute in Hshort. discriminate Hshort.
  - split; assumption.
Defined.

(** ** Logging *)

Lemma format_field_cases (r : option Result) (field : Result -> option Q) :
  (format_field r field = Ok tt /\
   exists r0 v, r = Some r0 /\ field r0 = Some v)
  \/ format_field r field = Raise TypeError.
Proof.
  destruct r as [r0|]; [|right; reflexivity]. simpl.
  destruct (field r0) as [v|] eqn:E; [|right; reflexivity].
  left. split; [reflexivity|]. exists r0, v. split; [reflexivity | exact E].
Qed.

Lemma log_event_quantification_cases (event : CalEvent.t)
  (first : datetime) :
  py_first (CalEvent.dates event) = Ok first ->
  (log_event_quantification event = Ok tt /\ fully_set event)
  \/ log_event_quantification event = Raise TypeError.
Proof.
  intros Hfirst. unfold log_event_quantification, CalEvent.duration.
  rewrite Hfirst. cbn [bind].
  destruct (format_field_cases (CalEvent.co_result event) r_mean)
    as [[H1 (r1 & m1 & Er1 & Em1)]|H1]; rewrite H1;
    [|right; reflexivity].
  cbn [bind].
  destruct (format_field_cases (CalEvent.co2_result event) r_mean)
    as [[H2 (r2 & m2 & Er2 & Em2)]|H2]; rewrite H2;
    [|right; reflexivity].
  cbn [bind].
  destruct (format_field_cases (CalEvent.ch4_result event) r_mean)
    as [[H3 (r3 & m3 & Er3 & Em3)]|H3]; rewrite H3;
    [|right; reflexivity].
  cbn [bind]. rewrite Er1, Er2, Er3. cbn [format_field].
  destruct (r_median r1) as [md1|] eqn:Emd1; [|right; reflexivity].
  destruct (r_median r2) as [md2|] eqn:Emd2; [|right; reflexivity].
  destruct (r_median r3) as [md3|] eqn:Emd3; [|right; reflexivity].
  destruct (r_stdev r1) as [sd1|] eqn:Esd1; [|right; reflexivity].
  destruct (r_stdev r2) as [sd2|] eqn:Esd2; [|right; reflexivity].
  destruct (r_stdev r3) as [sd3|] eqn:Esd3; [|right; reflexivity].
  left. split; [reflexivity|].
  intros cpd. destruct cpd; simpl.
  - exists m1, md1, sd1. rewrite Er1. destruct r1; simpl in *. congruence.
  - exists m2, md2, sd2. rewrite Er2. destruct r2; simpl in *. congruence.
  - exists m3, md3, sd3. rewrite Er3. destruct r3; simpl in *. congruence.
Qed.

(** X2. [log_event_quantification] raises [TypeError] unless each of the
    three results of the event has its mean, median and standard deviation
    set (so it cannot log an event tagged ['dump'] by [find_cal_events], nor
    one with an unset result), and raises [IndexError] on an event without
    data. On every event that [find_cal_events] quantifies and does not tag
    ['dump'] it returns. *)
Theorem log_event_quantification_needs_results (sqrt : Q -> Q) :
  (forall event,
      CalEvent.data event = [] ->
      log_event_quantification event = Raise IndexError) /\
  (forall event,
      CalEvent.data event <> [] ->
      (log_event_quantification event = Ok tt <-> fully_set event) /\
      (~ fully_set event ->
       log_event_quantification event = Raise TypeError)) /\
  (forall data standard ev q,
      CalEvent.init data standard = Ok ev ->
      quantify sqrt ev = Ok q ->
      (CalEvent.standard_used q <> dump ->
       log_event_quantification q = Ok tt) /\
      (standard <> dump -> CalEvent.standard_used q = dump ->
       log_event_quantification q = Raise TypeError)).
Proof.
  split; [|split].
  - intros event Hnil. unfold log_event_quantification, CalEvent.duration,
      CalEvent.dates. rewrite Hnil. reflexivity.
  - intros event Hne.
    assert (Hfirst : exists first, py_first (CalEvent.dates event) = Ok first).
    { unfold CalEvent.dates. destruct (CalEvent.data event) as [|d ds];
        [contradiction | eexists; reflexivity]. }
    destruct Hfirst as (first & Hfirst).
    assert (Hset : fully_set event -> log_event_quantification event = Ok tt).
    { intros Hset. unfold log_event_quantification, CalEvent.duration.
      rewrite Hfirst.
      destruct (Hset CO) as (m1 & md1 & sd1 & E1),
               (Hset CO2) as (m2 & md2 & sd2 & E2),
               (Hset CH4) as (m3 & md3 & sd3 & E3).
      simpl in E1, E2, E3. rewrite E1, E2, E3. reflexivity. }
    destruct (log_event_quantification_cases event first Hfirst)
      as [[Hok Hfull]|Hraise].
    + split; [split; [intros _; exact Hfull | exact Hset]|].
      intros Hno. contradiction.
    + split; [split; [rewrite Hraise; discriminate | exact Hset]|].
      intros _. exact Hraise.
  - intros data standard ev q Hinit Hq.
    destruct (init_fields _ _ _ Hinit) as (Hdata & Hsu & Hlast & _).
    assert (Hl : py_last (CalEvent.dates ev) = Ok (CalEvent.date ev))
      by (unfold CalEvent.dates; rewrite Hdata; exact Hlast).
    destruct (py_first_of_last _ _ Hl) as (first & Hfirst).
    destruct (quantify_ok sqrt ev first Hfirst Hl)
      as (q' & Hq' & Hd & Hdt & _ & _ & Hcases).
    rewrite Hq in Hq'. inversion Hq'; subst q'. clear Hq'.
    assert (Hfq : py_first (CalEvent.dates q) = Ok first)
      by (unfold CalEvent.dates in *; rewrite Hd; exact Hfirst).
    destruct Hcases as [[Hshort ->]|(Hlong & Hs & Hset & _)].
    + split; [intros Hnd; exfalso; apply Hnd; reflexivity|].
      intros _ _.
      destruct (log_event_quantification_cases _ first Hfq)
        as [[_ Hfull]|Hraise]; [|exact Hraise].
      exfalso. destruct (Hfull CO) as (m & md & sd & E).
      unfold CalEvent.init in Hinit. apply bind_Ok in Hinit.
      destruct Hinit as (d & _ & Hev). inversion Hev; subst ev.
      discriminate E.
    + split.
      * intros _.
        destruct (log_event_quantification_cases q first Hfq)
          as [[Hok _]|Hraise]; [exact Hok|].
        exfalso.
        unfold log_event_quantification, CalEvent.duration in Hraise.
        rewrite Hfq in Hraise.
        destruct (Hset CO) as (m1 & md1 & sd1 & E1),
                 (Hset CO2) as (m2 & md2 & sd2 & E2),
                 (Hset CH4) as (m3 & md3 & sd3 & E3).
        simpl in E1, E2, E3. rewrite E1, E2, E3 in Hraise.
        discriminate Hraise.
      * intros Hstd Hdump. exfalso. apply Hstd. congruence.
Qed.

Lemma log_event_quantification_needs_results_witness :
  log_event_quantification short_event = Raise TypeError /\
  (exists q, quantify sample_sqrt window_event = Ok q /\
             log_event_quantification q = Ok tt).
Proof.
  destruct (log_event_quantification_needs_results sample_sqrt)
    as (_ & Hdata & Hrun).
  split.
  - destruct (Hdata short_event) as (_ & Hraise); [discriminate|].
    apply Hraise. intros Hset. destruct (Hset CO) as (m & md & sd & E).
    discriminate E.
  - eexists. split; [vm_compute; reflexivity|].
    apply (Hrun window_rows low_std window_event _ eq_refl eq_refl).
    discriminate.
Defined.

(** ** A round of [find_cal_events] *)

Lemma in_skipn {A : Type} (n : nat) (l : list A) (a : A) :
  In a (skipn n l) -> In a l.
Proof.
  intros H. rewrite <- (firstn_skipn n l). apply in_or_app. right. exact H.
Qed.

Lemma slice_within {A : Type} (l : list A) (lo hi : nat) (a : A) :
  In a (slice l lo hi) -> In a l.
Proof.
  intros H. apply in_slice in H. destruct H as (j & _ & Hj).
  apply (nth_error_In _ _ Hj).
Qed.

(** The events of the loop are built by the constructor from rows whose
    keys are among [ids]. *)
Lemma cal_events_loop_members (session : Store.t) (ids : list nat)
  (standard : string) (n : nat) (todo : list (nat * nat)) :
  forall prev acc evs,
    cal_events_loop session ids standard n todo prev acc = Ok evs ->
    Forall (fun ev => incl (map Datum.id (CalEvent.data ev)) ids) acc ->
    Forall (fun ev => incl (map Datum.id (CalEvent.data ev)) ids) evs.
Proof.
  induction todo as [|[num ind] todo IH]; intros prev acc evs Hrun Hacc.
  - inversion Hrun; subst. exact Hacc.
  - cbn [cal_events_loop] in Hrun.
    apply bind_Ok in Hrun. destruct Hrun as (ev & Hev & Hrun).
    apply bind_Ok in Hrun. destruct Hrun as (acc' & Hacc' & Hrun).
    apply (IH _ _ _ Hrun).
    assert (H1 : Forall (fun ev => incl (map Datum.id (CalEvent.data ev)) ids)
                   (acc ++ [ev])).
    { apply Forall_app. split; [exact Hacc|].
      constructor; [|constructor].
      destruct (init_fields _ _ _ Hev) as (-> & _).
      intros x Hx. apply query_ids_keys in Hx.
      apply (slice_within ids prev ind). tauto. }
    destruct (num =? n)%nat.
    + apply bind_Ok in Hacc'. destruct Hacc' as (ev2 & Hev2 & Hacc').
      inversion Hacc'; subst acc'. apply Forall_app. split; [exact H1|].
      constructor; [|constructor].
      destruct (init_fields _ _ _ Hev2) as (-> & _).
      intros x Hx. apply query_ids_keys in Hx.
      apply (in_skipn ind). tauto.
    + inversion Hacc'; subst acc'. exact H1.
Qed.

(** Building the candidate events of a frame whose keys are in the store
    never raises. *)
Lemma candidate_events_ok (session : Store.t) (standard : string)
  (rows : list (nat * datetime)) :
  incl (map fst rows) (map Datum.id (Store.data session)) ->
  exists found,
    candidate_events session standard rows = Ok found /\
    forall evs, found = Some evs ->
      Forall (built_for standard) evs /\
      Forall (fun ev => incl (map Datum.id (CalEvent.data ev)) (map fst rows))
             evs.
Proof.
  intros Hincl.
  destruct (find_cal_indices_spec (map snd rows)) as [Hbreak Hinc].
  unfold candidate_events.
  destruct (length (find_cal_indices (map snd rows)) =? 0)%nat eqn:E.
  - exists None. split; [reflexivity|]. intros evs H. discriminate H.
  - destruct (cal_events_loop_spec session (map fst rows) standard
                (length (find_cal_indices (map snd rows))) Hincl
                (find_cal_indices (map snd rows)) 0%nat 0%nat [])
      as (evs & Hrun & _).
    + lia.
    + exact Hinc.
    + intros i Hi. apply Hbreak in Hi. destruct Hi as [Hi _].
      rewrite !length_map in *. lia.
    + exists (Some evs). unfold enumerate. rewrite Hrun. split; [reflexivity|].
      intros evs' H. inversion H; subst evs'. split.
      * apply (cal_events_loop_built _ _ _ _ _ _ _ _ Hrun). constructor.
      * apply (cal_events_loop_members _ _ _ _ _ _ _ _ Hrun). constructor.
Qed.

Lemma relinked_refl (ids : list nat) (d : Datum.t) : relinked ids d d.
Proof. split; [destruct d; reflexivity | reflexivity]. Qed.

Lemma relinked_chain (ids1 ids2 : list nat) (d d' d'' : Datum.t) :
  relinked ids1 d d' -> relinked ids2 d' d'' ->
  relinked (ids1 ++ ids2) d d''.
Proof.
  intros [E1 U1] [E2 U2]. split.
  - rewrite E2, E1. destruct d; reflexivity.
  - intros Hnot.
    assert (H1 : d' = d) by (apply U1; intros H; apply Hnot, in_or_app; auto).
    subst d'. apply U2. intros H. apply Hnot, in_or_app. auto.
Qed.

Lemma relinked_rows_chain (ids1 ids2 : list nat) (l1 : list Datum.t) :
  forall l2 l3,
    Forall2 (relinked ids1) l1 l2 -> Forall2 (relinked ids2) l2 l3 ->
    Forall2 (relinked (ids1 ++ ids2)) l1 l3.
Proof.
  induction l1 as [|d l1 IH]; intros l2 l3 H12 H23.
  - inversion H12; subst. inversion H23; subst. constructor.
  - inversion H12 as [|? d' ? l2' Hd H12']; subst.
    inversion H23 as [|? d'' ? l3' Hd' H23']; subst.
    constructor; [apply (relinked_chain _ _ _ _ _ Hd Hd') | apply (IH _ _ H12' H23')].
Qed.

Lemma relinked_rows_keys (ids : list nat) (l1 l2 : list Datum.t) :
  Forall2 (relinked ids) l1 l2 -> map Datum.id l2 = map Datum.id l1.
Proof.
  induction 1 as [|d d' l1 l2 [E _] _ IH]; simpl; [reflexivity|].
  rewrite IH. f_equal. rewrite E. reflexivity.
Qed.

Lemma relinked_rows_weaken (ids ids' : list nat) (l1 l2 : list Datum.t) :
  incl ids ids' -> Forall2 (relinked ids) l1 l2 ->
  Forall2 (relinked ids') l1 l2.
Proof.
  intros Hincl. induction 1 as [|d d' l1 l2 [E U] _ IH]; constructor; [|exact IH].
  split; [exact E|]. intros Hnot. apply U. intros H. apply Hnot, Hincl, H.
Qed.

Lemma relinked_rows_refl (ids : list nat) (l : list Datum.t) :
  Forall2 (relinked ids) l l.
Proof.
  induction l; constructor; [apply relinked_refl | assumption].
Qed.

Lemma keys_with_fresh (keys : list (option nat)) (key : option nat) :
  NoDup keys -> ~ In key keys -> NoDup (keys ++ [key]).
Proof.
  induction keys as [|k keys IH]; simpl; intros Hnd Hfresh.
  - constructor; [intros [] | constructor].
  - apply NoDup_cons_iff in Hnd. destruct Hnd as [Hk Hnd].
    constructor.
    + intros Hin. apply in_app_or in Hin.
      destruct Hin as [Hin|[Hin|[]]]; [contradiction|].
      apply Hfresh. left. symmetry. exact Hin.
    + apply IH; [exact Hnd|]. intros Hin. apply Hfresh. right. exact Hin.
Qed.

(** [session.merge(ev)] changes table [data] in column [cal_id] only, and
    only for the rows of the event. *)
Lemma merge_event_rows (ev : CalEvent.t) (session : Store.t) :
  Forall2 (relinked (map Datum.id (CalEvent.data ev)))
          (Store.data session) (Store.data (merge_event ev session)).
Proof.
  unfold merge_event. simpl. apply Forall2_map_same. intros d.
  destruct (id_in (map Datum.id (CalEvent.data ev)) (Datum.id d)) eqn:E.
  - split; [reflexivity|]. intros Hnot. exfalso. apply Hnot.
    apply id_in_spec. exact E.
  - apply relinked_refl.
Qed.

Lemma next_id_above (used : list nat) (i : nat) :
  In i used -> (i < next_id used)%nat.
Proof.
  unfold next_id. induction used as [|j used IH]; intros H; [contradiction|].
  simpl. destruct H as [<-|H]; [lia|]. specialize (IH H). lia.
Qed.

Lemma next_id_fresh (ids : list (option nat)) :
  ~ In (Some (next_id (some_ids ids))) ids.
Proof.
  intros H. apply some_ids_spec in H. apply next_id_above in H. lia.
Qed.

(** Quantifying and merging the candidate events of one standard. *)
Lemma merge_events_ok (sqrt : Q -> Q) (standard : string) (ids : list nat)
  (evs : list CalEvent.t) :
  forall session,
    Forall (built_for standard) evs ->
    Forall (fun ev => incl (map Datum.id (CalEvent.data ev)) ids) evs ->
    exists session' new,
      merge_events sqrt evs session = Ok session' /\
      Store.mastercals session' = Store.mastercals session /\
      Store.cals session' = Store.cals session ++ new /\
      Forall (stored_event standard) new /\
      (NoDup (map CalEvent.id (Store.cals session)) ->
       NoDup (map CalEvent.id (Store.cals session'))) /\
      Forall2 (relinked ids) (Store.data session) (Store.data session').
Proof.
  induction evs as [|ev evs IH]; intros session Hb Hm.
  - exists session, []. split; [reflexivity|]. split; [reflexivity|].
    split; [rewrite app_nil_r; reflexivity|]. split; [constructor|].
    split; [auto|]. apply relinked_rows_refl.
  - inversion Hb as [|? ? (data & Hinit) Hb']; subst.
    inversion Hm as [|? ? Hev Hm']; subst.
    destruct (init_fields _ _ _ Hinit) as (Hdata & Hsu & Hlast & Hmc).
    assert (Hl : py_last (CalEvent.dates ev) = Ok (CalEvent.date ev))
      by (unfold CalEvent.dates; rewrite Hdata; exact Hlast).
    destruct (py_first_of_last _ _ Hl) as (first & Hfirst).
    destruct (quantify_ok sqrt ev first Hfirst Hl)
      as (q & Hq & Hqd & _ & _ & Hqmc & Hcases).
    destruct (IH (merge_event q session) Hb' Hm')
      as (session' & new & Hrun & Hmcs & Hcals & Hnew & Hkeys & Hrows).
    exists session',
      (CalEvent.set_id
         (Some (next_id (some_ids (map CalEvent.id (Store.cals session))))) q
       :: new).
    split; [cbn [merge_events]; rewrite Hq; exact Hrun|].
    split; [rewrite Hmcs; reflexivity|].
    split; [rewrite Hcals; unfold merge_event; simpl;
            rewrite <- app_assoc; reflexivity|].
    split; [|split].
    + constructor; [|exact Hnew].
      split; [eexists; reflexivity|].
      split; [simpl; congruence|].
      destruct Hcases as [[_ ->]|(_ & Hs & Hset & _)].
      * left. split; [reflexivity|].
        unfold CalEvent.init in Hinit. apply bind_Ok in Hinit.
        destruct Hinit as (d & _ & E). inversion E.
        intros cpd. destruct cpd; reflexivity.
      * right. split; [simpl; congruence|].
        intros cpd. destruct (Hset cpd) as (m & md & sd & E).
        exists m, md, sd. destruct cpd; exact E.
    + intros Hnd. apply Hkeys. unfold merge_event. simpl.
      rewrite map_app. simpl. apply keys_with_fresh; [exact Hnd|].
      apply next_id_fresh.
    + apply (relinked_rows_weaken (map Datum.id (CalEvent.data q) ++ ids)).
      * intros x Hx. apply in_app_or in Hx. destruct Hx as [Hx|Hx]; [|exact Hx].
        apply Hev. rewrite <- Hqd. exact Hx.
      * apply (relinked_rows_chain _ _ _ _ _ (merge_event_rows q session) Hrows).
Qed.

Lemma frame_row (session : Store.t) (MPV : Z) (key : nat) :
  In key (map fst (sort_values (mpv_data session MPV))) ->
  exists d,
    In d (Store.data session) /\ Datum.id d = key /\
    Datum.cal_id d = None /\ (Datum.mpv_position d == inject_Z MPV)%Q.
Proof.
  intros H.
  apply (Permutation_in _ (Permutation_map fst (sort_values_perm _))) in H.
  unfold mpv_data in H. rewrite map_map in H. simpl in H.
  apply in_map_iff in H. destruct H as (d & Hd & Hin).
  apply filter_In in Hin. destruct Hin as [Hin Hf].
  apply andb_true_iff in Hf. destruct Hf as [Hmpv Hnone].
  exists d. split; [exact Hin|]. split; [exact Hd|]. split.
  - destruct (Datum.cal_id d); [discriminate | reflexivity].
  - apply Qeq_bool_iff. exact Hmpv.
Qed.

Lemma standard_data_frames (session : Store.t)
  (item : string * list (nat * datetime)) :
  In item (standard_data session) ->
  (fst item = low_std \/ fst item = high_std \/ fst item = mid_std) /\
  exists MPV, (MPV = 2 \/ MPV = 3 \/ MPV = 4) /\
              snd item = sort_values (mpv_data session MPV).
Proof.
  unfold standard_data. intros H. apply in_flat_map in H.
  destruct H as (MPV & HMPV & H).
  destruct (length (mpv_data session MPV) =? 0)%nat; [contradiction|].
  destruct HMPV as [<-|[<-|[<-|[]]]]; simpl in H; destruct H as [<-|[]];
    simpl; (split; [tauto|]); eexists; (split; [|reflexivity]); tauto.
Qed.

Lemma process_standards_ok (sqrt : Q -> Q)
  (items : list (string * list (nat * datetime))) :
  forall session,
    (forall item, In item items ->
                  incl (map fst (snd item))
                       (map Datum.id (Store.data session))) ->
    exists session' new,
      process_standards sqrt items session = Ok session' /\
      Store.mastercals session' = Store.mastercals session /\
      Store.cals session' = Store.cals session ++ new /\
      Forall (fun ev => exists item,
                  In item items /\ stored_event (fst item) ev) new /\
      (NoDup (map CalEvent.id (Store.cals session)) ->
       NoDup (map CalEvent.id (Store.cals session'))) /\
      Forall2 (relinked (flat_map (fun item => map fst (snd item)) items))
              (Store.data session) (Store.data session').
Proof.
  induction items as [|item items IH]; intros session Hframes.
  - exists session, []. split; [reflexivity|]. split; [reflexivity|].
    split; [rewrite app_nil_r; reflexivity|]. split; [constructor|].
    split; [auto|]. apply relinked_rows_refl.
  - destruct (candidate_events_ok session (fst item) (snd item)
                (Hframes item (or_introl eq_refl))) as (found & Hfound & Hevs).
    assert (Hstep : exists mid new1,
               process_standard sqrt session item = Ok mid /\
               Store.mastercals mid = Store.mastercals session /\
               Store.cals mid = Store.cals session ++ new1 /\
               Forall (stored_event (fst item)) new1 /\
               (NoDup (map CalEvent.id (Store.cals session)) ->
                NoDup (map CalEvent.id (Store.cals mid))) /\
               Forall2 (relinked (map fst (snd item)))
                       (Store.data session) (Store.data mid)).
    { unfold process_standard. rewrite Hfound. cbn [bind].
      destruct found as [evs|].
      - destruct (Hevs evs eq_refl) as [Hb Hm].
        destruct (merge_events_ok sqrt (fst item) (map fst (snd item)) evs
                    session Hb Hm) as (mid & new1 & H).
        exists mid, new1. exact H.
      - exists session, []. split; [reflexivity|]. split; [reflexivity|].
        split; [rewrite app_nil_r; reflexivity|]. split; [constructor|].
        split; [auto|]. apply relinked_rows_refl. }
    destruct Hstep as (mid & new1 & Hmid & Hmc1 & Hcals1 & Hnew1 & Hk1 & Hrows1).
    destruct (IH mid) as (session' & new2 & Hrun & Hmc2 & Hcals2 & Hnew2 & Hk2 & Hrows2).
    { intros it Hit. rewrite (relinked_rows_keys _ _ _ Hrows1).
      apply Hframes. right. exact Hit. }
    exists session', (new1 ++ new2).
    split; [cbn [process_standards]; rewrite Hmid; exact Hrun|].
    split; [congruence|].
    split; [rewrite Hcals2, Hcals1, app_assoc; reflexivity|].
    split; [|split].
    + apply Forall_app. split.
      * apply Forall_forall. intros ev Hev. exists item.
        split; [left; reflexivity|].
        apply (proj1 (Forall_forall _ _) Hnew1 ev Hev).
      * apply Forall_forall. intros ev Hev.
        destruct (proj1 (Forall_forall _ _) Hnew2 ev Hev) as (it & Hit & Hs).
        exists it. split; [right; exact Hit | exact Hs].
    + auto.
    + simpl. apply (relinked_rows_chain _ _ _ _ _ Hrows1 Hrows2).
Qed.

(** What one round of [find_cal_events] does to the store. *)
Lemma find_cal_events_round (sqrt : Q -> Q) (session : Store.t) :
  exists session' new,
    find_cal_events sqrt session = Ok session' /\
    Store.mastercals session' = Store.mastercals session /\
    Store.cals session' = Store.cals session ++ new /\
    Forall (fun ev => stored_event low_std ev \/ stored_event high_std ev \/
                      stored_event mid_std ev) new /\
    (NoDup (map CalEvent.id (Store.cals session)) ->
     NoDup (map CalEvent.id (Store.cals session'))) /\
    Forall2
      (relinked (flat_map (fun item => map fst (snd item))
                          (standard_data session)))
      (Store.data session) (Store.data session').
Proof.
  destruct (process_standards_ok sqrt (standard_data session) session)
    as (session' & new & Hrun & Hmc & Hcals & Hnew & Hkeys & Hrows).
  { intros item Hitem.
    destruct (standard_data_frames _ _ Hitem) as (_ & MPV & _ & ->).
    intros key Hkey. destruct (frame_row _ _ _ Hkey) as (d & Hd & Hid & _).
    rewrite <- Hid. apply in_map. exact Hd. }
  exists session', new. split; [exact Hrun|]. split; [exact Hmc|].
  split; [exact Hcals|]. split; [|split; assumption].
  apply Forall_forall. intros ev Hev.
  destruct (proj1 (Forall_forall _ _) Hnew ev Hev) as (item & Hitem & Hs).
  destruct (standard_data_frames _ _ Hitem) as ([E|[E|E]] & _);
    rewrite E in Hs; tauto.
Qed.

(** X3. A round of [find_cal_events] that returns has left table
    [mastercals] as it was and has only appended events to table [cals]:
    each new event has a key, is in no MasterCal, and is either tagged
    ['dump'] without results or carries one of the three standards with
    its three results set. *)
Theorem find_cal_events_appends_events (sqrt : Q -> Q)
  (session session' : Store.t) :
  find_cal_events sqrt session = Ok session' ->
  Store.mastercals session' = Store.mastercals session /\
  exists new,
    Store.cals session' = Store.cals session ++ new /\
    Forall (fun ev => stored_event low_std ev \/ stored_event high_std ev \/
                      stored_event mid_std ev) new.
Proof.
  intros Hrun.
  destruct (find_cal_events_round sqrt session)
    as (session0 & new & H1 & H2 & H3 & H4 & _).
  assert (session0 = session') by congruence. subst session0.
  split; [exact H2|]. exists new. split; assumption.
Qed.

Lemma find_cal_events_appends_events_witness :
  exists session' ev,
    find_cal_events sample_sqrt mixed_store = Ok session' /\
    Store.cals session' = [ev] /\ stored_event low_std ev.
Proof.
  eexists. eexists. split; [vm_compute; reflexivity|].
  split; [reflexivity|].
  destruct (find_cal_events_appends_events sample_sqrt mixed_store _ eq_refl)
    as (_ & new & Hcals & Hnew).
  destruct new as [|ev [|ev' new]]; try discriminate Hcals.
  injection Hcals as <-.
  inversion Hnew as [|? ? [H|[H|H]] _]; subst; [exact H | |];
    destruct H as (_ & _ & [(Hd & _)|(Hs & _)]); discriminate.
Defined.

Lemma relinked_free_rows (keys : list nat) (rows rows' : list Datum.t) :
  (forall d, In d rows -> In (Datum.id d) keys ->
             Datum.cal_id d = None /\ standard_valve d) ->
  Forall2 (relinked keys) rows rows' ->
  Forall2
    (fun d d' =>
       d' = Datum.set_cal_id (Datum.cal_id d') d /\
       (Datum.cal_id d <> None \/ ~ standard_valve d -> d' = d))
    rows rows'.
Proof.
  intros Hfree Hrows. induction Hrows as [|d d' rows rows' [E U] _ IH].
  - constructor.
  - constructor.
    + split; [exact E|]. intros Hcond. apply U. intros Hin.
      destruct (Hfree d (or_introl eq_refl) Hin) as [Hc Hv].
      destruct Hcond as [Hcond|Hcond]; contradiction.
    + apply IH. intros x Hx. apply Hfree. right. exact Hx.
Qed.

(** X4. With distinct keys in table [data], a round of [find_cal_events]
    changes a Datum in column [cal_id] only, and leaves untouched every
    Datum that was already in an event and every Datum whose valve position
    is not 2, 3 or 4. *)
Theorem find_cal_events_relinks_only_free_standard_rows (sqrt : Q -> Q)
  (session session' : Store.t) :
  NoDup (map Datum.id (Store.data session)) ->
  find_cal_events sqrt session = Ok session' ->
  Forall2
    (fun d d' =>
       d' = Datum.set_cal_id (Datum.cal_id d') d /\
       (Datum.cal_id d <> None \/ ~ standard_valve d -> d' = d))
    (Store.data session) (Store.data session').
Proof.
  intros Hnd Hrun.
  destruct (find_cal_events_round sqrt session)
    as (s2 & new & H1 & _ & _ & _ & _ & Hrows).
  rewrite Hrun in H1. inversion H1; subst s2. clear H1.
  assert (Hfree : forall d, In d (Store.data session) ->
             In (Datum.id d)
                (flat_map (fun item => map fst (snd item))
                          (standard_data session)) ->
             Datum.cal_id d = None /\ standard_valve d).
  { intros d Hd Hin. apply in_flat_map in Hin.
    destruct Hin as (item & Hitem & Hkey).
    destruct (standard_data_frames _ _ Hitem) as (_ & MPV & HMPV & E).
    rewrite E in Hkey. destruct (frame_row _ _ _ Hkey) as (r & Hr & Hid & Hc & Hm).
    assert (Hsame : r = d).
    { clear - Hnd Hr Hd Hid. revert Hnd Hr Hd Hid.
      induction (Store.data session) as [|x l IH]; [contradiction|].
      simpl. intros Hnd Hr Hd Hid. apply NoDup_cons_iff in Hnd.
      destruct Hnd as [Hx Hnd]. destruct Hr as [<-|Hr], Hd as [<-|Hd].
      - reflexivity.
      - exfalso. apply Hx. rewrite Hid. apply in_map. exact Hd.
      - exfalso. apply Hx. rewrite <- Hid. apply in_map. exact Hr.
      - apply IH; assumption. }
    subst r. split; [exact Hc|]. unfold standard_valve.
    destruct HMPV as [-> | [-> | ->]]; tauto. }
  apply (relinked_free_rows _ _ _ Hfree Hrows).
Qed.

Lemma find_cal_events_relinks_only_free_standard_rows_witness :
  exists session',
    find_cal_events sample_sqrt mixed_store = Ok session' /\
    map Datum.cal_id (Store.data session')
    = [Some 1%nat; Some 1%nat; Some 1%nat; None; None; Some 9%nat].
Proof.
  assert (Hkeys : NoDup (map Datum.id (Store.data mixed_store))).
  { vm_compute. repeat (constructor; [simpl; intuition discriminate|]).
    constructor. }
  eexists. split; [vm_compute; reflexivity|].
  pose proof (find_cal_events_relinks_only_free_standard_rows sample_sqrt
                mixed_store _ Hkeys eq_refl) as Hrows.
  reflexivity.
Defined.

(** X5. A round of [find_cal_events] keeps what the other steps rely on:
    the keys of table [data] and of table [cals] stay distinct, every event
    that is not tagged ['dump'] still has its three results set, and still
    no event tagged ['dump'] is linked to a MasterCal. *)
Theorem find_cal_events_keeps_invariants (sqrt : Q -> Q)
  (session session' : Store.t) :
  find_cal_events sqrt session = Ok session' ->
  (NoDup (map Datum.id (Store.data session)) ->
   NoDup (map Datum.id (Store.data session'))) /\
  (NoDup (map CalEvent.id (Store.cals session)) ->
   NoDup (map CalEvent.id (Store.cals session'))) /\
  (results_set session -> results_set session') /\
  (no_dump_linked session -> no_dump_linked session').
Proof.
  intros Hrun.
  destruct (find_cal_events_round sqrt session)
    as (s2 & new & H1 & _ & Hcals & Hnew & Hkeys & Hrows).
  rewrite Hrun in H1. inversion H1; subst s2. clear H1.
  split; [|split; [|split]].
  - rewrite (relinked_rows_keys _ _ _ Hrows). auto.
  - exact Hkeys.
  - intros Hset ce Hce Hnd. rewrite Hcals in Hce. apply in_app_or in Hce.
    destruct Hce as [Hce|Hce]; [apply Hset; assumption|].
    pose proof (proj1 (Forall_forall _ _) Hnew ce Hce) as Hs.
    destruct Hs as [Hs|[Hs|Hs]]; destruct Hs as (_ & _ & [[Hd _]|[_ Hf]]);
      try contradiction; exact Hf.
  - intros Hinv ce Hce Hlinked. rewrite Hcals in Hce. apply in_app_or in Hce.
    destruct Hce as [Hce|Hce]; [apply Hinv; assumption|].
    pose proof (proj1 (Forall_forall _ _) Hnew ce Hce) as Hs.
    destruct Hs as [Hs|[Hs|Hs]]; destruct Hs as (_ & Hmc & _); contradiction.
Qed.

Lemma find_cal_events_keeps_invariants_witness :
  exists session',
    find_cal_events sample_sqrt mixed_store = Ok session' /\
    NoDup (map Datum.id (Store.data session')) /\
    results_set session'.
Proof.
  eexists. split; [vm_compute; reflexivity|].
  destruct (find_cal_events_keeps_invariants sample_sqrt mixed_store _ eq_refl)
    as (Hdata & _ & Hset & _).
  split.
  - apply Hdata. vm_compute.
    repeat (constructor; [simpl; intuition discriminate|]). constructor.
  - apply Hset. intros ce [].
Defined.

(** ** A round of [create_mastercals] *)

Lemma fully_set_has_mean (ce : CalEvent.t) :
  fully_set ce -> exists v, has_mean ce v.
Proof.
  intros H.
  destruct (H CO) as (m1 & md1 & sd1 & E1), (H CO2) as (m2 & md2 & sd2 & E2),
           (H CH4) as (m3 & md3 & sd3 & E3).
  exists (fun cpd => match cpd with CO => m1 | CO2 => m2 | CH4 => m3 end).
  intros cpd. destruct cpd; eexists; (split; [eassumption | reflexivity]).
Qed.

Lemma find_cal_by_type_member (subcals : list CalEvent.t) (std : string)
  (ce : CalEvent.t) :
  find_cal_by_type subcals std = Some ce -> In ce subcals.
Proof.
  unfold find_cal_by_type. intros H. apply find_some in H. exact (proj1 H).
Qed.

Lemma mean_of_fully_set (subcals : list CalEvent.t) (std : string)
  (cpd : Compound) :
  (forall ce, In ce subcals -> fully_set ce) ->
  mean_of (find_cal_by_type subcals std) cpd = Raise AttributeError \/
  exists v, mean_of (find_cal_by_type subcals std) cpd = Ok (Some v).
Proof.
  intros Hset.
  destruct (find_cal_by_type subcals std) as [ce|] eqn:F;
    [|left; reflexivity].
  apply find_cal_by_type_member in F.
  destruct (Hset ce F cpd) as (v & md & sd & E).
  right. exists v. simpl. rewrite E. reflexivity.
Qed.

(** With the module's own table of certified values and quantified
    subcals, the computation of a round of [create_curve] either fails for
    want of a subcal or succeeds. *)
Lemma fit_curve_for_quantified (cpd : Compound) (self : MasterCal.t) :
  (forall ce, In ce (MasterCal.subcals self) -> fully_set ce) ->
  fit_curve_for standards cpd self = Raise AttributeError \/
  exists fit, fit_curve_for standards cpd self = Ok fit.
Proof.
  intros Hset. unfold fit_curve_for.
  destruct (MasterCal.subcals self) as [|first rest];
    [left; reflexivity|].
  destruct (mean_of_fully_set _ low_std cpd Hset) as [->|(yl & ->)];
    [left; reflexivity|].
  destruct (mean_of_fully_set _ high_std cpd Hset) as [->|(yh & ->)];
    [left; reflexivity|].
  destruct (mean_of_fully_set _ mid_std cpd Hset) as [E|(ym & ->)].
  - left. rewrite E. reflexivity.
  - right. cbn [bind]. change (certified_of standards low_std)
      with (Ok (fun cpd => match cpd with
                           | CO => 696 # 10 | CO2 => 39024 # 100
                           | CH4 => 18385 # 10 end) : result certified).
    change (certified_of standards mid_std)
      with (Ok (fun cpd => match cpd with
                           | CO => 1174 # 10 | CO2 => 40865 # 100
                           | CH4 => 19255 # 10 end) : result certified).
    change (certified_of standards high_std)
      with (Ok (fun cpd => match cpd with
                           | CO => 1746 # 10 | CO2 => 42853 # 100
                           | CH4 => 20506 # 10 end) : result certified).
    cbn [bind]. unfold calc_two_pt_curve. cbn [Point.x Point.y py_sub bind].
    rewrite py_div_nonzero;
      [|destruct cpd; intros H; vm_compute in H; discriminate H].
    cbn [bind py_sub Point.x Point.y py_first].
    eexists. reflexivity.
Qed.

Lemma create_curve_quantified (self : MasterCal.t) :
  (forall ce, In ce (MasterCal.subcals self) -> fully_set ce) ->
  create_curve standards self = Raise AttributeError.
Proof.
  intros Hset. unfold create_curve. rewrite create_curve_for_plot.
  destruct (fit_curve_for_quantified CO self Hset) as [->|(fit & ->)];
    reflexivity.
Qed.

(** X6. A round of [create_mastercals] stores nothing. It returns exactly
    when no low event finds its high and its mid event, and then leaves
    the store as it was. As soon as one triple is matched the round
    raises, at the latest in the plot call that ends the first round of
    the first [create_curve], so nothing is committed; when the events
    that are not tagged ['dump'] have their results set, as
    [find_cal_events] leaves them, the exception is [AttributeError]. *)
Theorem create_mastercals_stores_nothing (session : Store.t) :
  let built :=
    match_mastercals (unlinked session low_std) (unlinked session high_std)
      (unlinked session mid_std) in
  (built = [] -> create_mastercals session = Ok session) /\
  (built <> [] -> raises (create_mastercals session)) /\
  (forall session',
      create_mastercals session = Ok session' ->
      session' = session /\ built = []) /\
  (results_set session -> built <> [] ->
   create_mastercals session = Raise AttributeError).
Proof.
  intros built.
  pose proof (loop_mastercals_built (unlinked session low_std)
                (unlinked session high_std) (unlinked session mid_std))
    as Hb.
  fold built in Hb.
  split; [|split; [|split]].
  - intros E. rewrite E in Hb. inversion Hb as [E'|].
    unfold create_mastercals. rewrite <- E'. reflexivity.
  - intros Hne. unfold create_mastercals.
    destruct (loop_mastercals _ _ _) as [|mc rest].
    + inversion Hb as [E'|]. congruence.
    + change (raises (add_mastercals (mc :: rest) session)).
      cbn [add_mastercals]. apply bind_Raise_l. apply create_curve_raises.
  - intros session' Hrun.
    destruct (create_mastercals_returns _ _ Hrun) as (-> & E).
    split; [reflexivity|]. rewrite E in Hb. inversion Hb. reflexivity.
  - intros Hset Hne. unfold create_mastercals.
    destruct (loop_mastercals _ _ _) as [|mc rest] eqn:El.
    + inversion Hb as [E'|]. congruence.
    + change (add_mastercals (mc :: rest) session = Raise AttributeError).
      cbn [add_mastercals]. rewrite create_curve_quantified; [reflexivity|].
      intros ce Hce.
      assert (Hmc : In mc (loop_mastercals (unlinked session low_std)
                             (unlinked session high_std)
                             (unlinked session mid_std)))
        by (rewrite El; left; reflexivity).
      destruct (dump_event_in_no_mastercal _ _ _ Hmc Hce) as (Hin & Hnd).
      apply (Hset ce Hin Hnd).
Qed.

Lemma create_mastercals_stores_nothing_witness :
  create_mastercals shared_store = Raise AttributeError /\
  create_mastercals (Store.mk [] [shared_low_1; shared_mid] [])
  = Ok (Store.mk [] [shared_low_1; shared_mid] []).
Proof.
  split.
  - destruct (create_mastercals_stores_nothing shared_store)
      as (_ & _ & _ & Hraise).
    apply Hraise.
    + intros ce Hce _.
      destruct Hce as [<-|[<-|[<-|[<-|[]]]]];
        intros cpd; destruct cpd; eexists _, _, _; reflexivity.
    + discriminate.
  - destruct (create_mastercals_stores_nothing
                (Store.mk [] [shared_low_1; shared_mid] []))
      as (Hnone & _).
    apply Hnone. reflexivity.
Defined.

(** ** Ingestion across rounds *)

(** The step of the loop over the rows of a file. *)
Lemma load_step_dates (db_dates : list datetime) (file_id : nat)
  (lines : list Line) :
  forall session,
    let session' :=
      fold_left
        (fun session line =>
           if existsb (Z.eqb (EPOCH_TIME line)) db_dates then session
           else add_datum file_id line session)
        lines session in
    (exists new, Store.data session' = Store.data session ++ new) /\
    Store.cals session' = Store.cals session /\
    Store.mastercals session' = Store.mastercals session /\
    forall line, In line lines ->
      In (EPOCH_TIME line) db_dates \/
      In (EPOCH_TIME line) (map Datum.date (Store.data session')).
Proof.
  induction lines as [|line rest IH]; intros session; cbv zeta; simpl.
  - split; [exists []; rewrite app_nil_r; reflexivity|].
    split; [reflexivity|]. split; [reflexivity|]. intros line [].
  - destruct (existsb (Z.eqb (EPOCH_TIME line)) db_dates) eqn:E.
    + destruct (IH session) as (Hnew & Hc & Hm & Hall).
      split; [exact Hnew|]. split; [exact Hc|]. split; [exact Hm|].
      intros l [<-|Hl]; [|apply Hall; exact Hl].
      left. apply existsb_exists in E. destruct E as (x & Hx & Ex).
      apply Z.eqb_eq in Ex. rewrite Ex. exact Hx.
    + destruct (IH (add_datum file_id line session))
        as ((new & Hnew) & Hc & Hm & Hall).
      split; [|split; [exact Hc|split; [exact Hm|]]].
      * eexists. rewrite Hnew. unfold add_datum. simpl.
        rewrite <- app_assoc. reflexivity.
      * intros l [<-|Hl]; [|apply Hall; exact Hl].
        right. rewrite Hnew. unfold add_datum. simpl.
        rewrite !map_app. simpl. apply in_or_app. left.
        apply in_or_app. right. left. reflexivity.
Qed.

Lemma load_file_dates (db_dates : list datetime) (session : Store.t)
  (file : nat * list Line) :
  (exists new, Store.data (load_file db_dates session file)
               = Store.data session ++ new) /\
  Store.cals (load_file db_dates session file) = Store.cals session /\
  Store.mastercals (load_file db_dates session file)
  = Store.mastercals session /\
  forall line, In line (snd file) ->
    In (EPOCH_TIME line) db_dates \/
    In (EPOCH_TIME line)
       (map Datum.date (Store.data (load_file db_dates session file))).
Proof.
  unfold load_file.
  destruct (load_step_dates db_dates (fst file)
              (map convert_units (snd file)) session) as (Hnew & Hc & Hm & Hall).
  split; [exact Hnew|]. split; [exact Hc|]. split; [exact Hm|].
  intros line Hline.
  apply (Hall (convert_units line)). apply in_map. exact Hline.
Qed.

Lemma load_files_dates (db_dates : list datetime)
  (files : list (nat * list Line)) :
  forall session,
    (exists new, Store.data (fold_left (load_file db_dates) files session)
                 = Store.data session ++ new) /\
    Store.cals (fold_left (load_file db_dates) files session)
    = Store.cals session /\
    Store.mastercals (fold_left (load_file db_dates) files session)
    = Store.mastercals session /\
    forall file line, In file files -> In line (snd file) ->
      In (EPOCH_TIME line) db_dates \/
      In (EPOCH_TIME line)
         (map Datum.date
              (Store.data (fold_left (load_file db_dates) files session))).
Proof.
  induction files as [|file rest IH]; intros session; simpl.
  - split; [exists []; rewrite app_nil_r; reflexivity|].
    split; [reflexivity|]. split; [reflexivity|]. intros f l [].
  - destruct (load_file_dates db_dates session file)
      as ((new1 & Hnew1) & Hc1 & Hm1 & Hall1).
    destruct (IH (load_file db_dates session file))
      as ((new2 & Hnew2) & Hc2 & Hm2 & Hall2).
    split; [exists (new1 ++ new2); rewrite Hnew2, Hnew1, app_assoc;
            reflexivity|].
    split; [congruence|]. split; [congruence|].
    intros f l [<-|Hf] Hl; [|apply (Hall2 f l Hf Hl)].
    destruct (Hall1 l Hl) as [H|H]; [left; exact H|].
    right. rewrite Hnew2, map_app. apply in_or_app. left. exact H.
Qed.

(** Loading files whose rows all carry known dates changes nothing. *)
Lemma load_files_known (db_dates : list datetime)
  (files : list (nat * list Line)) :
  (forall file line, In file files -> In line (snd file) ->
                     In (EPOCH_TIME line) db_dates) ->
  forall session, fold_left (load_file db_dates) files session = session.
Proof.
  induction files as [|file rest IH]; intros Hknown session; simpl.
  - reflexivity.
  - assert (Hfile : load_file db_dates session file = session).
    { unfold load_file.
      assert (Hlines : forall line, In line (map convert_units (snd file)) ->
                 existsb (Z.eqb (EPOCH_TIME line)) db_dates = true).
      { intros line Hline. apply in_map_iff in Hline.
        destruct Hline as (l0 & <- & Hl0). apply existsb_exists.
        exists (EPOCH_TIME l0). split; [|apply Z.eqb_refl].
        apply (Hknown file l0); [left; reflexivity | exact Hl0]. }
      revert Hlines. generalize (map convert_units (snd file)) as lines.
      induction lines as [|line lines IHl]; intros Hlines; simpl;
        [reflexivity|].
      rewrite (Hlines line (or_introl eq_refl)). apply IHl.
      intros l Hl. apply Hlines. right. exact Hl. }
    rewrite Hfile. apply IH. intros f l Hf Hl.
    apply (Hknown f l); [right; exact Hf | exact Hl].
Qed.

(** X7. Loading the same files a second time changes nothing: after a round
    of [check_load_new_data] every row of every loaded file has its
    timestamp in the store, so a further round over the same rows (a file
    that is read again because it grew, or an unchanged one) accepts none
    of them. *)
Theorem check_load_new_data_twice (files : list (nat * list Line))
  (session : Store.t) :
  check_load_new_data files (check_load_new_data files session)
  = check_load_new_data files session.
Proof.
  unfold check_load_new_data at 1.
  apply load_files_known. intros file line Hfile Hline.
  unfold check_load_new_data.
  destruct (load_files_dates (map Datum.date (Store.data session)) files
              session) as ((new & Hnew) & _ & _ & Hall).
  destruct (Hall file line Hfile Hline) as [H|H]; [|exact H].
  rewrite Hnew, map_app. apply in_or_app. left. exact H.
Qed.

Lemma next_datum_key_fresh (rows : list Datum.t) :
  NoDup (map Datum.id rows) ->
  NoDup (map Datum.id rows ++ [next_id (map Datum.id rows)]).
Proof.
  intros Hnd. apply NoDup_app; [exact Hnd | |].
  - constructor; [intros [] | constructor].
  - intros key Hkey [<-|[]]. apply next_id_above in Hkey. lia.
Qed.

Lemma load_step_rows (db_dates : list datetime) (file_id : nat)
  (lines : list Line) :
  forall session,
    let session' :=
      fold_left
        (fun session line =>
           if existsb (Z.eqb (EPOCH_TIME line)) db_dates then session
           else add_datum file_id line session)
        (map convert_units lines) session in
    exists new,
      Store.data session' = Store.data session ++ new /\
      (NoDup (map Datum.id (Store.data session)) ->
       NoDup (map Datum.id (Store.data session'))) /\
      forall d, In d new ->
        ~ In (Datum.date d) db_dates /\
        exists line, In line lines /\ ingested_from file_id line d.
Proof.
  induction lines as [|line rest IH]; intros session; cbv zeta; simpl.
  - exists []. rewrite app_nil_r. split; [reflexivity|].
    split; [auto|]. intros d [].
  - destruct (existsb (Z.eqb (EPOCH_TIME line)) db_dates) eqn:E.
    + destruct (IH session) as (new & Hnew & Hkeys & Hall).
      exists new. split; [exact Hnew|]. split; [exact Hkeys|].
      intros d Hd. destruct (Hall d Hd) as (Hdate & l & Hl & Hfrom).
      split; [exact Hdate|]. exists l. split; [right; exact Hl | exact Hfrom].
    + destruct (IH (add_datum file_id (convert_units line) session))
        as (new & Hnew & Hkeys & Hall).
      eexists. split; [|split].
      * rewrite Hnew. unfold add_datum. simpl. rewrite <- app_assoc.
        reflexivity.
      * intros Hnd. apply Hkeys. unfold add_datum. simpl.
        rewrite map_app. simpl. apply next_datum_key_fresh. exact Hnd.
      * intros d [<-|Hd].
        -- split.
           ++ simpl. intros Hin.
              assert (Hex : existsb (Z.eqb (EPOCH_TIME line)) db_dates = true).
              { apply existsb_exists. exists (EPOCH_TIME line).
                split; [exact Hin | apply Z.eqb_refl]. }
              congruence.
           ++ exists line. split; [left; reflexivity|].
              repeat split.
        -- destruct (Hall d Hd) as (Hdate & l & Hl & Hfrom).
           split; [exact Hdate|]. exists l.
           split; [right; exact Hl | exact Hfrom].
Qed.

Lemma load_files_rows (db_dates : list datetime)
  (files : list (nat * list Line)) :
  forall session,
    exists new,
      Store.data (fold_left (load_file db_dates) files session)
      = Store.data session ++ new /\
      (NoDup (map Datum.id (Store.data session)) ->
       NoDup (map Datum.id
                (Store.data (fold_left (load_file db_dates) files session)))) /\
      forall d, In d new ->
        ~ In (Datum.date d) db_dates /\
        exists file line,
          In file files /\ In line (snd file) /\
          ingested_from (fst file) line d.
Proof.
  induction files as [|file rest IH]; intros session; simpl.
  - exists []. rewrite app_nil_r. split; [reflexivity|].
    split; [auto|]. intros d [].
  - destruct (load_step_rows db_dates (fst file) (snd file) session)
      as (new1 & Hnew1 & Hkeys1 & Hall1).
    cbv zeta in Hnew1, Hkeys1.
    change (fold_left _ (map convert_units (snd file)) session)
      with (load_file db_dates session file) in Hnew1, Hkeys1.
    destruct (IH (load_file db_dates session file))
      as (new2 & Hnew2 & Hkeys2 & Hall2).
    exists (new1 ++ new2). split; [|split].
    + rewrite Hnew2, Hnew1, app_assoc. reflexivity.
    + auto.
    + intros d Hd. apply in_app_or in Hd. destruct Hd as [Hd|Hd].
      * destruct (Hall1 d Hd) as (Hdate & l & Hl & Hfrom).
        split; [exact Hdate|]. exists file, l.
        split; [left; reflexivity|]. split; assumption.
      * destruct (Hall2 d Hd) as (Hdate & f & l & Hf & Hl & Hfrom).
        split; [exact Hdate|]. exists f, l.
        split; [right; exact Hf|]. split; assumption.
Qed.

(** The loading loop only appends to table [data]: each new Datum comes
    from a row of one of the files, and its timestamp was not in the store
    when the round began. *)
Lemma check_load_new_data_appends (files : list (nat * list Line))
  (session : Store.t) :
  exists new,
    Store.data (check_load_new_data files session)
    = Store.data session ++ new /\
    Store.cals (check_load_new_data files session) = Store.cals session /\
    Store.mastercals (check_load_new_data files session)
    = Store.mastercals session /\
    (NoDup (map Datum.id (Store.data session)) ->
     NoDup (map Datum.id (Store.data (check_load_new_data files session)))) /\
    forall d, In d new ->
      ~ In (Datum.date d) (map Datum.date (Store.data session)) /\
      exists file line,
        In file files /\ In line (snd file) /\
        ingested_from (fst file) line d.
Proof.
  unfold check_load_new_data.
  destruct (load_files_rows (map Datum.date (Store.data session)) files
              session) as (new & Hnew & Hkeys & Hall).
  destruct (load_files_dates (map Datum.date (Store.data session)) files
              session) as (_ & Hc & Hm & _).
  exists new. split; [exact Hnew|]. split; [exact Hc|]. split; [exact Hm|].
  split; [exact Hkeys | exact Hall].
Qed.

(** ** Composing flush filters *)

Lemma filter_postcal_data_rows (cal : CalEvent.t) (session : Store.t) :
  filter_postcal_data cal session
  = (last_cal_date <- py_last (map Datum.date (CalEvent.data cal)) ;;
     Ok (Store.mk (map (flushed last_cal_date) (Store.data session))
                  (Store.cals session) (Store.mastercals session))).
Proof. reflexivity. Qed.

Lemma flushed_twice (last : datetime) (d : Datum.t) :
  flushed last (flushed last d) = flushed last d.
Proof.
  unfold flushed.
  destruct ((last <? Datum.date d) && (Datum.date d <=? last + minutes 1))
    eqn:E; simpl; rewrite E; reflexivity.
Qed.

Lemma flushed_swap (last1 last2 : datetime) (d : Datum.t) :
  flushed last1 (flushed last2 d) = flushed last2 (flushed last1 d).
Proof.
  unfold flushed.
  destruct ((last1 <? Datum.date d) && (Datum.date d <=? last1 + minutes 1))
    eqn:E1;
    destruct ((last2 <? Datum.date d) && (Datum.date d <=? last2 + minutes 1))
      eqn:E2; simpl; rewrite ?E1, ?E2; reflexivity.
Qed.

Lemma flushed_status_only (last : datetime) (d : Datum.t) :
  flushed last d
  = Datum.set_instrument_status (Datum.instrument_status (flushed last d)) d.
Proof.
  unfold flushed. destruct (_ && _); destruct d; reflexivity.
Qed.

(** X9. [filter_postcal_data] raises [IndexError] for an event without
    data and succeeds for every other event; it changes a Datum in column
    [instrument_status] only; running it again for the same event changes
    nothing more; and the filters of two events give the same store in
    either order. *)
Theorem filter_postcal_data_composes :
  (forall cal session,
      CalEvent.data cal = [] ->
      filter_postcal_data cal session = Raise IndexError) /\
  (forall cal session,
      CalEvent.data cal <> [] ->
      exists session',
        filter_postcal_data cal session = Ok session' /\
        Forall2
          (fun d d' =>
             d' = Datum.set_instrument_status (Datum.instrument_status d') d)
          (Store.data session) (Store.data session') /\
        filter_postcal_data cal session' = Ok session') /\
  (forall cal1 cal2 session session1 session2,
      filter_postcal_data cal1 session = Ok session1 ->
      filter_postcal_data cal2 session = Ok session2 ->
      exists both,
        filter_postcal_data cal2 session1 = Ok both /\
        filter_postcal_data cal1 session2 = Ok both).
Proof.
  split; [|split].
  - intros cal session Hnil. unfold filter_postcal_data. rewrite Hnil.
    reflexivity.
  - intros cal session Hne.
    destruct (py_last_nonempty (map Datum.date (CalEvent.data cal)))
      as (last & Hlast).
    { destruct (CalEvent.data cal); [contradiction | discriminate]. }
    rewrite !filter_postcal_data_rows, Hlast. cbn [bind].
    eexists. split; [reflexivity|]. split.
    + simpl. apply Forall2_map_same. intros d. apply flushed_status_only.
    + rewrite filter_postcal_data_rows, Hlast. cbn [bind]. simpl.
      rewrite map_map. f_equal. f_equal. apply map_ext.
      intros d. apply flushed_twice.
  - intros cal1 cal2 session session1 session2 H1 H2.
    rewrite filter_postcal_data_rows in H1, H2.
    apply bind_Ok in H1, H2.
    destruct H1 as (last1 & Hl1 & E1), H2 as (last2 & Hl2 & E2).
    inversion E1; subst session1. inversion E2; subst session2.
    rewrite !filter_postcal_data_rows, Hl1, Hl2. cbn [bind]. simpl.
    eexists. split; [reflexivity|].
    rewrite !map_map. f_equal. f_equal. apply map_ext.
    intros d. apply flushed_swap.
Qed.

Lemma filter_postcal_data_composes_witness :
  exists session',
    filter_postcal_data flush_event flush_store = Ok session' /\
    filter_postcal_data flush_event session' = Ok session'.
Proof.
  destruct filter_postcal_data_composes as (_ & Hagain & _).
  destruct (Hagain flush_event flush_store) as (session' & Hrun & _ & Htwice).
  - discriminate.
  - exists session'. split; assumption.
Defined.

(** ** The two-point line *)

Lemma calc_two_pt_curve_ok (low high : Point.t) (c : Curve.t) :
  calc_two_pt_curve low high = Ok c ->
  exists yl yh,
    Point.y low = Some yl /\ Point.y high = Some yh /\
    ~ (Point.x high - Point.x low == 0)%Q /\
    Curve.m c = ((yh - yl) / (Point.x high - Point.x low))%Q /\
    Curve.intercept c = (yl - Curve.m c * Point.x low)%Q.
Proof.
  unfold calc_two_pt_curve. intros H.
  destruct (Point.y high) as [yh|], (Point.y low) as [yl|]; try discriminate.
  simpl in H. unfold py_div in H.
  destruct (Qeq_bool (Point.x high - Point.x low) 0) eqn:E; [discriminate|].
  simpl in H. inversion H; subst c. simpl.
  exists yl, yh. repeat split.
  intros Hz. apply Qeq_bool_iff in Hz. congruence.
Qed.

(** X10. When [calc_two_pt_curve] returns a curve, it is the one line
    through the two points: any slope and intercept that reproduce both
    measured values are equal to the ones returned. Hence the result does
    not depend on the order of the two points. *)
Theorem calc_two_pt_curve_unique_line (low high : Point.t) (c : Curve.t) :
  calc_two_pt_curve low high = Ok c ->
  (forall m' b' yl yh,
      Point.y low = Some yl -> Point.y high = Some yh ->
      (m' * Point.x low + b' == yl)%Q ->
      (m' * Point.x high + b' == yh)%Q ->
      (m' == Curve.m c)%Q /\ (b' == Curve.intercept c)%Q) /\
  (exists c',
      calc_two_pt_curve high low = Ok c' /\
      (Curve.m c' == Curve.m c)%Q /\
      (Curve.intercept c' == Curve.intercept c)%Q).
Proof.
  intros H.
  destruct (calc_two_pt_curve_ok _ _ _ H) as (yl & yh & Hyl & Hyh & Hne & Hm & Hi).
  split.
  - intros m' b' yl' yh' Hyl' Hyh' El Eh.
    rewrite Hyl in Hyl'. rewrite Hyh in Hyh'.
    inversion Hyl'; subst yl'. inversion Hyh'; subst yh'.
    assert (Em : (m' == Curve.m c)%Q).
    { rewrite Hm, <- El, <- Eh. field. exact Hne. }
    split; [exact Em|]. rewrite Hi, <- Em, <- El. ring.
  - assert (Hne' : ~ (Point.x low - Point.x high == 0)%Q).
    { intros Hz. apply Hne.
      assert (E : (Point.x high - Point.x low
                   == - (Point.x low - Point.x high))%Q) by ring.
      rewrite E, Hz. ring. }
    unfold calc_two_pt_curve. rewrite Hyl, Hyh. simpl.
    rewrite (py_div_nonzero _ _ Hne'). simpl.
    eexists. split; [reflexivity|]. simpl. rewrite Hi, Hm.
    split; field; repeat split; assumption.
Qed.

Lemma calc_two_pt_curve_unique_line_witness :
  exists c',
    calc_two_pt_curve (Point.mk (1746 # 10) (Some (1744 # 10)))
                      (Point.mk (696 # 10) (Some (698 # 10))) = Ok c' /\
    (Curve.m c' == 523 # 525)%Q.
Proof.
  destruct (calc_two_pt_curve_unique_line
              (Point.mk (696 # 10) (Some (698 # 10)))
              (Point.mk (1746 # 10) (Some (1744 # 10))) _ eq_refl)
    as (_ & c' & Hc' & Hm & _).
  exists c'. split; [exact Hc'|]. rewrite Hm. reflexivity.
Defined.

(** ** [create_curve] on incomplete input *)

Lemma mean_of_cases (ce : option CalEvent.t) (cpd : Compound) :
  (exists v, mean_of ce cpd = Ok v) \/ mean_of ce cpd = Raise AttributeError.
Proof.
  destruct ce as [ce|]; [|right; reflexivity]. simpl.
  destruct (CalEvent.result_of ce cpd); [left; eexists|right]; reflexivity.
Qed.

(** X11. [create_curve] stores nothing when an input is missing. If the
    MasterCal has no subcal of one of the three standards it raises
    [AttributeError]. If the three subcals and their results for a compound
    are there but the low or the high mean is unset, or the mid mean is
    unset while the certified low and high values differ, the round of that
    compound raises [TypeError], and [create_curve] as a whole raises. *)
Theorem create_curve_incomplete_input (registry : list (string * certified))
  (self : MasterCal.t) :
  (find_cal_by_type (MasterCal.subcals self) low_std = None \/
   find_cal_by_type (MasterCal.subcals self) high_std = None \/
   find_cal_by_type (MasterCal.subcals self) mid_std = None ->
   create_curve registry self = Raise AttributeError) /\
  (forall cpd el eh em rl rh rm lo mi hi,
      find_cal_by_type (MasterCal.subcals self) low_std = Some el ->
      find_cal_by_type (MasterCal.subcals self) high_std = Some eh ->
      find_cal_by_type (MasterCal.subcals self) mid_std = Some em ->
      CalEvent.result_of el cpd = Some rl ->
      CalEvent.result_of eh cpd = Some rh ->
      CalEvent.result_of em cpd = Some rm ->
      certified_of registry low_std = Ok lo ->
      certified_of registry mid_std = Ok mi ->
      certified_of registry high_std = Ok hi ->
      r_mean rl = None \/ r_mean rh = None \/
      (r_mean rm = None /\ ~ (lo cpd == hi cpd)%Q) ->
      create_curve_for registry cpd self = Raise TypeError /\
      raises (create_curve registry self)).
Proof.
  split.
  - intros Hmiss. unfold create_curve.
    assert (Hco : create_curve_for registry CO self = Raise AttributeError).
    { rewrite create_curve_for_plot.
      cut (fit_curve_for registry CO self = Raise AttributeError);
        [intros ->; reflexivity|].
      unfold fit_curve_for.
      destruct (mean_of_cases (find_cal_by_type (MasterCal.subcals self) low_std) CO)
        as [(v1 & E1)|E1]; rewrite E1; [|reflexivity].
      cbn [bind].
      destruct (mean_of_cases (find_cal_by_type (MasterCal.subcals self) high_std) CO)
        as [(v2 & E2)|E2]; rewrite E2; [|reflexivity].
      cbn [bind].
      destruct (mean_of_cases (find_cal_by_type (MasterCal.subcals self) mid_std) CO)
        as [(v3 & E3)|E3]; rewrite E3; [|reflexivity].
      exfalso. destruct Hmiss as [H|[H|H]];
        [rewrite H in E1 | rewrite H in E2 | rewrite H in E3]; discriminate. }
    rewrite Hco. reflexivity.
  - intros cpd el eh em rl rh rm lo mi hi Fl Fh Fm Rl Rh Rm Cl Cm Ch Hunset.
    assert (Hround : create_curve_for registry cpd self = Raise TypeError).
    { rewrite create_curve_for_plot.
      cut (fit_curve_for registry cpd self = Raise TypeError);
        [intros ->; reflexivity|].
      unfold fit_curve_for. rewrite Fl, Fh, Fm. simpl.
      rewrite Rl, Rh, Rm. cbn [bind]. rewrite Cl, Cm, Ch. cbn [bind].
      unfold calc_two_pt_curve. simpl.
      destruct Hunset as [H|[H|[H Hne]]].
      - rewrite H. destruct (r_mean rh); reflexivity.
      - rewrite H. reflexivity.
      - destruct (r_mean rh) as [yh|]; [|reflexivity].
        destruct (r_mean rl) as [yl|]; [|reflexivity].
        simpl. rewrite py_div_nonzero.
        + simpl. rewrite H. reflexivity.
        + intros Hz. apply Hne.
          assert (E : (hi cpd == (hi cpd - lo cpd) + lo cpd)%Q) by ring.
          rewrite E, Hz. ring. }
    split; [exact Hround|]. apply create_curve_raises.
Qed.

Lemma create_curve_incomplete_input_witness :
  create_curve standards (MasterCal.init [shared_low_1; shared_high])
  = Raise AttributeError.
Proof.
  destruct (create_curve_incomplete_input standards
              (MasterCal.init [shared_low_1; shared_high])) as (Hmiss & _).
  apply Hmiss. right. right. reflexivity.
Defined.

(** ** The file name of a plot *)

Lemma chars_append (s1 s2 : string) :
  list_ascii_of_string (s1 ++ s2)
  = list_ascii_of_string s1 ++ list_ascii_of_string s2.
Proof.
  induction s1 as [|c s1 IH]; simpl; [reflexivity | rewrite IH; reflexivity].
Qed.

Lemma chars_map_chars (f : Ascii.ascii -> Ascii.ascii) (s : string) :
  list_ascii_of_string (map_chars f s) = map f (list_ascii_of_string s).
Proof.
  induction s as [|c s IH]; simpl; [reflexivity | rewrite IH; reflexivity].
Qed.

(** After the two replacements and the lowering a character is no dash, no
    slash and no upper-case letter; it may still be a space. *)
Lemma compound_safe_char (c : Ascii.ascii) :
  let c' := lower_char
              (if Ascii.eqb (if Ascii.eqb c "-"%char then "_"%char else c)
                            "/"%char
               then "_"%char
               else (if Ascii.eqb c "-"%char then "_"%char else c)) in
  Ascii.eqb c' "-"%char = false /\ Ascii.eqb c' "/"%char = false /\
  is_upper c' = false /\
  (Ascii.eqb c' " "%char = true -> Ascii.eqb c " "%char = true).
Proof.
  destruct c as [[] [] [] [] [] [] [] []]; vm_compute; auto.
Qed.

Lemma chars_compound_safe (k : string) :
  Forall (fun c => Ascii.eqb c "-"%char = false /\
                   Ascii.eqb c "/"%char = false /\ is_upper c = false)
         (list_ascii_of_string (compound_safe k)).
Proof.
  unfold compound_safe, lower, replace_char. rewrite !chars_map_chars.
  rewrite !map_map. apply Forall_forall. intros c Hc.
  apply in_map_iff in Hc. destruct Hc as (c0 & <- & _).
  destruct (compound_safe_char c0) as (H1 & H2 & H3 & _). auto.
Qed.

Lemma chars_joined (names : list string) :
  Forall (fun c => Ascii.eqb c "-"%char = false /\
                   Ascii.eqb c "/"%char = false /\ is_upper c = false)
         (list_ascii_of_string (String.concat "_" (map compound_safe names))).
Proof.
  induction names as [|k rest IH]; simpl; [constructor|].
  destruct (map compound_safe rest) as [|k' rest'] eqn:E.
  - apply chars_compound_safe.
  - rewrite !chars_append. apply Forall_app. split;
      [apply chars_compound_safe|].
    simpl. constructor; [repeat split | exact IH].
Qed.

(** X12. The file name that [summit_picarro_plot] saves to holds no dash,
    no slash, no space and no upper-case letter, whatever the names of the
    compounds, and ends in [_last_week.png]; it is as long as the names,
    one separator between each two of them, and the ending. *)
Theorem plot_name_plain (keys : list string) :
  Forall (fun c => plain_char c = true)
         (list_ascii_of_string (plot_name keys)) /\
  (exists stem, plot_name keys = (stem ++ "_last_week.png")%string /\
                String.length stem
                = (list_sum (map String.length keys)
                   + (length keys - 1))%nat).
Proof.
  unfold plot_name. cbv zeta. split.
  - rewrite chars_append. apply Forall_app. split.
    + unfold replace_char. rewrite chars_map_chars.
      apply Forall_forall. intros c Hc. apply in_map_iff in Hc.
      destruct Hc as (c0 & <- & Hc0).
      pose proof (proj1 (Forall_forall _ _) (chars_joined keys) c0 Hc0)
        as (H1 & H2 & H3).
      unfold plain_char. destruct (Ascii.eqb c0 " "%char) eqn:E.
      * reflexivity.
      * rewrite H1, H2, E, H3. reflexivity.
    + vm_compute. repeat constructor.
  - eexists. split; [reflexivity|].
    assert (Hmap : forall f s, String.length (map_chars f s) = String.length s).
    { intros f s. induction s as [|c s IH]; simpl; [reflexivity|].
      rewrite IH. reflexivity. }
    assert (Happ : forall s1 s2, String.length (s1 ++ s2)
                                 = (String.length s1 + String.length s2)%nat).
    { intros s1 s2. induction s1 as [|c s1 IH]; simpl; [reflexivity|].
      rewrite IH. reflexivity. }
    unfold replace_char. rewrite Hmap.
    induction keys as [|k rest IH]; [reflexivity|].
    simpl map. cbn [String.concat].
    destruct rest as [|k' rest'].
    + simpl. unfold compound_safe, lower, replace_char. rewrite !Hmap. lia.
    + change (map compound_safe (k' :: rest'))
        with (compound_safe k' :: map compound_safe rest') in *.
      cbv iota. rewrite !Happ. simpl map in IH. rewrite IH.
      unfold compound_safe at 1, lower, replace_char. rewrite !Hmap.
      simpl. lia.
Qed.
(** * The file tracker *)

Lemma first_named_known (db_files : list DataFile.t) (name : string) :
  existsb (String.eqb name) (map DataFile._name db_files) = true ->
  exists m, find (fun f => String.eqb (DataFile._name f) name) db_files
            = Some m.
Proof.
  intros H. apply existsb_exists in H. destruct H as (n & Hn & E).
  apply String.eqb_eq in E. subst n.
  apply in_map_iff in Hn. destruct Hn as (x & Hx & Hin).
  destruct (find (fun f => String.eqb (DataFile._name f) name) db_files)
    as [m|] eqn:F.
  - exists m. reflexivity.
  - apply (find_none _ _ F) in Hin. rewrite Hx, String.eqb_refl in Hin.
    discriminate.
Qed.

Lemma first_named_member (db_files : list DataFile.t) (name : string)
  (m : DataFile.t) :
  find (fun f => String.eqb (DataFile._name f) name) db_files = Some m ->
  In m db_files /\ DataFile._name m = name.
Proof.
  intros F. apply find_some in F. destruct F as (Hin & E).
  apply String.eqb_eq in E. split; assumption.
Qed.

Lemma queue_file_cases (db_files acc : list DataFile.t) (file : Found) :
  (existsb (String.eqb (path_name (found_path file)))
           (map DataFile._name db_files) = false /\
   queue_file db_files (map DataFile._name db_files) acc file
   = Ok (acc ++ [new_datafile file])) \/
  (exists m,
      find (fun f => String.eqb (DataFile._name f)
                                (path_name (found_path file))) db_files
      = Some m /\
      ((DataFile.size m < st_size file /\
        queue_file db_files (map DataFile._name db_files) acc file
        = Ok (acc ++ [m])) \/
       (st_size file <= DataFile.size m /\
        queue_file db_files (map DataFile._name db_files) acc file
        = Ok acc))).
Proof.
  unfold queue_file, check_filesize.
  destruct (existsb (String.eqb (path_name (found_path file)))
                    (map DataFile._name db_files)) eqn:E.
  - right. destruct (first_named_known _ _ E) as (m & F). exists m.
    split; [exact F|]. rewrite F. simpl.
    destruct (DataFile.size m <? st_size file) eqn:S.
    + left. apply Z.ltb_lt in S. split; [exact S | reflexivity].
    + right. apply Z.ltb_ge in S. split; [exact S | reflexivity].
  - left. split; reflexivity.
Qed.

(** The scan never raises: it extends the queue it starts from, with a new
    [DataFile] for every file of an unknown name and with the first row of
    the name for every file that is larger than that row says. *)
Lemma queue_files_spec (db_files : list DataFile.t) (disk : list Found) :
  forall acc,
  exists more,
    queue_files db_files (map DataFile._name db_files) disk acc
    = Ok (acc ++ more) /\
    (forall q, In q more ->
       exists file, In file disk /\
         ((existsb (String.eqb (path_name (found_path file)))
                   (map DataFile._name db_files) = false /\
           q = new_datafile file) \/
          (find (fun f => String.eqb (DataFile._name f)
                                     (path_name (found_path file))) db_files
           = Some q /\ DataFile.size q < st_size file))) /\
    (forall file, In file disk ->
       (existsb (String.eqb (path_name (found_path file)))
                (map DataFile._name db_files) = false ->
        In (new_datafile file) more) /\
       (forall m,
           find (fun f => String.eqb (DataFile._name f)
                                     (path_name (found_path file))) db_files
           = Some m ->
           DataFile.size m < st_size file -> In m more)).
Proof.
  induction disk as [|file rest IH]; intros acc.
  - exists []. simpl. rewrite app_nil_r. split; [reflexivity|].
    split; [intros q []|intros file []].
  - cbn [queue_files].
    destruct (queue_file_cases db_files acc file)
      as [(E & ->)|(m & F & [(S & ->)|(S & ->)])]; cbn [bind].
    + destruct (IH (acc ++ [new_datafile file])) as (more & -> & Hq & Hf).
      exists (new_datafile file :: more). rewrite <- app_assoc.
      split; [reflexivity|]. split.
      * intros q [<-|Hin].
        -- exists file. split; [left; reflexivity|]. left. split; trivial.
        -- destruct (Hq q Hin) as (f & Hfin & H). exists f.
           split; [right; exact Hfin | exact H].
      * intros f [<-|Hfin].
        -- split; [intros _; left; reflexivity|].
           intros m F. apply first_named_member in F. destruct F as (Hin & Hn).
           assert (existsb (String.eqb (path_name (found_path file)))
                           (map DataFile._name db_files) = true).
           { apply existsb_exists. exists (DataFile._name m).
             split; [apply in_map; exact Hin|].
             rewrite Hn. apply String.eqb_refl. }
           congruence.
        -- destruct (Hf f Hfin) as (H1 & H2).
           split; [intros H; right; auto | intros m F S; right; eauto].
    + destruct (IH (acc ++ [m])) as (more & -> & Hq & Hf).
      exists (m :: more). rewrite <- app_assoc.
      split; [reflexivity|]. split.
      * intros q [<-|Hin].
        -- exists file. split; [left; reflexivity|]. right. split; trivial.
        -- destruct (Hq q Hin) as (f & Hfin & H). exists f.
           split; [right; exact Hfin | exact H].
      * intros f [<-|Hfin].
        -- split.
           ++ intros E. exfalso.
              apply first_named_member in F. destruct F as (Hin & Hn).
              assert (existsb (String.eqb (path_name (found_path file)))
                              (map DataFile._name db_files) = true).
              { apply existsb_exists. exists (DataFile._name m).
                split; [apply in_map; exact Hin|].
                rewrite Hn. apply String.eqb_refl. }
              congruence.
           ++ intros m' F' _. left. congruence.
        -- destruct (Hf f Hfin) as (H1 & H2).
           split; [intros H; right; auto | intros m' F' S'; right; eauto].
    + destruct (IH acc) as (more & -> & Hq & Hf).
      exists more. split; [reflexivity|]. split.
      * intros q Hin. destruct (Hq q Hin) as (f & Hfin & H). exists f.
        split; [right; exact Hfin | exact H].
      * intros f [<-|Hfin].
        -- split.
           ++ intros E. exfalso.
              apply first_named_member in F. destruct F as (Hin & Hn).
              assert (existsb (String.eqb (path_name (found_path file)))
                              (map DataFile._name db_files) = true).
              { apply existsb_exists. exists (DataFile._name m).
                split; [apply in_map; exact Hin|].
                rewrite Hn. apply String.eqb_refl. }
              congruence.
           ++ intros m' F' S'. exfalso. assert (m' = m) by congruence.
              subst m'. lia.
        -- apply (Hf f Hfin).
Qed.

Lemma merge_file_cases (file : DataFile.t) (db_files : list DataFile.t)
  (merged : DataFile.t) (db_files' : list DataFile.t) :
  merge_file file db_files = Some (merged, db_files') ->
  (DataFile.id file <> None /\ merged = file /\ db_files' = db_files) \/
  (DataFile.id file = None /\
   (exists k, merged = DataFile.set_id (Some k) file) /\
   db_files' = db_files ++ [merged]).
Proof.
  unfold merge_file. destruct (DataFile.id file) as [k|] eqn:E.
  - intros H. injection H as <- <-. left. repeat split. discriminate.
  - destruct (existsb _ _); [discriminate|].
    intros H. injection H as <- <-. right. repeat split. eexists. reflexivity.
Qed.

(** The merge leaves a row of the table as it is and appends a keyed copy
    of every new file. *)
Lemma merge_files_spec (todo : list DataFile.t) :
  forall db_files todo' db_files',
    merge_files todo db_files = Some (todo', db_files') ->
    exists added,
      db_files' = db_files ++ added /\
      Forall2 (fun q q' =>
                 (DataFile.id q <> None /\ q' = q) \/
                 (DataFile.id q = None /\ In q' added /\
                  exists k, q' = DataFile.set_id (Some k) q))
              todo todo' /\
      forall a, In a added ->
        exists q k, In q todo /\ DataFile.id q = None /\
                    a = DataFile.set_id (Some k) q.
Proof.
  induction todo as [|file rest IH]; intros db_files todo' db_files' H.
  - simpl in H. injection H as <- <-. exists []. rewrite app_nil_r.
    split; [reflexivity|]. split; [constructor | intros a []].
  - cbn [merge_files] in H.
    destruct (merge_file file db_files) as [[merged mid]|] eqn:M;
      [|discriminate].
    destruct (merge_files rest mid) as [[rest' last]|] eqn:R; [|discriminate].
    injection H as <- <-.
    destruct (IH _ _ _ R) as (added & -> & Hall & Hadded).
    destruct (merge_file_cases _ _ _ _ M)
      as [(Hid & -> & ->)|(Hid & (k & Hk) & ->)].
    + exists added. split; [reflexivity|]. split.
      * constructor; [left; split; trivial | exact Hall].
      * intros a Ha. destruct (Hadded a Ha) as (q & k & Hq & Hn & Hqa).
        exists q, k. split; [right; exact Hq | split; assumption].
    + exists (merged :: added). rewrite <- app_assoc. split; [reflexivity|].
      split.
      * constructor.
        -- right. split; [exact Hid|]. split; [left; reflexivity|].
           exists k. exact Hk.
        -- revert Hall. apply Forall2_impl.
           intros q q' [H|(H1 & H2 & H3)]; [left; exact H|].
           right. split; [exact H1|]. split; [right; exact H2 | exact H3].
      * intros a [<-|Ha].
        -- exists file, k. split; [left; reflexivity | split; assumption].
        -- destruct (Hadded a Ha) as (q & k' & Hq & Hn & Hqa).
           exists q, k'. split; [right; exact Hq | split; assumption].
Qed.

Lemma merge_files_keyed (todo db_files : list DataFile.t) :
  (forall q, In q todo -> DataFile.id q <> None) ->
  merge_files todo db_files = Some (todo, db_files).
Proof.
  induction todo as [|file rest IH]; intros Hk; [reflexivity|].
  cbn [merge_files]. unfold merge_file.
  destruct (DataFile.id file) eqn:E.
  - rewrite IH; [reflexivity|]. intros q Hq. apply Hk. right. exact Hq.
  - exfalso. apply (Hk file); [left; reflexivity | exact E].
Qed.

Lemma same_columns_refl (f : DataFile.t) : same_columns f f.
Proof. left. reflexivity. Qed.

Lemma same_columns_chain (a b c : DataFile.t) :
  same_columns a b -> same_columns b c -> same_columns a c.
Proof.
  unfold same_columns. intros [-> | ->] [-> | ->]; auto.
Qed.

Lemma same_columns_fields (f f' : DataFile.t) :
  same_columns f f' ->
  DataFile.id f' = DataFile.id f /\
  DataFile._name f' = DataFile._name f /\
  DataFile._path f' = DataFile._path f /\
  DataFile.size f' = DataFile.size f /\
  (DataFile.processed f' = false -> f' = f).
Proof.
  intros [-> | ->]; repeat split; auto. simpl. discriminate.
Qed.

Lemma rows_same_columns_refl (db_files : list DataFile.t) :
  Forall2 same_columns db_files db_files.
Proof.
  induction db_files; constructor; [apply same_columns_refl | assumption].
Qed.

Lemma rows_same_columns_chain (l1 l2 : list DataFile.t) :
  Forall2 same_columns l1 l2 ->
  forall l3, Forall2 same_columns l2 l3 -> Forall2 same_columns l1 l3.
Proof.
  induction 1 as [|a b l1 l2 Hab _ IH]; intros l3 H; inversion H; subst.
  - constructor.
  - constructor; [eapply same_columns_chain; eassumption | apply IH; assumption].
Qed.

Lemma mark_processed_columns (key : nat) (db_files : list DataFile.t) :
  Forall2 same_columns db_files (mark_processed key db_files).
Proof.
  unfold mark_processed. apply Forall2_map_same. intros f.
  destruct (DataFile.id f) as [k|]; [|left; reflexivity].
  destruct (k =? key)%nat; [right | left]; reflexivity.
Qed.

(** The files of the queue are read in turn, each under its key; rows of
    the table change in [processed] only. *)
Lemma load_queue_spec (disk : list Found) (db_dates : list datetime)
  (todo : list DataFile.t) :
  forall db_files session db_files' session',
    load_queue disk db_dates todo db_files session
    = Some (db_files', session') ->
    exists pairs,
      Forall2 (fun q p => DataFile.id q = Some (fst p) /\
                          read_csv disk (DataFile._path q) = Some (snd p))
              todo pairs /\
      session' = fold_left (load_file db_dates) pairs session /\
      Forall2 same_columns db_files db_files'.
Proof.
  induction todo as [|file rest IH]; intros db_files session db_files' session' H.
  - simpl in H. injection H as <- <-. exists [].
    split; [constructor|]. split; [reflexivity | apply rows_same_columns_refl].
  - cbn [load_queue] in H.
    destruct (read_csv disk (DataFile._path file)) as [rows|] eqn:Rd;
      [|discriminate].
    destruct (DataFile.id file) as [key|] eqn:Id; [|discriminate].
    destruct (IH _ _ _ _ H) as (pairs & Hall & -> & Hcols).
    exists ((key, rows) :: pairs). split.
    + constructor; [split; assumption | exact Hall].
    + split; [reflexivity|].
      eapply rows_same_columns_chain; [apply mark_processed_columns|].
      exact Hcols.
Qed.

(** A file whose rows are all dated in [db_dates] is read and adds
    nothing. *)
Lemma load_queue_known (disk : list Found) (db_dates : list datetime)
  (todo : list DataFile.t) :
  (forall q, In q todo ->
     DataFile.id q <> None /\
     exists rows, read_csv disk (DataFile._path q) = Some rows /\
                  forall line, In line rows -> In (EPOCH_TIME line) db_dates) ->
  forall db_files session,
  exists db_files',
    load_queue disk db_dates todo db_files session = Some (db_files', session) /\
    Forall2 same_columns db_files db_files'.
Proof.
  induction todo as [|file rest IH]; intros Hk db_files session.
  - exists db_files. split; [reflexivity | apply rows_same_columns_refl].
  - cbn [load_queue].
    destruct (Hk file (or_introl eq_refl)) as (Hid & rows & -> & Hrows).
    destruct (DataFile.id file) as [key|]; [|contradiction Hid; reflexivity].
    assert (E : load_file db_dates session (key, rows) = session).
    { apply (load_files_known db_dates [(key, rows)]).
      intros f line [<-|[]] Hline. apply Hrows. exact Hline. }
    rewrite E.
    destruct (IH (fun q Hq => Hk q (or_intror Hq))
                 (mark_processed key db_files) session)
      as (db_files' & -> & Hcols).
    exists db_files'. split; [reflexivity|].
    eapply rows_same_columns_chain; [apply mark_processed_columns|].
    exact Hcols.
Qed.

Lemma first_named_columns (name : string) (l l' : list DataFile.t) :
  Forall2 same_columns l l' ->
  match find (fun f => String.eqb (DataFile._name f) name) l,
        find (fun f => String.eqb (DataFile._name f) name) l' with
  | Some m, Some m' => same_columns m m'
  | None, None => True
  | _, _ => False
  end.
Proof.
  induction 1 as [|a b l l' Hab _ IH]; simpl; [exact I|].
  destruct (same_columns_fields _ _ Hab) as (_ & -> & _).
  destruct (String.eqb (DataFile._name a) name); [exact Hab | exact IH].
Qed.

Lemma names_same_columns (l l' : list DataFile.t) :
  Forall2 same_columns l l' -> map DataFile._name l' = map DataFile._name l.
Proof.
  induction 1 as [|a b l l' Hab _ IH]; simpl; [reflexivity|].
  destruct (same_columns_fields _ _ Hab) as (_ & -> & _). rewrite IH.
  reflexivity.
Qed.

(** What a round that returns has done: merged the queue, read every
    queued file under its key, and changed rows of [files] in [processed]
    only. *)
Lemma check_load_round_spec (disk : list Found) (db_files : list DataFile.t)
  (session : Store.t) (db_files' : list DataFile.t) (session' : Store.t) :
  check_load_round disk db_files session = Some (db_files', session') ->
  exists todo merged added pairs,
    files_to_process db_files disk = Ok todo /\
    merge_files todo db_files = Some (merged, db_files ++ added) /\
    Forall2 (fun q p => DataFile.id q = Some (fst p) /\
                        read_csv disk (DataFile._path q) = Some (snd p))
            merged pairs /\
    session' = check_load_new_data pairs session /\
    Forall2 same_columns (db_files ++ added) db_files'.
Proof.
  unfold check_load_round. intros H.
  destruct (files_to_process db_files disk) as [todo|] eqn:Q; [|discriminate].
  destruct todo as [|q todo].
  - injection H as <- <-. exists [], [], [], []. rewrite app_nil_r.
    repeat split; try constructor. apply rows_same_columns_refl.
  - destruct (merge_files (q :: todo) db_files) as [[merged mid]|] eqn:M;
      [|discriminate].
    destruct (merge_files_spec _ _ _ _ M) as (added & -> & _ & _).
    destruct (load_queue_spec _ _ _ _ _ _ _ H) as (pairs & Hall & -> & Hcols).
    exists (q :: todo), merged, added, pairs. repeat split; assumption.
Qed.

Lemma first_named_app (name : string) (l1 l2 : list DataFile.t) :
  find (fun f => String.eqb (DataFile._name f) name) (l1 ++ l2)
  = match find (fun f => String.eqb (DataFile._name f) name) l1 with
    | Some m => Some m
    | None => find (fun f => String.eqb (DataFile._name f) name) l2
    end.
Proof.
  induction l1 as [|a l1 IH]; simpl; [reflexivity|].
  destruct (String.eqb (DataFile._name a) name); [reflexivity | exact IH].
Qed.

(** X13. Nothing in a round of [check_load_new_data] writes column [size]:
    a round that returns leaves every row of table [files] as it was but
    for [processed], and appends a keyed row for every file it saw for the
    first time. So a file that is larger than its row says is queued again
    by the next round over the same directory. *)
Theorem check_load_round_keeps_sizes (disk : list Found)
  (db_files : list DataFile.t) (session : Store.t)
  (db_files' : list DataFile.t) (session' : Store.t) :
  (forall f, In f db_files -> DataFile.id f <> None) ->
  check_load_round disk db_files session = Some (db_files', session') ->
  (exists added,
      Forall2 same_columns (db_files ++ added) db_files' /\
      forall a, In a added ->
        exists file k, In file disk /\
                       a = DataFile.set_id (Some k) (new_datafile file)) /\
  forall file m,
    In file disk ->
    find (fun f => String.eqb (DataFile._name f)
                              (path_name (found_path file))) db_files
    = Some m ->
    DataFile.size m < st_size file ->
    exists m' todo,
      files_to_process db_files' disk = Ok todo /\
      In m' todo /\ same_columns m m'.
Proof.
  intros Hkeys H.
  destruct (check_load_round_spec _ _ _ _ _ H)
    as (todo & merged & added & pairs & Q & M & Hall & Es & Hcols).
  split.
  - exists added. split; [exact Hcols|]. intros a Ha.
    destruct (merge_files_spec _ _ _ _ M) as (added' & E & _ & Hadded).
    apply app_inv_head in E. subst added'.
    destruct (Hadded a Ha) as (q & k & Hq & Hn & Hqa).
    unfold files_to_process in Q.
    destruct (queue_files_spec db_files disk
                (filter (fun f => negb (DataFile.processed f)) db_files))
      as (more & Q' & Hmore & _).
    rewrite Q' in Q. injection Q as <-.
    apply in_app_or in Hq. destruct Hq as [Hq|Hq].
    + apply filter_In in Hq. destruct Hq as (Hq & _).
      exfalso. exact (Hkeys q Hq Hn).
    + destruct (Hmore q Hq) as (file & Hf & [(E1 & E2)|(F & S)]).
      * exists file, k. split; [exact Hf|]. rewrite Hqa, E2. reflexivity.
      * apply first_named_member in F. exfalso. apply (Hkeys q); tauto.
  - intros file m Hfile F S.
    pose proof (first_named_columns (path_name (found_path file))
                  (db_files ++ added) db_files' Hcols) as C.
    rewrite first_named_app, F in C.
    destruct (find (fun f => String.eqb (DataFile._name f)
                                        (path_name (found_path file)))
                   db_files') as [m'|] eqn:F'; [|contradiction].
    unfold files_to_process.
    destruct (queue_files_spec db_files' disk
                (filter (fun f => negb (DataFile.processed f)) db_files'))
      as (more & Q2 & _ & Hmore).
    exists m'. eexists. split; [exact Q2|]. split; [|exact C].
    apply in_or_app. right. apply (Hmore file Hfile); [exact F'|].
    destruct (same_columns_fields _ _ C) as (_ & _ & _ & -> & _). exact S.
Qed.

(** X14. When every row of table [files] has its key and a round of
    [check_load_new_data] returns, the next round over the same directory
    returns too and adds nothing: no Datum, no row of [files]. Each file it
    queues was read by the first round, so all its dates are stored. *)
Theorem check_load_round_again (disk : list Found)
  (db_files : list DataFile.t) (session : Store.t)
  (db_files' : list DataFile.t) (session' : Store.t) :
  (forall f, In f db_files -> DataFile.id f <> None) ->
  check_load_round disk db_files session = Some (db_files', session') ->
  exists db_files'',
    check_load_round disk db_files' session' = Some (db_files'', session') /\
    Forall2 same_columns db_files' db_files''.
Proof.
  intros Hkeys H.
  destruct (check_load_round_spec _ _ _ _ _ H)
    as (todo & merged & added & pairs & Q & M & Hall & Es & Hcols).
  destruct (merge_files_spec _ _ _ _ M) as (added' & E & Hmerged & Hadded).
  apply app_inv_head in E. subst added'.
  set (known := fun path =>
         exists rows, read_csv disk path = Some rows /\
           forall line, In line rows ->
             In (EPOCH_TIME line) (map Datum.date (Store.data session'))).
  assert (Kmerged : forall q, In q merged -> known (DataFile._path q)).
  { intros q Hq. destruct (Forall2_In_l _ _ _ _ Hall Hq) as (p & Hp & _ & Rd).
    exists (snd p). split; [exact Rd|]. intros line Hline.
    rewrite Es. unfold check_load_new_data.
    destruct (load_files_dates (map Datum.date (Store.data session)) pairs
                session) as ((new & Hnew) & _ & _ & Hd).
    destruct (Hd p line Hp Hline) as [Hin|Hin]; [|exact Hin].
    rewrite Hnew, map_app. apply in_or_app. left. exact Hin. }
  assert (Ktodo : forall q, In q todo -> known (DataFile._path q)).
  { intros q Hq.
    destruct (Forall2_In_l _ _ _ _ Hmerged Hq) as (q' & Hq' & Hr).
    assert (Ep : DataFile._path q' = DataFile._path q).
    { destruct Hr as [(_ & ->)|(_ & _ & k & ->)]; reflexivity. }
    rewrite <- Ep. apply Kmerged. exact Hq'. }
  assert (Kadded : forall a, In a added -> known (DataFile._path a)).
  { intros a Ha. destruct (Hadded a Ha) as (q & k & Hq & _ & ->).
    apply (Ktodo q Hq). }
  assert (Hkeys' : forall x, In x db_files' -> DataFile.id x <> None).
  { intros x Hx. destruct (Forall2_In_r _ _ _ _ Hcols Hx) as (y & Hy & Hyx).
    destruct (same_columns_fields _ _ Hyx) as (-> & _).
    apply in_app_or in Hy. destruct Hy as [Hy|Hy]; [apply Hkeys; exact Hy|].
    destruct (Hadded y Hy) as (q & k & _ & _ & ->). discriminate. }
  unfold files_to_process in Q.
  destruct (queue_files_spec db_files disk
              (filter (fun f => negb (DataFile.processed f)) db_files))
    as (more1 & Q1 & _ & Hmore1).
  rewrite Q1 in Q. injection Q as <-.
  unfold check_load_round, files_to_process.
  destruct (queue_files_spec db_files' disk
              (filter (fun f => negb (DataFile.processed f)) db_files'))
    as (more2 & Q2 & Hmore2 & _).
  rewrite Q2.
  assert (G : forall q, In q (filter (fun f => negb (DataFile.processed f))
                                     db_files' ++ more2) ->
              DataFile.id q <> None /\
              exists rows, read_csv disk (DataFile._path q) = Some rows /\
                forall line, In line rows ->
                  In (EPOCH_TIME line)
                     (map Datum.date (Store.data session'))).
  { intros q Hq. apply in_app_or in Hq. destruct Hq as [Hq|Hq].
    - apply filter_In in Hq. destruct Hq as (Hq & Hp).
      split; [apply Hkeys'; exact Hq|].
      destruct (Forall2_In_r _ _ _ _ Hcols Hq) as (y & Hy & Hyq).
      destruct (same_columns_fields _ _ Hyq) as (_ & _ & _ & _ & Hsame).
      assert (Eq : q = y).
      { apply Hsame.
        destruct (DataFile.processed q); [discriminate | reflexivity]. }
      subst y.
      apply in_app_or in Hy. destruct Hy as [Hy|Hy].
      + apply Ktodo. apply in_or_app. left. apply filter_In.
        split; assumption.
      + apply Kadded. exact Hy.
    - destruct (Hmore2 q Hq) as (file & Hfile & [(E1 & E2)|(F & S)]).
      + exfalso.
        rewrite (names_same_columns _ _ Hcols), map_app, existsb_app in E1.
        apply orb_false_iff in E1. destruct E1 as (E1 & E3).
        destruct (Hmore1 file Hfile) as (Hnew & _).
        specialize (Hnew E1).
        assert (Hin : In (new_datafile file)
                         (filter (fun f => negb (DataFile.processed f))
                                 db_files ++ more1)).
        { apply in_or_app. right. exact Hnew. }
        destruct (Forall2_In_l _ _ _ _ Hmerged Hin)
          as (q' & _ & [(Hid & _)|(_ & Ha & k & Hk)]).
        * apply Hid. reflexivity.
        * assert (existsb (String.eqb (path_name (found_path file)))
                          (map DataFile._name added) = true).
          { apply existsb_exists. exists (DataFile._name q').
            split; [apply in_map; exact Ha|]. rewrite Hk. simpl.
            apply String.eqb_refl. }
          congruence.
      + split; [apply Hkeys'; apply (first_named_member _ _ _ F)|].
        pose proof (first_named_columns (path_name (found_path file))
                      (db_files ++ added) db_files' Hcols) as C.
        rewrite F, first_named_app in C.
        destruct (find (fun f => String.eqb (DataFile._name f)
                                            (path_name (found_path file)))
                       db_files) as [y|] eqn:Fy.
        * destruct (same_columns_fields _ _ C) as (_ & _ & Ep & Es' & _).
          rewrite Ep. apply Ktodo. apply in_or_app. right.
          apply (Hmore1 file Hfile); [exact Fy | lia].
        * destruct (find (fun f => String.eqb (DataFile._name f)
                                              (path_name (found_path file)))
                         added) as [y|] eqn:Fa; [|contradiction].
          destruct (same_columns_fields _ _ C) as (_ & _ & Ep & _).
          rewrite Ep. apply Kadded.
          apply (first_named_member _ _ _ Fa). }
  destruct (filter (fun f => negb (DataFile.processed f)) db_files' ++ more2)
    as [|q rest] eqn:Etodo.
  - exists db_files'. split; [reflexivity | apply rows_same_columns_refl].
  - rewrite merge_files_keyed; [|intros x Hx; apply (G x Hx)].
    apply load_queue_known. exact G.
Qed.

Lemma check_load_round_keeps_sizes_witness :
  exists m' todo,
    files_to_process [registered_a] scan_grown = Ok todo /\
    In m' todo /\ same_columns registered_a m'.
Proof.
  destruct (check_load_round_keeps_sizes scan_grown [registered_a]
              Store.empty [registered_a]
              (check_load_new_data [(1%nat, [sample_line 5; sample_line 10])]
                                   Store.empty))
    as (_ & Hgrown).
  - intros f [<-|[]]. discriminate.
  - vm_compute. reflexivity.
  - apply (Hgrown (mkFound "data/2019/a.dat" 200
                           (Some [sample_line 5; sample_line 10]))
                  registered_a).
    + left. reflexivity.
    + vm_compute. reflexivity.
    + vm_compute. reflexivity.
Defined.

Lemma check_load_round_again_witness :
  exists db_files'',
    check_load_round scan_first
      [DataFile.mk (Some 1%nat) "a.dat" "data/2019/a.dat" 100 true]
      (check_load_new_data [(1%nat, [sample_line 5])] Store.empty)
    = Some (db_files'',
            check_load_new_data [(1%nat, [sample_line 5])] Store.empty) /\
    Forall2 same_columns
      [DataFile.mk (Some 1%nat) "a.dat" "data/2019/a.dat" 100 true]
      db_files''.
Proof.
  apply (check_load_round_again scan_first [] Store.empty).
  - intros f [].
  - vm_compute. reflexivity.
Defined.

Lemma rows_from_app (key : nat) (t : datetime) (session : Store.t)
  (new : list Datum.t) :
  length (rows_from key t
            (Store.mk (Store.data session ++ new) (Store.cals session)
                      (Store.mastercals session)))
  = Nat.add (length (rows_from key t session))
            (length (filter (fun d => (Datum.date d =? t) &&
                                      match Datum.file_id d with
                                      | Some k => (k =? key)%nat
                                      | None => false
                                      end) new)).
Proof.
  unfold rows_from. simpl. rewrite filter_app, length_app. reflexivity.
Qed.

Lemma rows_from_grows (key : nat) (t : datetime) (session session' : Store.t) :
  (exists new, Store.data session' = Store.data session ++ new) ->
  (length (rows_from key t session) <= length (rows_from key t session'))%nat.
Proof.
  intros (new & E). unfold rows_from. rewrite E, filter_app, length_app. lia.
Qed.

(** Reading a file that holds a row of a date not in [db_dates] stores at
    least one more Datum of that date and file. *)
Lemma load_step_hit (db_dates : list datetime) (key : nat) (line : Line)
  (lines : list Line) :
  ~ In (EPOCH_TIME line) db_dates ->
  In line lines ->
  forall session,
    (S (length (rows_from key (EPOCH_TIME line) session))
     <= length (rows_from key (EPOCH_TIME line)
                  (fold_left
                     (fun session line =>
                        if existsb (Z.eqb (EPOCH_TIME line)) db_dates
                        then session
                        else add_datum key line session)
                     (map convert_units lines) session)))%nat.
Proof.
  intros Hnew. induction lines as [|l rest IH]; intros Hin session;
    [contradiction|].
  cbn [map fold_left]. destruct Hin as [->|Hin].
  - assert (E : existsb (Z.eqb (EPOCH_TIME (convert_units line))) db_dates
                = false).
    { destruct (existsb (Z.eqb (EPOCH_TIME (convert_units line))) db_dates)
        eqn:E; [|reflexivity].
      apply existsb_exists in E. destruct E as (t & Ht & Et).
      apply Z.eqb_eq in Et. simpl in Et. subst t. contradiction. }
    rewrite E.
    eapply Nat.le_trans;
      [|apply rows_from_grows;
        apply (load_step_dates db_dates key (map convert_units rest))].
    unfold add_datum. rewrite rows_from_app. simpl.
    rewrite Z.eqb_refl, Nat.eqb_refl. simpl. lia.
  - eapply Nat.le_trans; [|apply IH; exact Hin].
    apply le_n_S. apply rows_from_grows.
    destruct (existsb (Z.eqb (EPOCH_TIME (convert_units l))) db_dates).
    + exists []. rewrite app_nil_r. reflexivity.
    + eexists. reflexivity.
Qed.

Lemma load_files_hit (db_dates : list datetime) (key : nat) (line : Line)
  (rows : list Line) (pairs : list (nat * list Line)) :
  ~ In (EPOCH_TIME line) db_dates ->
  In line rows ->
  In (key, rows) pairs ->
  forall session,
    (S (length (rows_from key (EPOCH_TIME line) session))
     <= length (rows_from key (EPOCH_TIME line)
                  (fold_left (load_file db_dates) pairs session)))%nat.
Proof.
  intros Hnew Hline. induction pairs as [|p rest IH]; intros Hin session;
    [contradiction|].
  cbn [fold_left]. destruct Hin as [->|Hin].
  - eapply Nat.le_trans;
      [|apply rows_from_grows; apply (load_files_dates db_dates rest)].
    unfold load_file. apply load_step_hit; assumption.
  - eapply Nat.le_trans; [|apply IH; exact Hin].
    apply le_n_S. apply rows_from_grows. apply (load_file_dates db_dates).
Qed.

(** X15. A row of table [files] that is unprocessed and smaller than the
    file of its name is queued twice by one round, once as unprocessed and
    once as grown, and the file is read twice against the same [db_dates]:
    every row of the file with a date that was not stored gives at least
    two Datums of that date and file. *)
Theorem check_load_round_reads_pending_grown_twice (disk : list Found)
  (db_files : list DataFile.t) (session : Store.t)
  (db_files' : list DataFile.t) (session' : Store.t)
  (file : Found) (m : DataFile.t) (key : nat) (rows : list Line)
  (line : Line) :
  In file disk ->
  find (fun f => String.eqb (DataFile._name f)
                            (path_name (found_path file))) db_files
  = Some m ->
  DataFile.processed m = false ->
  DataFile.size m < st_size file ->
  DataFile.id m = Some key ->
  read_csv disk (DataFile._path m) = Some rows ->
  In line rows ->
  ~ In (EPOCH_TIME line) (map Datum.date (Store.data session)) ->
  check_load_round disk db_files session = Some (db_files', session') ->
  (2 + length (rows_from key (EPOCH_TIME line) session)
   <= length (rows_from key (EPOCH_TIME line) session'))%nat.
Proof.
  intros Hfile F Hp S Hid Rd Hline Hnew H.
  destruct (check_load_round_spec _ _ _ _ _ H)
    as (todo & merged & added & pairs & Q & M & Hall & -> & _).
  destruct (merge_files_spec _ _ _ _ M) as (added' & _ & Hmerged & _).
  unfold files_to_process in Q.
  destruct (queue_files_spec db_files disk
              (filter (fun f => negb (DataFile.processed f)) db_files))
    as (more & Q' & _ & Hmore).
  rewrite Q' in Q. injection Q as <-.
  apply Forall2_app_inv_l in Hmerged.
  destruct Hmerged as (ma & mb & Ha & Hb & ->).
  apply Forall2_app_inv_l in Hall.
  destruct Hall as (pa & pb & Hpa & Hpb & ->).
  assert (Hkept : forall l l', 
             Forall2 (fun q q' =>
                        (DataFile.id q <> None /\ q' = q) \/
                        (DataFile.id q = None /\ In q' added' /\
                         exists k, q' = DataFile.set_id (Some k) q)) l l' ->
             In m l -> In m l').
  { intros l l' Hl Hm. destruct (Forall2_In_l _ _ _ _ Hl Hm)
      as (q' & Hq' & [(_ & ->)|(Hn & _)]); [exact Hq' | congruence]. }
  assert (Hread : forall l ps,
             Forall2 (fun q p => DataFile.id q = Some (fst p) /\
                                 read_csv disk (DataFile._path q)
                                 = Some (snd p)) l ps ->
             In m l -> In (key, rows) ps).
  { intros l ps Hl Hm. destruct (Forall2_In_l _ _ _ _ Hl Hm)
      as ([k r] & Hp' & Ek & Er). simpl in Ek, Er.
      assert (k = key) by congruence. assert (r = rows) by congruence.
      subst. exact Hp'. }
  assert (Hma : In (key, rows) pa).
  { apply (Hread ma); [exact Hpa|]. apply (Hkept _ _ Ha).
    apply filter_In. split; [apply (first_named_member _ _ _ F)|].
    rewrite Hp. reflexivity. }
  assert (Hmb : In (key, rows) pb).
  { apply (Hread mb); [exact Hpb|]. apply (Hkept _ _ Hb).
    apply (Hmore file Hfile); assumption. }
  unfold check_load_new_data. rewrite fold_left_app.
  eapply Nat.le_trans;
    [|apply (load_files_hit _ key line rows pb Hnew Hline Hmb)].
  apply le_n_S.
  apply (load_files_hit _ key line rows pa Hnew Hline Hma).
Qed.

Lemma check_load_round_reads_pending_grown_twice_witness :
  exists db_files' session',
    check_load_round scan_grown [pending_a] Store.empty
    = Some (db_files', session') /\
    (2 + length (rows_from 1 (seconds 5) Store.empty)
     <= length (rows_from 1 (seconds 5) session'))%nat.
Proof.
  eexists. eexists. split; [vm_compute; reflexivity|].
  apply (check_load_round_reads_pending_grown_twice scan_grown [pending_a]
           Store.empty
           [DataFile.mk (Some 1%nat) "a.dat" "data/2019/a.dat" 100 true]
           _
           (mkFound "data/2019/a.dat" 200
                    (Some [sample_line 5; sample_line 10]))
           pending_a 1 [sample_line 5; sample_line 10] (sample_line 5)).
  - left. reflexivity.
  - vm_compute. reflexivity.
  - reflexivity.
  - vm_compute. reflexivity.
  - reflexivity.
  - vm_compute. reflexivity.
  - left. reflexivity.
  - intros [].
  - vm_compute. reflexivity.
Defined.

(** Every file of the merged queue is a row of table [files]. *)
Lemma merged_in_table (disk : list Found) (db_files todo merged added
  : list DataFile.t) :
  files_to_process db_files disk = Ok todo ->
  merge_files todo db_files = Some (merged, db_files ++ added) ->
  forall q, In q merged -> In q (db_files ++ added).
Proof.
  intros Q M q Hq.
  destruct (merge_files_spec _ _ _ _ M) as (added' & E & Hmerged & _).
  apply app_inv_head in E. subst added'.
  destruct (Forall2_In_r _ _ _ _ Hmerged Hq)
    as (q0 & Hq0 & [(Hid & ->)|(_ & Ha & _)]);
    [|apply in_or_app; right; exact Ha].
  apply in_or_app. left.
  unfold files_to_process in Q.
  destruct (queue_files_spec db_files disk
              (filter (fun f => negb (DataFile.processed f)) db_files))
    as (more & Q' & Hmore & _).
  rewrite Q' in Q. injection Q as <-.
  apply in_app_or in Hq0. destruct Hq0 as [Hq0|Hq0].
  - apply filter_In in Hq0. exact (proj1 Hq0).
  - destruct (Hmore q0 Hq0) as (file & _ & [(_ & E)|(F & _)]).
    + exfalso. apply Hid. rewrite E. reflexivity.
    + apply (first_named_member _ _ _ F).
Qed.

(** X8. A round of [check_load_new_data] that returns has touched two
    tables. In table [files] it has changed rows in [processed] only and
    appended rows. In table [data] it has only appended: the rows that
    were there stay first and unchanged, distinct keys stay distinct, and
    each new Datum comes from a row of a file that was read from the path
    of a row of [files], with that row's key, CO and CH4 multiplied by
    1000, CO2 unchanged, in no event, and a timestamp that was not in the
    store when the round began. Tables [cals] and [mastercals] are as they
    were. *)
Theorem check_load_round_appends (disk : list Found)
  (db_files : list DataFile.t) (session : Store.t)
  (db_files' : list DataFile.t) (session' : Store.t) :
  check_load_round disk db_files session = Some (db_files', session') ->
  (exists added, Forall2 same_columns (db_files ++ added) db_files') /\
  Store.cals session' = Store.cals session /\
  Store.mastercals session' = Store.mastercals session /\
  (NoDup (map Datum.id (Store.data session)) ->
   NoDup (map Datum.id (Store.data session'))) /\
  exists new,
    Store.data session' = Store.data session ++ new /\
    forall d, In d new ->
      ~ In (Datum.date d) (map Datum.date (Store.data session)) /\
      exists file key rows line,
        In file db_files' /\ DataFile.id file = Some key /\
        read_csv disk (DataFile._path file) = Some rows /\
        In line rows /\ ingested_from key line d.
Proof.
  intros H.
  destruct (check_load_round_spec _ _ _ _ _ H)
    as (todo & merged & added & pairs & Q & M & Hall & -> & Hcols).
  destruct (check_load_new_data_appends pairs session)
    as (new & Hdata & Hcals & Hmcs & Hkeys & Hnew).
  split; [exists added; exact Hcols|].
  split; [exact Hcals|]. split; [exact Hmcs|]. split; [exact Hkeys|].
  exists new. split; [exact Hdata|].
  intros d Hd. destruct (Hnew d Hd) as (Hfresh & p & line & Hp & Hline & Hing).
  split; [exact Hfresh|].
  destruct (Forall2_In_r _ _ _ _ Hall Hp) as (q & Hq & Hid & Hread).
  pose proof (merged_in_table _ _ _ _ _ Q M q Hq) as Hin.
  destruct (Forall2_In_l _ _ _ _ Hcols Hin) as (file & Hfile & Hsame).
  destruct (same_columns_fields _ _ Hsame) as (Eid & _ & Epath & _).
  exists file, (fst p), (snd p), line.
  split; [exact Hfile|]. split; [congruence|].
  split; [rewrite Epath; exact Hread|]. split; assumption.
Qed.

Lemma check_load_round_appends_witness :
  exists db_files' session',
    check_load_round scan_grown [registered_a] Store.empty
    = Some (db_files', session') /\
    map Datum.date (Store.data session') = [seconds 5; seconds 10] /\
    NoDup (map Datum.id (Store.data session')).
Proof.
  eexists. eexists. split; [vm_compute; reflexivity|].
  split; [reflexivity|].
  destruct (check_load_round_appends scan_grown [registered_a] Store.empty
              _ _ eq_refl) as (_ & _ & _ & Hkeys & _).
  apply Hkeys. constructor.
Defined.
